(** * Aged-document scripts: text layout and parchment noise

    A shallow embedding of [draw_wrapped] and of the noise step of
    [make_parchment] from [scripts/generate_altes_dokument.py] (the same
    functions appear in [generate_telegramm_zusammenfassung.py] and, for the
    noise step, in the other generator scripts), together with the parts of
    Python they call: float arithmetic, [str.split], [str.strip] and
    [textwrap.wrap].  Also embedded: [draw_text_block] of
    [generate_historisch_inspiriertes_dokument.py], [load_font] of the
    generators, the page geometry of [make_parchment] (margin, vignette,
    folds, the spots loop of the template) and [draw_guides] of
    [generate_altes_dokument_template.py].

    Conventions.
    - A Python [float] is an IEEE binary64 number: Rocq's primitive [float].
    - A Python [int] is a [Z].
    - A Python [str] is a list of characters; characters are the code points
      below 256, as [ascii].
    - A raised exception is the [Raise] case of [result]. *)

From Stdlib Require Import ZArith Bool Ascii String List Floats Lia Reals Lra
  Sorted.
From Stdlib Require Uint63.
Import ListNotations.

Open Scope Z_scope.

(** ** Exceptions *)

Inductive exn : Type :=
| OverflowError
| ValueError
| ZeroDivisionError.

Inductive result (A : Type) : Type :=
| Ok (a : A)
| Raise (e : exn).

Arguments Ok {A} a.
Arguments Raise {A} e.

Definition bind {A B : Type} (r : result A) (k : A -> result B) : result B :=
  match r with
  | Ok a => k a
  | Raise e => Raise e
  end.

Notation "x <- r ;; k" := (bind r (fun x => k))
  (at level 61, r at next level, right associativity).

Definition str := list ascii.

Definition lit (s : string) : str := list_ascii_of_string s.

(** ** Python numbers *)

Module Py.

(** [float(n)] and the implicit conversion of an [int] operand of a
    float operation: round to nearest, ties to even; [OverflowError] when
    the rounded value is out of range. *)
Definition float_of_int (n : Z) : result float :=
  match binary_normalize prec emax n 0 false with
  | S754_infinity _ => Raise OverflowError
  | sf => Ok (SF2Prim sf)
  end.

(** The integer part of [m * 2^e], for [m > 0]. *)
Definition trunc_pos (m : positive) (e : Z) : Z :=
  match e with
  | Zneg k => Z.shiftr (Zpos m) (Zpos k)
  | _ => Z.shiftl (Zpos m) e
  end.

(** [int(x)]: truncation toward zero; [ValueError] on NaN,
    [OverflowError] on an infinity. *)
Definition int_of_float (x : float) : result Z :=
  match Prim2SF x with
  | S754_zero _ => Ok 0
  | S754_finite s m e => Ok (if s then - trunc_pos m e else trunc_pos m e)
  | S754_infinity _ => Raise OverflowError
  | S754_nan => Raise ValueError
  end.

(** [max(x, 1)] for a float [x]: the second argument replaces the first
    only when it is strictly greater.  When [1] wins the result is the
    integer [1]; it is only ever used as a divisor, where [n / 1] and
    [n / 1.0] agree, so it is kept as [1.0]. *)
Definition max_1 (x : float) : float :=
  if (x <? 1)%float then 1%float else x.

(** [n / d] for an [int] [n] and a float [d]. *)
Definition truediv (n : Z) (d : float) : result float :=
  fn <- float_of_int n ;;
  if (d =? 0)%float then Raise ZeroDivisionError else Ok (fn / d)%float.

(** [n * x] for an [int] [n] and a float [x]. *)
Definition mul_int_float (n : Z) (x : float) : result float :=
  fn <- float_of_int n ;;
  Ok (fn * x)%float.

End Py.

(** ** Fonts *)

(** What the layout code uses of a PIL font: [font.getlength] and
    [font.size]. *)
Record font : Type := Font {
  getlength : str -> float;
  size : Z
}.

Definition color : Type := (Z * Z * Z)%type.

Module Layout.

(** The reference string measured by [draw_wrapped]. *)
Definition alphabet : str :=
  lit "ABCDEFGHIJKLMNOPQRSTUVWXYZabcdefghijklmnopqrstuvwxyz".

(** [avg = max(font.getlength(alphabet) / 52.0, 1)] *)
Definition avg (f : font) : float :=
  Py.max_1 (getlength f alphabet / 52)%float.

(** [cols = max(int(max_width_px / avg), 20)]; [draw_text_block] of
    [generate_historisch_inspiriertes_dokument.py] computes its
    [wrap_cols] in the same way. *)
Definition cols (f : font) (max_width_px : Z) : result Z :=
  q <- Py.truediv max_width_px (avg f) ;;
  n <- Py.int_of_float q ;;
  Ok (Z.max n 20).

(** [int(font.size * (1.0 + line_spacing))] *)
Definition line_height (f : font) (line_spacing : float) : result Z :=
  p <- Py.mul_int_float (size f) (1 + line_spacing)%float ;;
  Py.int_of_float p.

End Layout.

(** ** Python strings *)

Module PyStr.

Definition code (c : ascii) : N := N_of_ascii c.

Definition chr (n : N) : ascii := ascii_of_N n.

Definition newline : ascii := chr 10.
Definition tab : ascii := chr 9.
Definition cr : ascii := chr 13.
Definition space : ascii := chr 32.
Definition hyphen : ascii := chr 45.

Definition is_char (a c : ascii) : bool := N.eqb (code a) (code c).

Definition in_range (lo hi : N) (c : ascii) : bool :=
  (N.leb lo (code c) && N.leb (code c) hi)%bool.

(** The characters [str.strip()] removes: those for which
    [str.isspace] holds, here below code point 256. *)
Definition isspace (c : ascii) : bool :=
  (in_range 9 13 c || in_range 28 32 c || is_char (chr 133) c
   || is_char (chr 160) c)%bool.

Fixpoint lstrip (s : str) : str :=
  match s with
  | [] => []
  | c :: r => if isspace c then lstrip r else s
  end.

Definition rstrip (s : str) : str := rev (lstrip (rev s)).

(** [s.strip()] *)
Definition strip (s : str) : str := rstrip (lstrip s).

(** [not s.strip()], also written [s.strip() == ''] *)
Definition blank (s : str) : bool :=
  match strip s with
  | [] => true
  | _ :: _ => false
  end.

(** [s.split(sep)] for a one-character separator: the pieces between
    the separators, empty pieces kept; the empty string gives one empty
    piece. *)
Fixpoint split (sep : ascii) (s : str) : list str :=
  match s with
  | [] => [[]]
  | c :: r =>
      if is_char sep c then [] :: split sep r
      else match split sep r with
           | p :: ps => (c :: p) :: ps
           | [] => [[c]]
           end
  end.

(** [s.expandtabs(tabsize)], started at column [col]. *)
Fixpoint expandtabs_from (tabsize col : nat) (s : str) : str :=
  match s with
  | [] => []
  | c :: r =>
      if is_char tab c then
        match tabsize with
        | O => expandtabs_from tabsize col r
        | S _ =>
            let incr := (tabsize - Nat.modulo col tabsize)%nat in
            repeat space incr ++ expandtabs_from tabsize (col + incr) r
        end
      else if (is_char newline c || is_char cr c)%bool then
        c :: expandtabs_from tabsize 0 r
      else
        c :: expandtabs_from tabsize (S col) r
  end.

Definition expandtabs (tabsize : nat) (s : str) : str :=
  expandtabs_from tabsize 0 s.

(** [s.rfind(a, 0, stop)] as an option: the last index below [stop]
    that holds [a]. *)
Fixpoint rfind_from (a : ascii) (i stop : nat) (s : str) : option nat :=
  match stop, s with
  | S stop', c :: r =>
      match rfind_from a (S i) stop' r with
      | Some j => Some j
      | None => if is_char a c then Some i else None
      end
  | _, _ => None
  end.

Definition rfind (a : ascii) (stop : nat) (s : str) : option nat :=
  rfind_from a 0 stop s.

Definition len (s : str) : Z := Z.of_nat (length s).

End PyStr.

(** ** [textwrap.wrap]

    The module [textwrap] of Python's standard library, as in CPython
    3.11.  [textwrap.wrap(text, width)] builds a [TextWrapper] with its defaults
    ([expand_tabs], [replace_whitespace], [drop_whitespace],
    [break_long_words] and [break_on_hyphens] all true, [tabsize = 8],
    empty indents, no [max_lines], no [fix_sentence_endings]) and calls
    its [wrap] method. *)

Module Textwrap.
Import PyStr.

(** [_whitespace = '\t\n\x0b\x0c\r '] *)
Definition whitespace (c : ascii) : bool :=
  (in_range 9 13 c || is_char space c)%bool.

(** [_munge_whitespace]: expand tabs, then map every [_whitespace]
    character to a space. *)
Definition munge_whitespace (text : str) : str :=
  map (fun c => if whitespace c then space else c) (expandtabs 8 text).

(** The classes of [wordsep_re]; [\w] and [\d] are the Unicode ones,
    here below code point 256. *)
Definition re_digit (c : ascii) : bool := in_range 48 57 c.

Definition re_word (c : ascii) : bool :=
  (in_range 48 57 c || in_range 65 90 c || is_char (chr 95) c
   || in_range 97 122 c || is_char (chr 170) c || in_range 178 179 c
   || is_char (chr 181) c || in_range 185 186 c || in_range 188 190 c
   || in_range 192 214 c || in_range 216 246 c || in_range 248 255 c)%bool.

(** [letter = [^\d\W]] *)
Definition letter (c : ascii) : bool := (re_word c && negb (re_digit c))%bool.

(** [word_punct]: a [\w] character, or one of the seven characters
    exclamation mark, double quote, apostrophe, ampersand, full stop,
    comma and question mark. *)
Definition word_punct (c : ascii) : bool :=
  (re_word c || is_char (chr 33) c || is_char (chr 34) c
   || is_char (chr 39) c || is_char (chr 38) c || is_char (chr 46) c
   || is_char (chr 44) c || is_char (chr 63) c)%bool.

(** Length of the longest prefix whose characters satisfy [p]. *)
Fixpoint span (p : ascii -> bool) (s : str) : nat :=
  match s with
  | c :: r => if p c then S (span p r) else O
  | [] => O
  end.

(** The lookahead [(?=-{2,}\w)]. *)
Definition ahead_dashes (rest : str) : bool :=
  let n := span (is_char hyphen) rest in
  ((2 <=? n)%nat &&
   match skipn n rest with
   | c :: _ => re_word c
   | [] => false
   end)%bool.

(** The lookbehind [(?<=word_punct)]; [before] is the text before the
    position, last character first. *)
Definition behind_word_punct (before : str) : bool :=
  match before with
  | c :: _ => word_punct c
  | [] => false
  end.

(** The hyphenated-word ending
    [-(?: (?<=lt{2}-) | (?<=lt-lt-)) (?= lt -? lt)]
    at a position with [before] behind it and [rest] ahead. *)
Definition ends_hyphenated (before rest : str) : bool :=
  match rest with
  | h :: ahead =>
      (is_char hyphen h
       && match before with
          | l1 :: l2 :: more =>
              (letter l1
               && (letter l2
                   || (is_char hyphen l2
                       && match more with
                          | l3 :: _ => letter l3
                          | [] => false
                          end)))%bool
          | _ => false
          end
       && match ahead with
          | a :: b :: more =>
              (letter a
               && (letter b
                   || (is_char hyphen b
                       && match more with
                          | c :: _ => letter c
                          | [] => false
                          end)))%bool
          | _ => false
          end)%bool
  | [] => false
  end.

(** The end-of-word lookahead [(?=ws|\Z)]. *)
Definition ends_word (rest : str) : bool :=
  match rest with
  | c :: _ => whitespace c
  | [] => true
  end.

(** The third alternative of [wordsep_re], after its lazy [nws+?] has
    taken the characters up to the head of [before]: how many more
    characters the match takes.  Each length is tried with the three
    endings in order before one more character is taken. *)
Fixpoint word_more (before rest : str) : nat :=
  if ends_hyphenated before rest then 1%nat
  else if ends_word rest then O
  else if (behind_word_punct before && ahead_dashes rest)%bool then O
  else match rest with
       | c :: rest' => S (word_more (c :: before) rest')
       | [] => O
       end.

(** Length of the match of [wordsep_re] at a position: whitespace run,
    em-dash between words, or word. *)
Definition match_len (before rest : str) : nat :=
  match rest with
  | [] => O
  | c :: rest' =>
      if whitespace c then span whitespace rest
      else if (behind_word_punct before && ahead_dashes rest)%bool
           then span (is_char hyphen) rest
      else S (word_more (c :: before) rest')
  end.

(** [wordsep_re.split(text)] without its empty strings: the pattern
    matches at every position, so the pieces are the successive
    matches. *)
Fixpoint split_from (fuel : nat) (before rest : str) : list str :=
  match fuel, rest with
  | S fuel', _ :: _ =>
      let n := match_len before rest in
      firstn n rest
        :: split_from fuel' (rev (firstn n rest) ++ before) (skipn n rest)
  | _, _ => []
  end.

(** [_split] *)
Definition split (text : str) : list str :=
  split_from (length text) [] text.

(** [_split_chunks] *)
Definition split_chunks (text : str) : list str :=
  split (munge_whitespace text).

(** The inner loop of [_wrap_chunks]: chunks are moved to the current
    line while they fit.  Returns the chunks taken, the line length
    reached and the chunks left. *)
Fixpoint fill_line (width cur_len : Z) (chunks : list str)
  : list str * Z * list str :=
  match chunks with
  | c :: rest =>
      if cur_len + len c <=? width then
        let '(taken, n, others) := fill_line width (cur_len + len c) rest in
        (c :: taken, n, others)
      else ([], cur_len, chunks)
  | [] => ([], cur_len, [])
  end.

(** Where [_handle_long_word] cuts the chunk: at [space_left], or just
    after the last hyphen before it when non-hyphens precede that
    hyphen. *)
Definition cut_point (chunk : str) (space_left : Z) : nat :=
  if len chunk >? space_left then
    match rfind hyphen (Z.to_nat space_left) chunk with
    | Some h =>
        if ((0 <? h)%nat
            && existsb (fun c => negb (is_char hyphen c)) (firstn h chunk))%bool
        then S h
        else Z.to_nat space_left
    | None => Z.to_nat space_left
    end
  else Z.to_nat space_left.

(** [_handle_long_word] with [break_long_words]: the head of the chunk
    that fills the line goes to the line, the rest stays on the stack. *)
Definition handle_long_word (chunks cur_line : list str) (cur_len width : Z)
  : list str * list str :=
  match chunks with
  | chunk :: rest =>
      let space_left := if width <? 1 then 1 else width - cur_len in
      let e := cut_point chunk space_left in
      (cur_line ++ [firstn e chunk], skipn e chunk :: rest)
  | [] => (cur_line, chunks)
  end.

(** [if cur_line and cur_line[-1].strip() == '': del cur_line[-1]] *)
Definition drop_last_blank (cur_line : list str) : list str :=
  match rev cur_line with
  | c :: r => if blank c then rev r else cur_line
  | [] => cur_line
  end.

(** [if chunks[-1].strip() == '' and lines: del chunks[-1]] *)
Definition skip_blank (has_lines : bool) (chunks : list str) : list str :=
  match chunks with
  | c :: rest => if (blank c && has_lines)%bool then rest else chunks
  | [] => chunks
  end.

(** One pass of the outer loop of [_wrap_chunks] on a non-empty stack:
    the chunks of the line (after the blank one at its end is dropped)
    and the stack left.  [has_lines] says whether [lines] is non-empty. *)
Definition next_line (width : Z) (has_lines : bool) (chunks : list str)
  : list str * list str :=
  let chunks1 := skip_blank has_lines chunks in
  let '(cur_line, cur_len, chunks2) := fill_line width 0 chunks1 in
  let '(cur_line', chunks3) :=
    match chunks2 with
    | c :: _ =>
        if len c >? width
        then handle_long_word chunks2 cur_line cur_len width
        else (cur_line, chunks2)
    | [] => (cur_line, chunks2)
    end in
  (drop_last_blank cur_line', chunks3).

(** The outer loop of [_wrap_chunks]; the stack of chunks has its top
    first. *)
Fixpoint wrap_loop (fuel : nat) (width : Z) (has_lines : bool)
  (chunks : list str) : list str :=
  match fuel, chunks with
  | S fuel', _ :: _ =>
      let '(cur_line, chunks') := next_line width has_lines chunks in
      match cur_line with
      | [] => wrap_loop fuel' width has_lines chunks'
      | _ :: _ => concat cur_line :: wrap_loop fuel' width true chunks'
      end
  | _, _ => []
  end.

(** Every pass of the outer loop takes a chunk off the stack or
    shortens its top: this many passes empty it. *)
Definition passes (chunks : list str) : nat :=
  fold_right (fun c n => S (length c + n)) O chunks.

(** [_wrap_chunks] *)
Definition wrap_chunks (width : Z) (chunks : list str) : result (list str) :=
  if width <=? 0 then Raise ValueError
  else Ok (wrap_loop (passes chunks) width false chunks).

(** [textwrap.wrap(text, width)] *)
Definition wrap (text : str) (width : Z) : result (list str) :=
  wrap_chunks width (split_chunks text).

(** Chunk lists the outer loop handles by moving whole chunks only: no
    chunk longer than the width, no two blank chunks in a row, and a
    first chunk that is not blank. *)
Definition fits (width : Z) (chunks : list str) : bool :=
  forallb (fun c => len c <=? width) chunks.

Fixpoint no_blank_pair (chunks : list str) : bool :=
  match chunks with
  | a :: rest =>
      (match rest with
       | b :: _ => negb (blank a && blank b)
       | [] => true
       end && no_blank_pair rest)%bool
  | [] => true
  end.

Definition starts_with_word (chunks : list str) : bool :=
  match chunks with
  | c :: _ => negb (blank c)
  | [] => true
  end.

Definition plain (width : Z) (para : str) : bool :=
  let chunks := split_chunks para in
  (fits width chunks && no_blank_pair chunks && starts_with_word chunks)%bool.

(** Text whose only characters that [strip] removes are those of
    [_whitespace]: none of the code points 28 to 31, 133 and 160. *)
Definition ordinary (s : str) : bool :=
  forallb (fun c => (whitespace c || negb (isspace c))%bool) s.

End Textwrap.

(** ** [draw_wrapped] *)

(** One call of [draw.text((x, y), line, font=font, fill=color)]. *)
Record text_call : Type := TextCall {
  at_x : Z;
  at_y : Z;
  content : str;
  with_font : font;
  fill : color
}.

(** The drawing surface, as the calls of [draw.text] made on it, oldest
    first. *)
Definition surface : Type := list text_call.

Module Draw.
Import Layout.

(** [y += int(font.size * (1.0 + line_spacing))] *)
Definition advance (f : font) (line_spacing : float) (y : Z) : result Z :=
  h <- line_height f line_spacing ;;
  Ok (y + h).

(** [for line in textwrap.wrap(para, width=cols): draw.text(...); y += ...] *)
Fixpoint draw_lines (x : Z) (f : font) (c : color) (line_spacing : float)
  (lines : list str) (d : surface) (y : Z) : result (surface * Z) :=
  match lines with
  | [] => Ok (d, y)
  | line :: more =>
      let d' := d ++ [TextCall x y line f c] in
      y' <- advance f line_spacing y ;;
      draw_lines x f c line_spacing more d' y'
  end.

(** [for para in text.split(newline): ...] *)
Fixpoint draw_paras (x : Z) (f : font) (c : color) (line_spacing : float)
  (width : Z) (paras : list str) (d : surface) (y : Z)
  : result (surface * Z) :=
  match paras with
  | [] => Ok (d, y)
  | para :: more =>
      if PyStr.blank para then
        y' <- advance f line_spacing y ;;
        draw_paras x f c line_spacing width more d y'
      else
        lines <- Textwrap.wrap para width ;;
        st <- draw_lines x f c line_spacing lines d y ;;
        draw_paras x f c line_spacing width more (fst st) (snd st)
  end.

(** [draw_wrapped(draw, pos, text, font, color, max_width_px, line_spacing)]:
    the surface after the call and the returned [y]. *)
Definition draw_wrapped (d : surface) (pos : Z * Z) (text : str) (f : font)
  (c : color) (max_width_px : Z) (line_spacing : float)
  : result (surface * Z) :=
  let (x, y) := pos in
  width <- cols f max_width_px ;;
  draw_paras x f c line_spacing width (PyStr.split PyStr.newline text) d y.

End Draw.

(** ** The noise step of [make_parchment] *)

Module Parchment.

(** Arithmetic of numpy's [int16]: results wrap around. *)
Definition wrap_int16 (n : Z) : Z := (n + 32768) mod 65536 - 32768.

(** [np.clip(a, lo, hi)] is [minimum(maximum(a, lo), hi)]. *)
Definition clip (n lo hi : Z) : Z := Z.min (Z.max n lo) hi.

(** [.astype(np.uint8)] keeps the low eight bits. *)
Definition to_uint8 (n : Z) : Z := n mod 256.

(** One channel of [np.clip(arr + noise, 0, 255).astype(np.uint8)],
    where [arr] and [noise] are [int16] arrays. *)
Definition add_noise (b p : Z) : Z :=
  to_uint8 (clip (wrap_int16 (b + p)) 0 255).

(** The flat base colour of [Image.new("RGB", size, (238, 227, 203))]. *)
Definition base_color : list Z := [238; 227; 203].

(** [np.array(base)] in row-major order: [pixels] pixels of three
    channels each. *)
Fixpoint base_array (pixels : nat) : list Z :=
  match pixels with
  | O => []
  | S n => base_color ++ base_array n
  end.

Fixpoint add_arrays (arr noise : list Z) : list Z :=
  match arr, noise with
  | b :: arr', p :: noise' => add_noise b p :: add_arrays arr' noise'
  | _, _ => []
  end.

Section Generator.

(** numpy's random generator is taken as given: the state of a
    [Generator], the state [default_rng(seed)] starts from, and
    [integers(low, high, size, dtype=int16)] as the values drawn
    together with the state left behind. *)
Variable bitgen : Type.
Variable seeded : Z -> bitgen.
Variable integers : Z -> Z -> nat -> bitgen -> list Z * bitgen.

(** The generator objects alive in the interpreter; an object is
    named by its position. *)
Definition heap : Type := list bitgen.

(** [np.random.default_rng(seed)] makes a new object. *)
Definition default_rng (seed : Z) (h : heap) : nat * heap :=
  (length h, h ++ [seeded seed]).

Fixpoint store (r : nat) (g : bitgen) (h : heap) : heap :=
  match h, r with
  | [], _ => []
  | _ :: h', O => g :: h'
  | g0 :: h', S r' => g0 :: store r' g h'
  end.

(** [rng.integers(low, high, size, dtype=np.int16)] draws from the
    object and leaves it advanced. *)
Definition rng_integers (r : nat) (low high : Z) (count : nat) (h : heap)
  : list Z * heap :=
  match nth_error h r with
  | Some g =>
      let (values, g') := integers low high count g in
      (values, store r g' h)
  | None => ([], h)
  end.

(** [noise = np.random.default_rng(seed).integers(low, high,
    size=(height, width, 3), dtype=np.int16)] *)
Definition noise_field (seed : Z) (width height : nat) (low high : Z)
  (h : heap) : list Z * heap :=
  let (r, h1) := default_rng seed h in
  rng_integers r low high (height * width * 3) h1.

(** The array handed to [Image.fromarray]: base colour plus noise,
    clipped. *)
Definition texture (seed : Z) (width height : nat) (low high : Z)
  (h : heap) : list Z * heap :=
  let (noise, h') := noise_field seed width height low high h in
  (add_arrays (base_array (height * width)) noise, h').

End Generator.

Arguments default_rng {bitgen} seeded seed h.
Arguments store {bitgen} r g h.
Arguments rng_integers {bitgen} integers r low high count h.
Arguments noise_field {bitgen} seeded integers seed width height low high h.
Arguments texture {bitgen} seeded integers seed width height low high h.

End Parchment.

(** ** The layout as rows

    What [draw_wrapped] lays out, top to bottom: a blank row for a blank
    paragraph, a line row for every line of a wrapped paragraph. *)

Inductive row : Type :=
| Blank
| Line (s : str).

Module Rows.

Definition of_para (width : Z) (para : str) : result (list row) :=
  if PyStr.blank para then Ok [Blank]
  else lines <- Textwrap.wrap para width ;; Ok (map Line lines).

Fixpoint of_paras (width : Z) (paras : list str) : result (list row) :=
  match paras with
  | [] => Ok []
  | para :: more =>
      r <- of_para width para ;;
      rs <- of_paras width more ;;
      Ok (r ++ rs)
  end.

Definition of_text (width : Z) (text : str) : result (list row) :=
  of_paras width (PyStr.split PyStr.newline text).

(** The [draw.text] calls for rows set from [y] downward, [h] apart. *)
Fixpoint place (x : Z) (f : font) (c : color) (h : Z) (rows : list row)
  (y : Z) : list text_call :=
  match rows with
  | [] => []
  | Blank :: more => place x f c h more (y + h)
  | Line s :: more => TextCall x y s f c :: place x f c h more (y + h)
  end.

Definition is_line (r : row) : bool :=
  match r with
  | Line _ => true
  | Blank => false
  end.

(** Number of wrapped lines among the rows. *)
Definition line_count (rows : list row) : nat :=
  length (filter is_line rows).

(** Texts whose paragraphs are blank or plain at a width. *)
Definition plain_text (width : Z) (text : str) : bool :=
  forallb (fun p => (PyStr.blank p || Textwrap.plain width p)%bool)
          (PyStr.split PyStr.newline text).

End Rows.

(** ** The wording of the specification *)

Module Spec.

(** The largest integer not above [x]. *)
Definition floor_of_float (x : float) : result Z :=
  match Prim2SF x with
  | S754_zero _ => Ok 0
  | S754_finite false m e => Ok (Py.trunc_pos m e)
  | S754_finite true m e =>
      Ok match e with
         | Zneg k => Z.shiftr (Zneg m) (Zpos k)
         | _ => Z.shiftl (Zneg m) e
         end
  | S754_infinity _ => Raise OverflowError
  | S754_nan => Raise ValueError
  end.

(** The integer nearest to [m * 2^e], a tie going to the even one. *)
Definition nearest_pos (m : positive) (e : Z) : Z :=
  match e with
  | Zneg k =>
      let q := Z.shiftr (Zpos m) (Zpos k) in
      let r := Zpos m - Z.shiftl q (Zpos k) in
      let half := Z.shiftl 1 (Zpos k - 1) in
      if (half <? r) || ((half =? r) && Z.odd q) then q + 1 else q
  | _ => Z.shiftl (Zpos m) e
  end.

Definition nearest_of_float (x : float) : result Z :=
  match Prim2SF x with
  | S754_zero _ => Ok 0
  | S754_finite s m e => Ok (if s then - nearest_pos m e else nearest_pos m e)
  | S754_infinity _ => Raise OverflowError
  | S754_nan => Raise ValueError
  end.

(** Step 1 as worded: the measured width of the alphabet over 52 is the
    average glyph width; the width budget over it, floored, then at
    least 20. *)
Definition cols (f : font) (max_width_px : Z) : result Z :=
  q <- Py.truediv max_width_px (getlength f Layout.alphabet / 52)%float ;;
  n <- floor_of_float q ;;
  Ok (Z.max n 20).

(** Step 1 with the average glyph width raised to one pixel. *)
Definition cols_avg_at_least_1 (f : font) (max_width_px : Z) : result Z :=
  q <- Py.truediv max_width_px
         (Py.max_1 (getlength f Layout.alphabet / 52)%float) ;;
  n <- floor_of_float q ;;
  Ok (Z.max n 20).

(** Step 4 as worded: font size times one plus the spacing ratio,
    rounded to the nearest integer. *)
Definition line_height (f : font) (line_spacing : float) : result Z :=
  p <- Py.mul_int_float (size f) (1 + line_spacing)%float ;;
  nearest_of_float p.

(** [clamp(v, lo, hi)]: saturation at the two bounds. *)
Definition clamp (v lo hi : Z) : Z :=
  if v <? lo then lo else if hi <? v then hi else v.

End Spec.

(** ** Sample inputs *)

Module Sample.

(** A font whose glyphs are all [glyph] pixels wide. *)
Definition monospace (glyph : float) (px : Z) : font :=
  Font (fun s => match Py.float_of_int (PyStr.len s) with
                 | Ok n => (n * glyph)%float
                 | Raise _ => infinity
                 end) px.

Definition ink : color := (25, 20, 15).

(** The float [0.2]. *)
Definition one_fifth : float := 0x1.999999999999ap-3.

(** The body font of the page: size 44, glyphs 26 pixels wide. *)
Definition body_font : font := monospace 26 44.

(** A font with glyphs half a pixel wide. *)
Definition narrow_font : font := monospace 0.5 30.

(** A font with glyphs one pixel wide, so that the column budget is the
    width budget. *)
Definition unit_font : font := monospace 1 10.

Definition letters (c : string) (n : nat) : str :=
  concat (repeat (lit c) n).

(** ["A\n\nB"] *)
Definition a_blank_b : str := lit "A" ++ [PyStr.newline; PyStr.newline] ++ lit "B".

(** One word of thirty letters. *)
Definition long_word : str := letters "a" 30.

(** ["a bbbbbbbbbbbbbbbbbbbbb c"]: the middle word has 21 letters. *)
Definition a_b21_c : str := lit "a " ++ letters "b" 21 ++ lit " c".

(** Ten spaces, then words of 11, 8 and 20 letters. *)
Definition indented : str :=
  letters " " 10 ++ letters "a" 11 ++ lit " " ++ letters "b" 8 ++ lit " "
  ++ letters "c" 20.

(** Twenty spaces, a no-break space (code point 160), a space and a
    letter: the no-break space is a chunk of its own that [strip] empties
    as well. *)
Definition no_break : str :=
  letters " " 20 ++ [PyStr.chr 160] ++ lit " a".

(** A toy generator for the noise step: the state is a counter, a draw
    is the counter reduced into the range. *)
Fixpoint count_up (low high : Z) (n : nat) (g : Z) : list Z * Z :=
  match n with
  | O => ([], g)
  | S n' =>
      let (vs, g') := count_up low high n' (g + 1) in
      ((low + g mod (high - low)) :: vs, g')
  end.

End Sample.

(** ** What is seen of a text *)

Module Glyphs.

(** The characters of a string that are not white space: those
    [str.isspace] rejects. *)
Definition visible (s : str) : str :=
  filter (fun c => negb (PyStr.isspace c)) s.

(** White space other than the space character: the characters
    [textwrap] rewrites before it wraps. *)
Definition only_spaces (s : str) : bool :=
  forallb (fun c => (negb (PyStr.isspace c) || PyStr.is_char PyStr.space c)%bool)
          s.

(** The string ends with a character that is not white space. *)
Definition ends_visible (s : str) : bool :=
  match rev s with
  | c :: _ => negb (PyStr.isspace c)
  | [] => false
  end.

End Glyphs.


(** ** [draw_text_block]

    The layout function of [generate_historisch_inspiriertes_dokument.py]:
    the wrapped lines are collected first, a blank paragraph as an empty
    line, and then drawn one by one. *)

Module Block.

(** The float [1.2]. *)
Definition six_fifths : float := 0x1.3333333333333p+0.

(** [int(font.size * 1.2) + line_spacing] *)
Definition step (f : font) (line_spacing : Z) : result Z :=
  p <- Py.mul_int_float (size f) six_fifths ;;
  n <- Py.int_of_float p ;;
  Ok (n + line_spacing).

(** The first loop: [wrapped.append("")] for a blank paragraph,
    [wrapped.extend(textwrap.wrap(para, width=wrap_cols))] otherwise. *)
Fixpoint collect (width : Z) (paras : list str) (wrapped : list str)
  : result (list str) :=
  match paras with
  | [] => Ok wrapped
  | para :: more =>
      if PyStr.blank para then collect width more (wrapped ++ [[]])
      else
        lines <- Textwrap.wrap para width ;;
        collect width more (wrapped ++ lines)
  end.

(** The second loop: [draw.text((x, y), line, ...)], then
    [y += int(font.size * 1.2) + line_spacing]. *)
Fixpoint draw_each (x : Z) (f : font) (c : color) (line_spacing : Z)
  (lines : list str) (d : surface) (y : Z) : result (surface * Z) :=
  match lines with
  | [] => Ok (d, y)
  | line :: more =>
      let d' := d ++ [TextCall x y line f c] in
      s <- step f line_spacing ;;
      draw_each x f c line_spacing more d' (y + s)
  end.

(** [draw_text_block(draw, xy, text, font, fill, max_width_px,
    line_spacing)]: the surface after the call and the returned [y]. *)
Definition draw_text_block (d : surface) (xy : Z * Z) (text : str) (f : font)
  (c : color) (max_width_px : Z) (line_spacing : Z) : result (surface * Z) :=
  let (x, y) := xy in
  wrap_cols <- Layout.cols f max_width_px ;;
  wrapped <- collect wrap_cols (PyStr.split PyStr.newline text) [] ;;
  draw_each x f c line_spacing wrapped d y.

(** The text of a row: a blank row is the empty string. *)
Definition row_text (r : row) : str :=
  match r with
  | Line s => s
  | Blank => []
  end.

(** Calls for the given strings, set from [y] downward, [s] apart. *)
Fixpoint lay (x : Z) (f : font) (c : color) (s : Z) (lines : list str)
  (y : Z) : list text_call :=
  match lines with
  | [] => []
  | line :: more => TextCall x y line f c :: lay x f c s more (y + s)
  end.

Definition is_empty (s : str) : bool :=
  match s with
  | [] => true
  | _ :: _ => false
  end.

End Block.

(** ** [load_font] *)

Module Fonts.

(** What [load_font] returns: [ImageFont.truetype(path, size=size)] or
    [ImageFont.load_default()]. *)
Inductive font_source : Type :=
| Truetype (path : string) (size : Z)
| Default.

(** The list [preferred] of [generate_altes_dokument.py],
    [generate_historisch_inspiriertes_dokument.py] and
    [generate_telegramm_zusammenfassung.py]. *)
Definition preferred : list (string * bool) :=
  [("/usr/share/fonts/truetype/dejavu/DejaVuSerif.ttf"%string, false);
   ("/usr/share/fonts/truetype/dejavu/DejaVuSerif-Bold.ttf"%string, true);
   ("/usr/share/fonts/truetype/liberation/LiberationSerif-Regular.ttf"%string,
    false);
   ("/usr/share/fonts/truetype/liberation/LiberationSerif-Bold.ttf"%string,
    true)].

(** The list [preferred] of [generate_altes_dokument_template.py]. *)
Definition preferred_template : list (string * bool) :=
  [("/usr/share/fonts/truetype/dejavu/DejaVuSerif.ttf"%string, false);
   ("/usr/share/fonts/truetype/dejavu/DejaVuSerif-Bold.ttf"%string, true)].

(** The loop [for p, is_bold in preferred: if os.path.exists(p) and
    (is_bold == bold): path = p; break], from [path = None];
    [path_exists] is [os.path.exists] on the file system at hand. *)
Fixpoint first_match (path_exists : string -> bool) (bold : bool)
  (candidates : list (string * bool)) : option string :=
  match candidates with
  | [] => None
  | (p, is_bold) :: more =>
      if (path_exists p && Bool.eqb is_bold bold)%bool then Some p
      else first_match path_exists bold more
  end.

(** [if path: return ImageFont.truetype(path, size=size)], else
    [ImageFont.load_default()]. *)
Definition open_path (path : option string) (size : Z) : font_source :=
  match path with
  | Some EmptyString => Default
  | Some p => Truetype p size
  | None => Default
  end.

(** [load_font(size, bold)] *)
Definition load_font (path_exists : string -> bool) (size : Z) (bold : bool)
  : font_source :=
  open_path (first_match path_exists bold preferred) size.

(** [load_font(size, bold)] of [generate_altes_dokument_template.py] *)
Definition load_font_template (path_exists : string -> bool) (size : Z)
  (bold : bool) : font_source :=
  open_path (first_match path_exists bold preferred_template) size.

End Fonts.

(** ** [draw_guides] and the page geometry of [make_parchment] *)

Definition rgba : Type := (Z * Z * Z * Z)%type.

(** The calls made on an [ImageDraw]: [rectangle], [line], [ellipse]
    and [text]. *)
Inductive shape : Type :=
| Rectangle (x0 y0 x1 y1 : Z) (outline : rgba) (width : Z)
| Rule (x0 y0 x1 y1 : Z) (fill : rgba) (width : Z)
| Ellipse (x0 y0 x1 y1 : Z) (fill : rgba)
| Label (x y : Z) (text : str) (f : font) (fill : rgba).

Module Page.

(** The float constants of the page geometry. *)
Definition c_0_12 : float := 0x1.eb851eb851eb8p-4.
Definition c_0_88 : float := 0x1.c28f5c28f5c29p-1.
Definition c_0_9 : float := 0x1.ccccccccccccdp-1.
Definition c_0_04 : float := 0x1.47ae147ae147bp-5.
Definition c_0_05 : float := 0x1.999999999999ap-5.
Definition c_0_08 : float := 0x1.47ae147ae147bp-4.
Definition c_0_025 : float := 0x1.999999999999ap-6.

(** [int(n * r)] for an [int] [n] and a float [r]. *)
Definition part (n : Z) (r : float) : result Z :=
  p <- Py.mul_int_float n r ;;
  Py.int_of_float p.

(** The loop [while y < limit: d.line([(left + 12, y), (right - 12, y)],
    fill=(60, 50, 40, 36), width=1); y += 56] of [draw_guides]; a pass
    uses one unit of [fuel]. *)
Fixpoint rules (fuel : nat) (left right limit y : Z) : list shape :=
  match fuel with
  | O => []
  | S fuel' =>
      if y <? limit then
        Rule (left + 12) y (right - 12) y (60, 50, 40, 36) 1
          :: rules fuel' left right limit (y + 56)
      else []
  end.

(** [y] grows by 56 in every pass: this many passes reach [limit]. *)
Definition rules_fuel (limit y : Z) : nat := Z.to_nat (limit - y).

(** [draw_guides(img)] for an image of size [(W, H)]: the calls made on
    the [ImageDraw], in order.  [font_big] and [font_small] are the fonts
    [load_font(72, bold=True)] and [load_font(36)] give. *)
Definition draw_guides (W H : Z) (font_big font_small : font)
  : result (list shape) :=
  left <- part W c_0_12 ;;
  right <- part W c_0_88 ;;
  top <- part H c_0_12 ;;
  bottom <- part H c_0_9 ;;
  off <- part H c_0_04 ;;
  foot <- part H c_0_05 ;;
  let lines := rules (rules_fuel (bottom - foot) (top + off)) left right
                     (bottom - foot) (top + off) in
  let tw := getlength font_big (lit "Titel") in
  half <- Py.mul_int_float W 0.5 ;;
  tx <- Py.int_of_float (half - tw / 2)%float ;;
  ty <- part H c_0_08 ;;
  Ok ([Rectangle left top right bottom (60, 50, 40, 64) 3]
      ++ lines
      ++ [Label tx ty (lit "Titel") font_big (50, 45, 40, 90);
          Label (left + 8) (top - 40) (lit "Ort:") font_small (50, 45, 40, 90);
          Label (right - 220) (top - 40) (lit "Datum:") font_small
            (50, 45, 40, 90)]).

(** The [y] of a rule; other shapes have none. *)
Definition rule_y (s : shape) : option Z :=
  match s with
  | Rule _ y _ _ _ _ => Some y
  | _ => None
  end.

Definition is_rule (s : shape) : bool :=
  match s with
  | Rule _ _ _ _ _ _ => true
  | _ => false
  end.

(** [margin = int(min(width, height) * 0.025)] of [make_parchment]. *)
Definition margin (width height : Z) : result Z :=
  part (Z.min width height) c_0_025.

(** The rectangle of the vignette,
    [[margin, margin, width - margin, height - margin]]. *)
Definition vignette_box (width height : Z) : result (Z * Z * Z * Z) :=
  m <- margin width height ;;
  Ok (m, m, width - m, height - m).

(** The two fold lines of [make_parchment] in
    [generate_altes_dokument.py], at a third and at two thirds of the
    height. *)
Definition folds (width height : Z) : result (list shape) :=
  m <- margin width height ;;
  Ok [Rule m (height / 3) (width - m) (height / 3) (50, 40, 30, 16) 2;
      Rule m (2 * height / 3) (width - m) (2 * height / 3) (50, 40, 30, 12) 2].





End Page.

(** ** Calls moved on the page *)

Module Calls.

Definition shift (dx dy : Z) (t : text_call) : text_call :=
  TextCall (at_x t + dx) (at_y t + dy) (content t) (with_font t) (fill t).

End Calls.

(** ** More sample inputs *)

Module Specimen.

(** A font that measures every string as 52 pixels wide: the average
    glyph width is one pixel.  Its size is 10. *)
Definition flat_font : font := Font (fun _ => 52%float) 10.

(** A font whose measure is not a number. *)
Definition nan_font : font := Font (fun _ => nan) 10.

(** ["ab  cd\n e"] *)
Definition two_paragraphs : str :=
  lit "ab  cd" ++ [PyStr.newline] ++ lit " e".

(** ["ab cd"] *)
Definition two_words : str := lit "ab cd".

End Specimen.

(** ** Notions used in the proofs *)

(** Sign of a float, when it has one. *)
Inductive signed (s : bool) : spec_float -> Prop :=
| signed_nan : signed s S754_nan
| signed_zero : signed s (S754_zero s)
| signed_inf : signed s (S754_infinity s)
| signed_fin m e : signed s (S754_finite s m e).

(** ** Real values of floats, rounding to nearest *)

Module Rounding.
Local Open Scope R_scope.

(** [2^e] *)
Definition bpow (e : Z) : R := powerRZ 2 e.

(** The real number [m * 2^e] that a mantissa and an exponent stand for. *)
Definition F2R (m e : Z) : R := IZR m * bpow e.

(** [x] lies in the interval of [m] at exponent [e], at the place [l]. *)
Definition inb (m e : Z) (l : location) (x : R) : Prop :=
  match l with
  | loc_Exact => x = F2R m e
  | loc_Inexact Lt => F2R m e < x < (IZR m + / 2) * bpow e
  | loc_Inexact Eq => x = (IZR m + / 2) * bpow e
  | loc_Inexact Gt => (IZR m + / 2) * bpow e < x < (IZR m + 1) * bpow e
  end.

(** The same for a mantissa with its round and sticky bits. *)
Definition rep (mrs : shr_record) (e : Z) (x : R) : Prop :=
  (0 <= shr_m mrs)%Z /\ inb (shr_m mrs) e (loc_of_shr_record mrs) x.

(** The exponent of a binary64 float of the given magnitude. *)
Abbreviation fexp64 := (SpecFloat.fexp prec emax).

(** [e] is the exponent of the floats around [x]. *)
Definition grid (e : Z) (x : R) : Prop :=
  ((e = -1074)%Z /\ x < bpow (-1021))
  \/ ((-1074 < e)%Z /\ bpow (e + 52) <= x < bpow (e + 53)).

(** [k] at exponent [e] is nearest to [x], a tie going to the even one. *)
Definition NE (e : Z) (x : R) (k : Z) : Prop :=
  (0 <= k)%Z
  /\ (IZR k - / 2) * bpow e <= x <= (IZR k + / 2) * bpow e
  /\ (x = (IZR k - / 2) * bpow e \/ x = (IZR k + / 2) * bpow e ->
      Z.even k = true).

(** [v] is [x] rounded to the nearest float, ties to even. *)
Definition Rnd (x v : R) : Prop :=
  exists e k, grid e x /\ NE e x k /\ v = F2R k e.

End Rounding.

Module Wrapping.
Import PyStr Textwrap.

(** The shapes of one pass of the outer loop. *)
Inductive pass (width : Z) (has_lines : bool) (chunks : list str)
  (line chunks' : list str) : Prop :=
| pass_short pre taken cur_len :
    chunks = pre ++ taken ++ chunks' ->
    (pre = [] \/ has_lines = true /\ exists c, pre = [c] /\ blank c = true) ->
    fill_line width 0 (taken ++ chunks') = (taken, cur_len, chunks') ->
    match chunks' with
    | c :: _ => len c <= width
    | [] => True
    end ->
    line = drop_last_blank taken ->
    pass width has_lines chunks line chunks'
| pass_long pre taken cur_len c rest e :
    chunks = pre ++ taken ++ c :: rest ->
    (pre = [] \/ has_lines = true /\ exists c, pre = [c] /\ blank c = true) ->
    fill_line width 0 (taken ++ c :: rest) = (taken, cur_len, c :: rest) ->
    width < len c ->
    e = cut_point c (if width <? 1 then 1 else width - cur_len) ->
    line = drop_last_blank (taken ++ [firstn e c]) ->
    chunks' = skipn e c :: rest ->
    pass width has_lines chunks line chunks'.

(** [s'] is what is left of the stack [s] after some chunks were taken. *)
Definition suffix (s' s : list str) : Prop := exists p, s = p ++ s'.

(** The stack the inner loop leaves. *)
Definition rest_of (width n : Z) (chunks : list str) : list str :=
  snd (fill_line width n chunks).

(** Number of lines the outer loop gives once a line has been emitted. *)
Definition count (width : Z) (chunks : list str) : nat :=
  length (wrap_loop (passes chunks) width true chunks).

(** The stack holds a character that [strip] keeps. *)
Definition has_word (chunks : list str) : Prop :=
  exists c, In c (concat chunks) /\ isspace c = false.

End Wrapping.

(** * Proofs *)

(** ** Signs of float results *)

Lemma binary_round_aux_signed sx mx ex lx :
  signed sx (binary_round_aux prec emax sx mx ex lx).
Proof.
  unfold binary_round_aux.
  destruct (shr_fexp prec emax mx ex lx) as [mrs' e'].
  destruct (shr_fexp prec emax _ e' loc_Exact) as [mrs'' e''].
  destruct (shr_m mrs''); [constructor | | constructor].
  destruct (e'' <=? emax - prec); constructor.
Qed.

Lemma binary_round_signed sx mx ex :
  signed sx (binary_round prec emax sx mx ex).
Proof.
  unfold binary_round.
  destruct (shl_align mx ex _) as [mz ez].
  apply binary_round_aux_signed.
Qed.

Lemma binary_normalize_signed n :
  signed (n <? 0) (binary_normalize prec emax n 0 false).
Proof.
  destruct n as [|p|p]; simpl; [constructor | apply binary_round_signed ..].
Qed.

Lemma SFldexp_signed s x e :
  signed s x -> signed s (SFldexp prec emax x e).
Proof.
  intros [| | |m ex]; simpl; try constructor.
  apply binary_round_signed.
Qed.

Lemma SFopp_signed s x : signed s x -> signed (negb s) (SFopp x).
Proof. intros [| | |m ex]; simpl; constructor. Qed.

Lemma SFdiv_signed sx sy x y :
  signed sx x -> signed sy y -> signed (xorb sx sy) (SFdiv prec emax x y).
Proof.
  intros [| | |mx ex] [| | |my ey]; simpl; try constructor.
  destruct (SFdiv_core_binary prec emax (Z.pos mx) ex (Z.pos my) ey) as [[mz ez] lz].
  apply binary_round_aux_signed.
Qed.

Lemma of_uint63_signed u : signed false (Prim2SF (of_uint63 u)).
Proof.
  rewrite of_uint63_spec.
  pose proof (Uint63.to_Z_bounded u) as Hb.
  pose proof (binary_normalize_signed (Uint63.to_Z u)) as H.
  replace (Uint63.to_Z u <? 0) with false in H by (symmetry; apply Z.ltb_ge; lia).
  exact H.
Qed.

Lemma SF2Prim_signed s x : signed s x -> signed s (Prim2SF (SF2Prim x)).
Proof.
  intros [| | |m e].
  - vm_compute. constructor.
  - destruct s; vm_compute; constructor.
  - destruct s; vm_compute; constructor.
  - unfold SF2Prim.
    assert (H : forall u, signed false (Prim2SF (Z.ldexp (of_uint63 u) e))).
    { intros u. unfold Z.ldexp. rewrite ldshiftexp_spec.
      apply SFldexp_signed, of_uint63_signed. }
    destruct s; [rewrite opp_spec; apply (SFopp_signed _ _ (H _)) | apply H].
Qed.

Lemma float_of_int_signed n x :
  Py.float_of_int n = Ok x -> signed (n <? 0) (Prim2SF x).
Proof.
  unfold Py.float_of_int. intros H.
  pose proof (binary_normalize_signed n) as Hs.
  destruct (binary_normalize prec emax n 0 false); try discriminate H;
    injection H as <-; exact (SF2Prim_signed _ _ Hs).
Qed.

Lemma max_1_signed x : signed false (Prim2SF (Py.max_1 x)).
Proof.
  unfold Py.max_1.
  destruct (x <? 1)%float eqn:Hlt.
  - vm_compute. constructor.
  - rewrite ltb_spec in Hlt.
    change (Prim2SF 1) with (S754_finite false 4503599627370496 (-52)) in Hlt.
    destruct (Prim2SF x) as [s|s| |s m e]; try constructor;
      destruct s; try constructor; discriminate Hlt.
Qed.

Lemma max_1_nonzero x : (Py.max_1 x =? 0)%float = false.
Proof.
  unfold Py.max_1.
  destruct (x <? 1)%float eqn:Hlt; [reflexivity|].
  rewrite ltb_spec in Hlt. rewrite eqb_spec.
  change (Prim2SF 1) with (S754_finite false 4503599627370496 (-52)) in Hlt.
  change (Prim2SF 0) with (S754_zero false).
  destruct (Prim2SF x) as [s|s| |s m e]; try reflexivity;
    destruct s; try reflexivity; discriminate Hlt.
Qed.

Lemma truediv_signed n d q s :
  signed s (Prim2SF d) -> Py.truediv n d = Ok q ->
  signed (xorb (n <? 0) s) (Prim2SF q).
Proof.
  unfold Py.truediv, bind. intros Hd H.
  destruct (Py.float_of_int n) as [fn|] eqn:Hn; [|discriminate].
  destruct (d =? 0)%float; inversion H; subst.
  rewrite div_spec. apply SFdiv_signed; [apply float_of_int_signed; exact Hn | exact Hd].
Qed.

Lemma trunc_pos_nonneg m e : 0 <= Py.trunc_pos m e.
Proof.
  unfold Py.trunc_pos. destruct e; [apply Z.shiftl_nonneg .. | apply Z.shiftr_nonneg]; lia.
Qed.

(** [int(x)] is the integer part of [x]: its sign is that of [x] and its
    magnitude is the magnitude of [x] with the fraction dropped. *)
Lemma trunc_pos_spec m e :
  match e with
  | Zneg k =>
      Py.trunc_pos m e * 2 ^ Zpos k <= Zpos m
      < (Py.trunc_pos m e + 1) * 2 ^ Zpos k
  | _ => Py.trunc_pos m e = Zpos m * 2 ^ e
  end.
Proof.
  unfold Py.trunc_pos. destruct e as [|k|k].
  - rewrite Z.shiftl_0_r. simpl. lia.
  - apply Z.shiftl_mul_pow2. lia.
  - rewrite Z.shiftr_div_pow2 by lia.
    assert (Hp : 0 < 2 ^ Zpos k) by (apply Z.pow_pos_nonneg; lia).
    pose proof (Z.div_mod (Zpos m) (2 ^ Zpos k)) as Hd.
    pose proof (Z.mod_pos_bound (Zpos m) (2 ^ Zpos k) Hp) as Hm.
    nia.
Qed.

Lemma int_of_float_truncates x n :
  Py.int_of_float x = Ok n ->
  match Prim2SF x with
  | S754_zero _ => n = 0
  | S754_finite s m e =>
      n = (if s then - Z.abs n else Z.abs n)
      /\ match e with
         | Zneg k => Z.abs n * 2 ^ Zpos k <= Zpos m < (Z.abs n + 1) * 2 ^ Zpos k
         | _ => Z.abs n = Zpos m * 2 ^ e
         end
  | _ => False
  end.
Proof.
  unfold Py.int_of_float.
  destruct (Prim2SF x) as [s|s| |s m e]; intros H; inversion H; subst;
    [reflexivity|].
  pose proof (trunc_pos_nonneg m e) as Hn.
  pose proof (trunc_pos_spec m e) as Hs.
  assert (Ha : Z.abs (if s then - Py.trunc_pos m e else Py.trunc_pos m e)
               = Py.trunc_pos m e) by (destruct s; lia).
  rewrite Ha. split; [destruct s; reflexivity | exact Hs].
Qed.

Lemma floor_is_int x :
  signed false (Prim2SF x) -> Spec.floor_of_float x = Py.int_of_float x.
Proof.
  unfold Spec.floor_of_float, Py.int_of_float.
  intros H. inversion H; reflexivity.
Qed.

Lemma int_of_signed_true x n :
  signed true (Prim2SF x) -> Py.int_of_float x = Ok n -> n <= 0.
Proof.
  unfold Py.int_of_float. intros H.
  inversion H as [Hx|Hx|Hx|m e Hx]; intros E; inversion E; subst; try lia.
  pose proof (trunc_pos_nonneg m e). lia.
Qed.

Lemma int_of_signed_false x n :
  signed false (Prim2SF x) -> Py.int_of_float x = Ok n -> 0 <= n.
Proof.
  unfold Py.int_of_float. intros H.
  inversion H as [Hx|Hx|Hx|m e Hx]; intros E; inversion E; subst; try lia.
  apply trunc_pos_nonneg.
Qed.

(** ** The column budget *)

Lemma float_of_int_raise n e : Py.float_of_int n = Raise e -> e = OverflowError.
Proof.
  unfold Py.float_of_int.
  destruct (binary_normalize prec emax n 0 false); intros H; inversion H.
  reflexivity.
Qed.

Lemma int_of_float_raise x e :
  Py.int_of_float x = Raise e -> e = OverflowError \/ e = ValueError.
Proof.
  unfold Py.int_of_float.
  destruct (Prim2SF x); intros H; inversion H; auto.
Qed.

Lemma int_of_zero_div d n :
  Py.int_of_float (0 / d) = Ok n -> n = 0.
Proof.
  unfold Py.int_of_float. rewrite div_spec.
  change (Prim2SF 0) with (S754_zero false).
  destruct (Prim2SF d) as [s|s| |s m e]; simpl; intros H; inversion H;
    reflexivity.
Qed.

Lemma max_1_id x : (1 <=? x)%float = true -> Py.max_1 x = x.
Proof.
  intros H. unfold Py.max_1.
  destruct (x <? 1)%float eqn:E; [|reflexivity].
  exfalso. rewrite leb_spec in H. rewrite ltb_spec in E.
  destruct (Prim2SF 1) as [s1|s1| |s1 m1 e1] eqn:P1; try discriminate P1.
  assert (s1 = false) by (vm_compute in P1; congruence). subst s1. clear P1.
  unfold SFleb in H. unfold SFltb in E.
  destruct (Prim2SF x) as [s|s| |s m e]; try discriminate E;
    destruct s; try discriminate E; try discriminate H.
  cbn [SFcompare] in H, E.
  rewrite Z.compare_antisym in E.
  destruct (e1 ?= e); cbn [CompOpp] in E; try discriminate E; try discriminate H.
  assert (A : Pos.compare_cont Eq m1 m = CompOpp (Pos.compare_cont Eq m m1))
    by (symmetry; apply (Pos.compare_cont_antisym m m1 Eq)).
  rewrite A in H.
  destruct (Pos.compare_cont Eq m m1); discriminate.
Qed.

(** The column budget of the code, with flooring for truncation. *)
Lemma cols_floor f w :
  0 < w -> Layout.cols f w = Spec.cols_avg_at_least_1 f w.
Proof.
  intros Hw. unfold Layout.cols, Spec.cols_avg_at_least_1, Layout.avg.
  destruct (Py.truediv w (Py.max_1 (getlength f Layout.alphabet / 52)))
    as [q|e] eqn:Hq; [|reflexivity].
  cbn [bind]. rewrite floor_is_int; [reflexivity|].
  pose proof (truediv_signed w _ q false (max_1_signed _) Hq) as Hs.
  replace (w <? 0) with false in Hs by (symmetry; apply Z.ltb_ge; lia).
  exact Hs.
Qed.

Lemma cols_cases f w :
  match Layout.cols f w with
  | Ok width => 20 <= width /\ (w <= 0 -> width = 20)
  | Raise e => e = OverflowError \/ e = ValueError
  end.
Proof.
  unfold Layout.cols.
  destruct (Py.truediv w (Layout.avg f)) as [q|e] eqn:Hq.
  - cbn [bind].
    destruct (Py.int_of_float q) as [n|e] eqn:Hn;
      [|cbn [bind]; eapply int_of_float_raise; eauto].
    cbn [bind]. split; [lia|]. intros Hw.
    assert (n <= 0); [|lia].
    destruct (Z.eq_dec w 0) as [-> | Hne].
    + unfold Py.truediv in Hq. change (Py.float_of_int 0) with (Ok 0%float) in Hq.
      cbn [bind] in Hq. unfold Layout.avg in Hq. rewrite max_1_nonzero in Hq.
      inversion Hq; subst. apply int_of_zero_div in Hn. lia.
    + pose proof (truediv_signed w _ q false (max_1_signed _) Hq) as Hs.
      replace (w <? 0) with true in Hs by (symmetry; apply Z.ltb_lt; lia).
      eapply int_of_signed_true; eauto.
  - cbn [bind]. unfold Py.truediv in Hq.
    destruct (Py.float_of_int w) as [fw|e0] eqn:Hf.
    + cbn [bind] in Hq. unfold Layout.avg in Hq. rewrite max_1_nonzero in Hq.
      discriminate.
    + cbn [bind] in Hq. inversion Hq; subst. left.
      eapply float_of_int_raise; eauto.
Qed.

Lemma cols_at_least_20 f w width : Layout.cols f w = Ok width -> 20 <= width.
Proof. intros H. pose proof (cols_cases f w) as C. rewrite H in C. apply C. Qed.

(** ** Rounding is monotone, and so is the column budget *)

Section RoundingFacts.
Import Rounding.
Local Open Scope R_scope.

Lemma bpow_pos e : 0 < bpow e.
Proof. unfold bpow. apply powerRZ_lt. lra. Qed.

Lemma bpow_add a b : bpow (a + b) = bpow a * bpow b.
Proof. unfold bpow. apply powerRZ_add. lra. Qed.

Lemma bpow_succ e : bpow (e + 1) = 2 * bpow e.
Proof. rewrite bpow_add. unfold bpow at 2. simpl. lra. Qed.

Lemma bpow_0 : bpow 0 = 1.
Proof. reflexivity. Qed.

Lemma bpow_ge_1 n : (0 <= n)%Z -> 1 <= bpow n.
Proof.
  intros H. unfold bpow. rewrite <- (Z2Nat.id n H), <- pow_powerRZ.
  apply pow_R1_Rle. lra.
Qed.

Lemma bpow_le a b : (a <= b)%Z -> bpow a <= bpow b.
Proof.
  intros H. replace b with (a + (b - a))%Z by lia. rewrite bpow_add.
  assert (H1 : 1 <= bpow (b - a)) by (apply bpow_ge_1; lia).
  pose proof (bpow_pos a). nra.
Qed.

Lemma bpow_lt a b : (a < b)%Z -> bpow a < bpow b.
Proof.
  intros H. replace b with (a + ((b - a - 1) + 1))%Z by lia.
  rewrite bpow_add, bpow_succ.
  assert (H1 : 1 <= bpow (b - a - 1)) by (apply bpow_ge_1; lia).
  pose proof (bpow_pos a). nra.
Qed.

Lemma bpow_IZR n : (0 <= n)%Z -> bpow n = IZR (2 ^ n).
Proof.
  intros H. unfold bpow. rewrite <- (Z2Nat.id n H) at 1.
  rewrite <- pow_powerRZ. rewrite pow_IZR. rewrite Z2Nat.id by exact H.
  reflexivity.
Qed.

Lemma IZR_xO p : IZR (Zpos p~0) = 2 * IZR (Zpos p).
Proof. rewrite Pos2Z.inj_xO, mult_IZR. reflexivity. Qed.

Lemma IZR_xI p : IZR (Zpos p~1) = 2 * IZR (Zpos p) + 1.
Proof. rewrite Pos2Z.inj_xI, plus_IZR, mult_IZR. reflexivity. Qed.

Lemma shr_1_rep mrs e x : rep mrs e x -> rep (shr_1 mrs) (e + 1) x.
Proof.
  destruct mrs as [m r s]. unfold rep. cbn [shr_m].
  intros [Hm H].
  pose proof (bpow_pos e) as Hb.
  destruct m as [|p|p]; [| |lia].
  - destruct r, s; cbn [shr_1 orb shr_m loc_of_shr_record inb] in *;
      unfold F2R in *; rewrite bpow_succ; (split; [lia|]); lra.
  - destruct p as [p|p|].
    + destruct r, s; cbn [shr_1 orb shr_m loc_of_shr_record inb] in *;
        unfold F2R in *; rewrite bpow_succ; rewrite (IZR_xI p) in H;
        (split; [lia|]); lra.
    + destruct r, s; cbn [shr_1 orb shr_m loc_of_shr_record inb] in *;
        unfold F2R in *; rewrite bpow_succ; rewrite (IZR_xO p) in H;
        (split; [lia|]); lra.
    + destruct r, s; cbn [shr_1 orb shr_m loc_of_shr_record inb] in *;
        unfold F2R in *; rewrite bpow_succ; (split; [lia|]); lra.
Qed.

Lemma iter_pos_rep x p :
  forall mrs e, rep mrs e x -> rep (SpecFloat.iter_pos shr_1 p mrs) (e + Zpos p) x.
Proof.
  induction p as [p IH|p IH|]; intros mrs e H; cbn [SpecFloat.iter_pos].
  - replace (e + Zpos p~1)%Z with (e + 1 + Zpos p + Zpos p)%Z by lia.
    apply IH, IH, shr_1_rep, H.
  - replace (e + Zpos p~0)%Z with (e + Zpos p + Zpos p)%Z by lia.
    apply IH, IH, H.
  - apply shr_1_rep, H.
Qed.

Lemma shr_rep x mrs e n :
  rep mrs e x ->
  rep (fst (shr mrs e n)) (snd (shr mrs e n)) x
  /\ snd (shr mrs e n) = (e + Z.max 0 n)%Z.
Proof.
  intros H. destruct n as [|p|p]; cbn [shr fst snd].
  - split; [exact H | lia].
  - split; [apply iter_pos_rep, H | lia].
  - split; [exact H | lia].
Qed.

Lemma loc_of_record m l : loc_of_shr_record (shr_record_of_loc m l) = l.
Proof. destruct l as [|[| |]]; reflexivity. Qed.

Lemma shr_m_of_loc m l : shr_m (shr_record_of_loc m l) = m.
Proof. destruct l as [|[| |]]; reflexivity. Qed.

Lemma shr_fexp_rep x m e l :
  (0 <= m)%Z -> inb m e l x -> (e <= fexp64 (Zdigits2 m + e))%Z ->
  rep (fst (shr_fexp prec emax m e l)) (snd (shr_fexp prec emax m e l)) x
  /\ snd (shr_fexp prec emax m e l) = fexp64 (Zdigits2 m + e).
Proof.
  intros Hm H He. unfold shr_fexp.
  assert (Hr : rep (shr_record_of_loc m l) e x).
  { unfold rep. rewrite shr_m_of_loc, loc_of_record. auto. }
  destruct (shr_rep x _ e (fexp64 (Zdigits2 m + e) - e) Hr) as [H1 H2].
  split; [exact H1|]. rewrite H2. lia.
Qed.

Lemma digits2_pos_bounds p :
  (2 ^ (Zpos (digits2_pos p) - 1) <= Zpos p < 2 ^ Zpos (digits2_pos p))%Z.
Proof.
  induction p as [p IH|p IH|]; cbn [digits2_pos].
  - rewrite Pos2Z.inj_succ, (Pos2Z.inj_xI p).
    replace (Z.succ (Zpos (digits2_pos p)) - 1)%Z
      with (Z.succ (Zpos (digits2_pos p) - 1)) by lia.
    rewrite !Z.pow_succ_r by lia.
    generalize dependent (2 ^ (Zpos (digits2_pos p) - 1))%Z.
    generalize (2 ^ Zpos (digits2_pos p))%Z. intros; lia.
  - rewrite Pos2Z.inj_succ, (Pos2Z.inj_xO p).
    replace (Z.succ (Zpos (digits2_pos p)) - 1)%Z
      with (Z.succ (Zpos (digits2_pos p) - 1)) by lia.
    rewrite !Z.pow_succ_r by lia.
    generalize dependent (2 ^ (Zpos (digits2_pos p) - 1))%Z.
    generalize (2 ^ Zpos (digits2_pos p))%Z. intros; lia.
  - simpl. lia.
Qed.

Lemma inb_bounds m e l x :
  inb m e l x -> F2R m e <= x < (IZR m + 1) * bpow e.
Proof.
  pose proof (bpow_pos e) as Hb. unfold F2R.
  destruct l as [|[| |]]; cbn [inb]; unfold F2R; intros H; lra.
Qed.

Lemma fexp64_eq d : fexp64 d = Z.max (d - 53) (-1074).
Proof. reflexivity. Qed.

Lemma grid_of_interval m e l x :
  (0 <= m)%Z -> inb m e l x -> (e <= fexp64 (Zdigits2 m + e))%Z ->
  grid (fexp64 (Zdigits2 m + e)) x.
Proof.
  intros Hm H He. apply inb_bounds in H. destruct H as [Hlo Hhi].
  rewrite fexp64_eq in *.
  destruct m as [|p|p]; [| |lia].
  - cbn [Zdigits2] in *. left.
    assert (e <= -1074)%Z by lia.
    split; [lia|].
    replace (IZR 0 + 1) with 1 in Hhi by lra.
    pose proof (bpow_le e (-1021) ltac:(lia)). lra.
  - cbn [Zdigits2] in *.
    pose proof (digits2_pos_bounds p) as [Hd1 Hd2].
    set (d := Zpos (digits2_pos p)) in *.
    assert (Hdpos : (1 <= d)%Z) by (subst d; lia).
    assert (Hx1 : bpow (d - 1 + e) <= x).
    { rewrite bpow_add, (bpow_IZR (d - 1)) by lia.
      apply IZR_le in Hd1. unfold F2R in Hlo. pose proof (bpow_pos e). nra. }
    assert (Hx2 : x < bpow (d + e)).
    { rewrite bpow_add, (bpow_IZR d) by lia.
      assert (Hd2' : (Zpos p + 1 <= 2 ^ d)%Z) by lia.
      apply IZR_le in Hd2'. rewrite plus_IZR in Hd2'.
      pose proof (bpow_pos e). nra. }
    destruct (Z_lt_le_dec (-1074) (d + e - 53)) as [Hn | Hs].
    + right. replace (Z.max (d + e - 53) (-1074)) with (d + e - 53)%Z by lia.
      split; [lia|].
      replace (d + e - 53 + 52)%Z with (d - 1 + e)%Z by lia.
      replace (d + e - 53 + 53)%Z with (d + e)%Z by lia. lra.
    + left. replace (Z.max (d + e - 53) (-1074)) with (-1074)%Z by lia.
      split; [reflexivity|].
      pose proof (bpow_le (d + e) (-1021) ltac:(lia)). lra.
Qed.

Lemma round_nearest_even_NE m e l x :
  (0 <= m)%Z -> inb m e l x ->
  NE e x (round_nearest_even m l)
  /\ (m <= round_nearest_even m l <= m + 1)%Z.
Proof.
  intros Hm H. pose proof (bpow_pos e) as Hb. unfold NE.
  destruct l as [|[| |]]; cbn [inb round_nearest_even] in *; unfold F2R in *.
  - split; [|lia]. split; [lia|]. split; [lra|]. intros [E | E]; lra.
  - destruct (Z.even m) eqn:Ev.
    + split; [|lia]. split; [lia|]. split; [lra|]. intros _. exact Ev.
    + split; [|lia]. split; [lia|]. rewrite plus_IZR. split; [lra|].
      intros _. rewrite Z.even_add, Ev. reflexivity.
  - split; [|lia]. split; [lia|]. split; [lra|]. intros [E | E]; lra.
  - split; [|lia]. split; [lia|]. rewrite plus_IZR. split; [lra|].
    intros [E | E]; lra.
Qed.

Lemma Rnd_nonneg x v : Rnd x v -> 0 <= v.
Proof.
  intros (e & k & _ & (Hk & _) & ->). unfold F2R.
  apply IZR_le in Hk. pose proof (bpow_pos e). nra.
Qed.

Lemma grid_upper e x : grid e x -> x < bpow (e + 53).
Proof.
  intros [[-> H] | [_ H]]; [exact H | apply H].
Qed.

(** Rounding to nearest is monotone. *)
Lemma Rnd_monotone x y vx vy :
  x <= y -> Rnd x vx -> Rnd y vy -> vx <= vy.
Proof.
  intros Hxy (ex & kx & Gx & (Hkx & Nx & Tx) & ->) (ey & ky & Gy & (Hky & Ny & Ty) & ->).
  unfold F2R.
  pose proof (bpow_pos ex) as Hbx. pose proof (bpow_pos ey) as Hby.
  destruct (Z.compare_spec ex ey) as [E | E | E].
  - subst ey.
    destruct (Z_le_gt_dec kx ky) as [Hk | Hk].
    + apply IZR_le in Hk. nra.
    + exfalso.
      assert (Hk' : (ky + 1 <= kx)%Z) by lia.
      apply IZR_le in Hk'. rewrite plus_IZR in Hk'.
      assert (E1 : IZR kx = IZR ky + 1) by nra.
      assert (E2 : x = (IZR kx - / 2) * bpow ex) by nra.
      assert (E3 : y = (IZR ky + / 2) * bpow ex) by nra.
      rewrite <- plus_IZR in E1. apply eq_IZR in E1.
      specialize (Tx (or_introl E2)). specialize (Ty (or_intror E3)).
      subst kx. rewrite Z.even_add in Tx. rewrite Ty in Tx. discriminate.
  - (* the floats around [x] are finer than those around [y] *)
    assert (Hy : (-1074 < ey)%Z /\ bpow (ey + 52) <= y).
    { destruct Gy as [[-> _] | [H1 [H2 _]]]; [|auto].
      destruct Gx as [[-> _] | [H1 _]]; lia. }
    destruct Hy as [Hey Hy].
    pose proof (grid_upper ex x Gx) as Hx.
    assert (Hg : bpow (ex + 53) <= bpow (ey + 52)) by (apply bpow_le; lia).
    rewrite (bpow_add ex 53) in Hx, Hg. rewrite (bpow_add ey 52) in Hy, Hg.
    rewrite (bpow_IZR 53) in Hx, Hg by lia.
    rewrite (bpow_IZR 52) in Hy, Hg by lia.
    change (2 ^ 53)%Z with 9007199254740992%Z in Hx, Hg.
    change (2 ^ 52)%Z with 4503599627370496%Z in Hy, Hg.
    assert (Hkx' : (kx <= 9007199254740992)%Z).
    { destruct (Z_le_gt_dec kx 9007199254740992) as [H | H]; [exact H|].
      exfalso. assert (H' : (9007199254740992 + 1 <= kx)%Z) by lia.
      apply IZR_le in H'. rewrite plus_IZR in H'. nra. }
    assert (Hky' : (4503599627370496 <= ky)%Z).
    { destruct (Z_le_gt_dec 4503599627370496 ky) as [H | H]; [exact H|].
      exfalso. assert (H' : (ky + 1 <= 4503599627370496)%Z) by lia.
      apply IZR_le in H'. rewrite plus_IZR in H'. nra. }
    apply IZR_le in Hkx', Hky'. nra.
  - exfalso.
    assert (Hx : bpow (ex + 52) <= x).
    { destruct Gx as [[-> _] | [_ [H _]]]; [|exact H].
      destruct Gy as [[-> _] | [H1 _]]; lia. }
    pose proof (grid_upper ey y Gy) as Hy.
    assert (Hg : bpow (ey + 53) <= bpow (ex + 52)) by (apply bpow_le; lia).
    lra.
Qed.

Lemma Zdigits2_le k n :
  (0 < k)%Z -> (0 <= n)%Z -> (k < 2 ^ n)%Z -> (Zdigits2 k <= n)%Z.
Proof.
  intros Hk Hn H. destruct k as [|p|p]; try lia. cbn [Zdigits2].
  pose proof (digits2_pos_bounds p) as [H1 _].
  destruct (Z_le_gt_dec (Zpos (digits2_pos p)) n) as [L | G]; [exact L|].
  exfalso.
  assert (2 ^ n <= 2 ^ (Zpos (digits2_pos p) - 1))%Z
    by (apply Z.pow_le_mono_r; lia).
  lia.
Qed.

Lemma Zdigits2_gt k n :
  (0 <= n)%Z -> (2 ^ n <= k)%Z -> (n < Zdigits2 k)%Z.
Proof.
  intros Hn H.
  assert (0 < 2 ^ n)%Z by (apply Z.pow_pos_nonneg; lia).
  destruct k as [|p|p]; try lia. cbn [Zdigits2].
  pose proof (digits2_pos_bounds p) as [_ H2].
  destruct (Z_lt_le_dec n (Zpos (digits2_pos p))) as [L | G]; [exact L|].
  exfalso.
  assert (2 ^ Zpos (digits2_pos p) <= 2 ^ n)%Z
    by (apply Z.pow_le_mono_r; lia).
  lia.
Qed.

Lemma F2R_0 e : F2R 0 e = 0.
Proof. unfold F2R. lra. Qed.

(** What [binary_round_aux] returns for a positive number given by its
    interval: the nearest float, as a valid float, or an infinity. *)
Lemma binary_round_aux_spec mx ex lx x :
  (0 <= mx)%Z -> inb mx ex lx x -> (ex <= fexp64 (Zdigits2 mx + ex))%Z ->
  exists v, Rnd x v /\
    match binary_round_aux prec emax false mx ex lx with
    | S754_zero false => v = 0
    | S754_finite false m e =>
        v = F2R (Zpos m) e /\ valid_binary (S754_finite false m e) = true
    | S754_infinity false => True
    | _ => False
    end.
Proof.
  intros Hm H He.
  pose proof (shr_fexp_rep x mx ex lx Hm H He) as [[Hm' Hrep] He'].
  pose proof (grid_of_interval mx ex lx x Hm H He) as Hg.
  unfold binary_round_aux.
  destruct (shr_fexp prec emax mx ex lx) as [mrs' e'].
  cbn [fst snd] in *. rewrite <- He' in Hg. clear He' He H Hm.
  pose proof (round_nearest_even_NE _ _ _ _ Hm' Hrep) as [Hne Hk].
  set (k := round_nearest_even (shr_m mrs') (loc_of_shr_record mrs')) in *.
  exists (F2R k e'). split; [exists e', k; auto|].
  (* bounds on the truncated mantissa *)
  apply inb_bounds in Hrep. destruct Hrep as [Hlo Hhi]. unfold F2R in Hlo.
  pose proof (bpow_pos e') as Hb.
  pose proof (grid_upper e' x Hg) as Hup.
  rewrite (bpow_add e' 53), (bpow_IZR 53) in Hup by lia.
  change (2 ^ 53)%Z with 9007199254740992%Z in Hup.
  assert (Hm53 : (shr_m mrs' < 9007199254740992)%Z).
  { destruct (Z_lt_le_dec (shr_m mrs') 9007199254740992) as [L | G]; [exact L|].
    exfalso. apply IZR_le in G. nra. }
  assert (Hnorm : (-1074 < e')%Z -> (4503599627370496 <= k)%Z).
  { intros Hn. destruct Hg as [[E _] | [_ [Hx _]]]; [lia|].
    rewrite (bpow_add e' 52), (bpow_IZR 52) in Hx by lia.
    change (2 ^ 52)%Z with 4503599627370496%Z in Hx.
    destruct (Z_le_gt_dec 4503599627370496 (shr_m mrs')) as [L | G]; [lia|].
    exfalso. assert (G' : (shr_m mrs' + 1 <= 4503599627370496)%Z) by lia.
    apply IZR_le in G'. rewrite plus_IZR in G'. nra. }
  assert (Hemin : (-1074 <= e')%Z) by (destruct Hg as [[E _] | [E _]]; lia).
  unfold shr_fexp.
  destruct (Z.eq_dec k 0) as [K0 | K0].
  - (* rounded to zero *)
    rewrite K0. cbn [Zdigits2].
    assert (E : e' = (-1074)%Z).
    { destruct (Z.eq_dec e' (-1074)) as [E | E]; [exact E|].
      specialize (Hnorm ltac:(lia)). lia. }
    subst e'. cbn. apply F2R_0.
  - destruct (Z.eq_dec k 9007199254740992) as [K53 | K53].
    + (* the mantissa has one bit too many *)
      rewrite K53.
      replace (fexp64 (Zdigits2 9007199254740992 + e') - e')%Z with 1%Z
        by (rewrite fexp64_eq; cbn [Zdigits2 digits2_pos Pos.succ]; lia).
      cbn [shr shr_record_of_loc SpecFloat.iter_pos shr_1 shr_m].
      match goal with |- context [Z.leb ?a ?b] => destruct (Z.leb a b) eqn:B end;
        [|exact I].
      split.
      * unfold F2R. rewrite bpow_succ. lra.
      * cbn [valid_binary]. unfold bounded.
        apply andb_true_intro. split; [|exact B].
        unfold canonical_mantissa. apply Z.eqb_eq.
        rewrite fexp64_eq. cbn [digits2_pos Pos.succ]. lia.
    + (* the mantissa fits *)
      assert (Hk53 : (0 < k < 9007199254740992)%Z) by lia.
      assert (Hd : (Zdigits2 k <= 53)%Z)
        by (apply Zdigits2_le; [lia | lia | change (2 ^ 53)%Z with 9007199254740992%Z; lia]).
      assert (Hd' : (-1074 < e')%Z -> (52 < Zdigits2 k)%Z).
      { intros Hn. apply Zdigits2_gt; [lia|].
        change (2 ^ 52)%Z with 4503599627370496%Z. auto. }
      assert (Hc : fexp64 (Zdigits2 k + e') = e').
      { rewrite fexp64_eq.
        destruct (Z.eq_dec e' (-1074)) as [E | E]; [lia|].
        specialize (Hd' ltac:(lia)). lia. }
      rewrite Hc, Z.sub_diag. cbn [shr].
      rewrite shr_m_of_loc.
      destruct k as [|p|p]; try lia.
      match goal with |- context [Z.leb ?a ?b] => destruct (Z.leb a b) eqn:B end;
        [|exact I].
      split; [reflexivity|].
      cbn [valid_binary]. unfold bounded.
      apply andb_true_intro. split; [|exact B].
      unfold canonical_mantissa. apply Z.eqb_eq. exact Hc.
Qed.

Lemma iter_xO_val m d : Zpos (Pos.iter xO m d) = (Zpos m * 2 ^ Zpos d)%Z.
Proof.
  induction d as [|d IH] using Pos.peano_ind.
  - cbn [Pos.iter]. rewrite (Pos2Z.inj_xO m). change (2 ^ 1)%Z with 2%Z. lia.
  - rewrite Pos.iter_succ, (Pos2Z.inj_xO (Pos.iter xO m d)), IH.
    rewrite Pos2Z.inj_succ, Z.pow_succ_r by lia. lia.
Qed.

Lemma iter_xO_digits m d :
  digits2_pos (Pos.iter xO m d) = (digits2_pos m + d)%positive.
Proof.
  induction d as [|d IH] using Pos.peano_ind.
  - cbn [Pos.iter digits2_pos]. lia.
  - rewrite Pos.iter_succ. cbn [digits2_pos]. rewrite IH. lia.
Qed.

Lemma shl_align_spec mx ex ex' :
  F2R (Zpos (fst (shl_align mx ex ex'))) (snd (shl_align mx ex ex'))
  = F2R (Zpos mx) ex
  /\ (Zpos (digits2_pos (fst (shl_align mx ex ex'))) + snd (shl_align mx ex ex')
      = Zpos (digits2_pos mx) + ex)%Z
  /\ (snd (shl_align mx ex ex') <= ex')%Z.
Proof.
  unfold shl_align. destruct (ex' - ex)%Z as [|d|d] eqn:E; cbn [fst snd].
  - repeat split; lia.
  - repeat split; lia.
  - assert (Ex : ex = (ex' + Zpos d)%Z) by lia.
    rewrite iter_xO_digits, iter_xO_val. repeat split; try lia.
    unfold F2R. rewrite mult_IZR, <- bpow_IZR by lia.
    rewrite Ex, bpow_add. ring.
Qed.

(** An integer turned into a float is rounded to nearest. *)
Lemma binary_normalize_spec p :
  exists v, Rnd (IZR (Zpos p)) v /\
    match binary_normalize prec emax (Zpos p) 0 false with
    | S754_zero false => v = 0
    | S754_finite false m e =>
        v = F2R (Zpos m) e /\ valid_binary (S754_finite false m e) = true
    | S754_infinity false => True
    | _ => False
    end.
Proof.
  cbn [binary_normalize]. unfold binary_round.
  pose proof (shl_align_spec p 0 (fexp64 (Zpos (digits2_pos p) + 0)))
    as (Hv & Hd & Hle).
  destruct (shl_align p 0 (fexp64 (Zpos (digits2_pos p) + 0))) as [mz ez].
  cbn [fst snd] in *.
  apply binary_round_aux_spec.
  - lia.
  - cbn [inb]. rewrite Hv. unfold F2R. rewrite bpow_0. ring.
  - cbn [Zdigits2]. rewrite Hd. exact Hle.
Qed.

Lemma new_location_spec m2 r q e :
  (0 < m2)%Z -> (0 <= r < m2)%Z ->
  inb q e (new_location m2 r) ((IZR q + IZR r / IZR m2) * bpow e).
Proof.
  intros Hm Hr.
  pose proof (bpow_pos e) as Hb.
  assert (HM : 0 < IZR m2) by (apply IZR_lt; exact Hm).
  assert (Ht : IZR r / IZR m2 * IZR m2 = IZR r) by (field; lra).
  assert (Hr0 : 0 <= IZR r) by (apply IZR_le; lia).
  assert (Hr1 : IZR r < IZR m2) by (apply IZR_lt; lia).
  set (t := IZR r / IZR m2) in *.
  assert (Ht0 : r <> 0%Z -> 0 < t < 1).
  { intros N. assert (0 < IZR r) by (apply IZR_lt; lia). split; nra. }
  assert (Lo : (2 * r < m2)%Z -> t < / 2).
  { intros L. apply IZR_lt in L. rewrite mult_IZR in L. nra. }
  assert (Hi : (m2 < 2 * r)%Z -> / 2 < t).
  { intros L. apply IZR_lt in L. rewrite mult_IZR in L. nra. }
  assert (Mi : (2 * r = m2)%Z -> t = / 2).
  { intros L. apply (f_equal IZR) in L. rewrite mult_IZR in L. nra. }
  unfold new_location.
  destruct (Z.even m2) eqn:Ev.
  - unfold new_location_even. destruct (Z.eqb_spec r 0) as [-> | N].
    + cbn [inb]. unfold F2R. subst t. unfold Rdiv. rewrite Rmult_0_l. ring.
    + specialize (Ht0 N).
      destruct (Z.compare_spec (2 * r) m2) as [E | L | G]; cbn [inb]; unfold F2R.
      * rewrite (Mi E). reflexivity.
      * specialize (Lo L). split; nra.
      * specialize (Hi G). split; nra.
  - unfold new_location_odd. destruct (Z.eqb_spec r 0) as [-> | N].
    + cbn [inb]. unfold F2R. subst t. unfold Rdiv. rewrite Rmult_0_l. ring.
    + specialize (Ht0 N).
      assert (Od : (2 * r <> m2)%Z).
      { intros E. rewrite <- E, Z.even_mul in Ev. discriminate Ev. }
      destruct (Z.compare_spec (2 * r + 1) m2) as [E | L | G]; cbn [inb]; unfold F2R.
      * assert (L : (2 * r < m2)%Z) by lia. specialize (Lo L). split; nra.
      * assert (L' : (2 * r < m2)%Z) by lia. specialize (Lo L'). split; nra.
      * assert (G' : (m2 < 2 * r)%Z) by lia. specialize (Hi G'). split; nra.
Qed.

(** The quotient of two positive floats, as [SFdiv_core_binary] hands it to
    the rounding. *)
Lemma div_core_spec m1 e1 m2 e2 :
  let '(q, e', l) := SFdiv_core_binary prec emax (Zpos m1) e1 (Zpos m2) e2 in
  (0 <= q)%Z
  /\ inb q e' l (F2R (Zpos m1) e1 / F2R (Zpos m2) e2)
  /\ (e' <= fexp64 (Zdigits2 q + e'))%Z.
Proof.
  unfold SFdiv_core_binary.
  set (D := (Zdigits2 (Zpos m1) + e1 - (Zdigits2 (Zpos m2) + e2))%Z).
  set (e' := Z.min (fexp64 D) (e1 - e2)).
  set (s := (e1 - e2 - e')%Z).
  assert (Hs : (0 <= s)%Z) by (unfold s, e'; lia).
  set (m' := match s with
             | 0%Z => Zpos m1
             | Zpos _ => Z.shiftl (Zpos m1) s
             | Zneg _ => 0%Z
             end).
  assert (Hm' : m' = (Zpos m1 * 2 ^ s)%Z).
  { unfold m'. destruct s as [|p|p] eqn:Es.
    - change (2 ^ 0)%Z with 1%Z. lia.
    - apply Z.shiftl_mul_pow2. lia.
    - lia. }
  clearbody m'.
  assert (P2 : (0 < 2 ^ s)%Z) by (apply Z.pow_pos_nonneg; lia).
  pose proof (Z_div_mod m' (Zpos m2) ltac:(lia)) as Hdiv.
  destruct (Z.div_eucl m' (Zpos m2)) as [q r]. destruct Hdiv as [Heq Hr].
  assert (Hq : (0 <= q)%Z) by nia.
  split; [exact Hq|]. split.
  - assert (Hx : F2R (Zpos m1) e1 / F2R (Zpos m2) e2
                 = (IZR q + IZR r / IZR (Zpos m2)) * bpow e').
    { unfold F2R.
      assert (E1 : e1 = (e2 + (e' + s))%Z) by (unfold s; lia).
      rewrite E1, !bpow_add, (bpow_IZR s Hs).
      pose proof (bpow_pos e2). pose proof (bpow_pos e').
      assert (0 < IZR (Zpos m2)) by (apply IZR_lt; lia).
      assert (A : IZR (Zpos m1) * IZR (2 ^ s)
                  = IZR (Zpos m2) * IZR q + IZR r).
      { rewrite <- !mult_IZR, <- plus_IZR. f_equal. lia. }
      transitivity (IZR (Zpos m1) * IZR (2 ^ s) / IZR (Zpos m2) * bpow e');
        [field; split; lra|].
      rewrite A. field. lra. }
    rewrite Hx. apply new_location_spec; lia.
  - rewrite fexp64_eq.
    destruct (Z_le_gt_dec e' (-1074)) as [L | G]; [lia|].
    assert (HD : (e' <= D - 53)%Z).
    { unfold e' in *. rewrite fexp64_eq in *. lia. }
    assert (Hq52 : (2 ^ 52 <= q)%Z).
    { pose proof (digits2_pos_bounds m1) as [B1 _].
      pose proof (digits2_pos_bounds m2) as [_ B2].
      cbn [Zdigits2] in D.
      set (d1 := Zpos (digits2_pos m1)) in *.
      set (d2 := Zpos (digits2_pos m2)) in *.
      assert (Hd : (d2 + 52 <= d1 - 1 + s)%Z) by (unfold s, D in *; lia).
      assert (Hp : (2 ^ (d2 + 52) <= 2 ^ (d1 - 1 + s))%Z)
        by (apply Z.pow_le_mono_r; lia).
      rewrite !Z.pow_add_r in Hp by (unfold d1, d2; lia).
      assert (Ha : (Zpos m2 * 2 ^ 52 <= m')%Z).
      { rewrite Hm'.
        transitivity (2 ^ d2 * 2 ^ 52)%Z.
        - apply Z.mul_le_mono_nonneg_r; lia.
        - transitivity (2 ^ (d1 - 1) * 2 ^ s)%Z; [exact Hp|].
          apply Z.mul_le_mono_nonneg_r; lia. }
      destruct (Z_lt_le_dec q (2 ^ 52)) as [Lq | Gq]; [|exact Gq].
      exfalso.
      assert (Zpos m2 * q + r < Zpos m2 * 2 ^ 52)%Z by nia.
      lia. }
    pose proof (Zdigits2_gt q 52 ltac:(lia) Hq52). lia.
Qed.

Lemma Rnd_zero x : Rnd x 0 -> x < 1.
Proof.
  intros (e & k & G & (Hk & N & _) & E).
  pose proof (bpow_pos e) as Hb. unfold F2R in E.
  assert (K : IZR k = 0) by nra.
  rewrite K in N.
  destruct G as [[-> _] | [_ [G _]]].
  - pose proof (bpow_le (-1074) 0 ltac:(lia)) as L. rewrite bpow_0 in L. lra.
  - pose proof (bpow_le e (e + 52) ltac:(lia)). lra.
Qed.

Lemma float_of_int_pos w x :
  (0 < w)%Z -> Py.float_of_int w = Ok x ->
  exists m e, Prim2SF x = S754_finite false m e
              /\ Rnd (IZR w) (F2R (Zpos m) e).
Proof.
  intros Hw. destruct w as [|p|p]; try lia. unfold Py.float_of_int.
  destruct (binary_normalize_spec p) as (v & HR & Hm).
  destruct (binary_normalize prec emax (Zpos p) 0 false) as [[|]|[|]| |[|] m e];
    try contradiction; intros H.
  - exfalso. subst v. apply Rnd_zero in HR.
    assert (1 <= IZR (Zpos p)) by (apply IZR_le; lia). lra.
  - discriminate H.
  - injection H as <-. destruct Hm as [-> V].
    exists m, e. split; [|exact HR].
    change (Prim2SF (SF2Prim (S754_finite false m e)) = S754_finite false m e).
    apply Prim2SF_SF2Prim. exact V.
Qed.

Lemma div_pos x a mx ex ma ea :
  Prim2SF x = S754_finite false mx ex ->
  Prim2SF a = S754_finite false ma ea ->
  exists u, Rnd (F2R (Zpos mx) ex / F2R (Zpos ma) ea) u /\
    match Prim2SF (x / a) with
    | S754_zero false => u = 0
    | S754_finite false m e =>
        u = F2R (Zpos m) e /\ valid_binary (S754_finite false m e) = true
    | S754_infinity false => True
    | _ => False
    end.
Proof.
  intros Hx Ha. rewrite div_spec, Hx, Ha. unfold SF64div. cbn [SFdiv xorb].
  pose proof (div_core_spec mx ex ma ea) as C.
  destruct (SFdiv_core_binary prec emax (Zpos mx) ex (Zpos ma) ea) as [[q e'] l].
  destruct C as (Hq & Hin & Hpre).
  apply binary_round_aux_spec; assumption.
Qed.

Lemma trunc_pos_real m e :
  IZR (Py.trunc_pos m e) <= F2R (Zpos m) e < IZR (Py.trunc_pos m e) + 1.
Proof.
  pose proof (trunc_pos_spec m e) as H. unfold F2R.
  destruct e as [|k|k].
  - rewrite H, bpow_0. change (2 ^ 0)%Z with 1%Z. rewrite Z.mul_1_r. lra.
  - rewrite H, mult_IZR, (bpow_IZR (Zpos k)) by lia. lra.
  - destruct H as [H1 H2].
    apply IZR_le in H1. apply IZR_lt in H2.
    rewrite mult_IZR in H1, H2. rewrite plus_IZR in H2.
    pose proof (bpow_pos (Zneg k)) as Hb.
    assert (E : bpow (Zneg k) * IZR (2 ^ Zpos k) = 1).
    { rewrite <- (bpow_IZR (Zpos k)) by lia. rewrite <- bpow_add.
      change (Zneg k + Zpos k)%Z with (- Zpos k + Zpos k)%Z.
      rewrite Z.add_opp_diag_l. apply bpow_0. }
    assert (P : 0 < IZR (2 ^ Zpos k)).
    { apply IZR_lt. apply Z.pow_pos_nonneg; lia. }
    set (t := IZR (Py.trunc_pos m (Zneg k))) in *.
    set (b := bpow (Zneg k)) in *. set (P2 := IZR (2 ^ Zpos k)) in *.
    set (M := IZR (Zpos m)) in *.
    split.
    + apply Rmult_le_reg_r with P2; [exact P|].
      replace (M * b * P2) with (M * (b * P2)) by ring. rewrite E. lra.
    + apply Rmult_lt_reg_r with P2; [exact P|].
      replace (M * b * P2) with (M * (b * P2)) by ring. rewrite E. lra.
Qed.

Lemma int_of_rounded y n u :
  Py.int_of_float y = Ok n ->
  match Prim2SF y with
  | S754_zero false => u = 0
  | S754_finite false m e =>
      u = F2R (Zpos m) e /\ valid_binary (S754_finite false m e) = true
  | S754_infinity false => True
  | _ => False
  end ->
  IZR n <= u < IZR n + 1.
Proof.
  unfold Py.int_of_float.
  destruct (Prim2SF y) as [[|]|[|]| |[|] m e]; intros H Hu;
    try contradiction; try discriminate H.
  - injection H as <-. lra.
  - injection H as <-. destruct Hu as [-> _]. apply trunc_pos_real.
Qed.

Lemma F2R_pos m e : 0 < F2R (Zpos m) e.
Proof.
  unfold F2R. apply Rmult_lt_0_compat; [apply IZR_lt; lia | apply bpow_pos].
Qed.

(** The column budget grows with the pixel width. *)
Lemma cols_monotone f w1 w2 c1 c2 :
  (w1 <= w2)%Z -> Layout.cols f w1 = Ok c1 -> Layout.cols f w2 = Ok c2 ->
  (c1 <= c2)%Z.
Proof.
  intros Hw H1 H2.
  destruct (Z_le_gt_dec w1 0) as [L | G].
  { pose proof (cols_cases f w1) as C1. rewrite H1 in C1.
    pose proof (cols_at_least_20 f w2 c2 H2). destruct C1 as [_ C1].
    rewrite (C1 L). assumption. }
  pose proof (max_1_signed (getlength f Layout.alphabet / 52)%float) as Sa.
  pose proof (max_1_nonzero (getlength f Layout.alphabet / 52)%float) as Za.
  change (Py.max_1 (getlength f Layout.alphabet / 52)) with (Layout.avg f) in Sa, Za.
  revert H1 H2. unfold Layout.cols, Py.truediv.
  destruct (Py.float_of_int w1) as [x1|] eqn:F1; [|discriminate].
  destruct (Py.float_of_int w2) as [x2|] eqn:F2; [|discriminate].
  cbn [bind]. rewrite Za. cbn [bind].
  destruct (Py.int_of_float (x1 / Layout.avg f)) as [n1|] eqn:I1; [|cbn [bind]; intros; discriminate].
  destruct (Py.int_of_float (x2 / Layout.avg f)) as [n2|] eqn:I2; [|cbn [bind]; intros; discriminate].
  cbn [bind]. intros [= <-] [= <-].
  destruct (float_of_int_pos w1 x1 ltac:(lia) F1) as (m1 & e1 & P1 & R1).
  destruct (float_of_int_pos w2 x2 ltac:(lia) F2) as (m2 & e2 & P2 & R2).
  assert (Hv : F2R (Zpos m1) e1 <= F2R (Zpos m2) e2).
  { apply (Rnd_monotone (IZR w1) (IZR w2)); [apply IZR_le; exact Hw| |]; assumption. }
  cut (n1 <= n2)%Z; [lia|].
  inversion Sa as [E | E | E | ma ea E].
  - exfalso. revert I1. unfold Py.int_of_float.
    rewrite div_spec, P1, <- E. unfold SF64div. cbn [SFdiv]. discriminate.
  - exfalso. rewrite eqb_spec, <- E in Za. vm_compute in Za. discriminate Za.
  - revert I1 I2. unfold Py.int_of_float.
    rewrite !div_spec, P1, P2, <- E. unfold SF64div. cbn [SFdiv xorb]. intros [= <-] [= <-]. lia.
  - symmetry in E.
    destruct (div_pos x1 (Layout.avg f) m1 e1 ma ea P1 E) as (u1 & Ru1 & Hu1).
    destruct (div_pos x2 (Layout.avg f) m2 e2 ma ea P2 E) as (u2 & Ru2 & Hu2).
    pose proof (int_of_rounded _ _ _ I1 Hu1) as B1.
    pose proof (int_of_rounded _ _ _ I2 Hu2) as B2.
    assert (Hu : u1 <= u2).
    { refine (Rnd_monotone _ _ _ _ _ Ru1 Ru2).
      pose proof (F2R_pos ma ea) as Pa.
      unfold Rdiv. apply Rmult_le_compat_r; [|exact Hv].
      apply Rlt_le, Rinv_0_lt_compat, Pa. }
    assert (IZR n1 < IZR n2 + 1) by lra.
    rewrite <- plus_IZR in H. apply lt_IZR in H. lia.
Qed.

End RoundingFacts.

(** ** The wrapper *)

Section WrapFacts.
Import PyStr Textwrap Wrapping.

Lemma len_app a b : len (a ++ b) = len a + len b.
Proof. unfold len. rewrite length_app. lia. Qed.

Lemma len_nonneg s : 0 <= len s.
Proof. unfold len. lia. Qed.

Lemma len_cons c s : len (c :: s) = 1 + len s.
Proof. unfold len. cbn [length]. lia. Qed.

(** What the inner loop returns. *)
Lemma fill_line_spec width chunks :
  forall n taken n' rest,
    fill_line width n chunks = (taken, n', rest) ->
    chunks = taken ++ rest
    /\ n' = n + len (concat taken)
    /\ (n <= width -> n' <= width)
    /\ match rest with
       | c :: _ => width < n' + len c
       | [] => True
       end.
Proof.
  induction chunks as [|c chunks IH]; intros n taken n' rest H; simpl in H.
  - inversion H; subst. unfold len; simpl. repeat split; lia.
  - destruct (n + len c <=? width) eqn:E.
    + destruct (fill_line width (n + len c) chunks) as [[t m] r] eqn:F.
      inversion H; subst. apply Z.leb_le in E.
      destruct (IH _ _ _ _ F) as (-> & -> & Hle & Hr).
      simpl concat. rewrite len_app. repeat split; [lia | lia | exact Hr].
    + inversion H; subst. apply Z.leb_gt in E.
      unfold len at 1; simpl. repeat split; lia.
Qed.

Lemma rfind_from_bound a s :
  forall i stop j, rfind_from a i stop s = Some j -> (i <= j < i + stop)%nat.
Proof.
  induction s as [|c s IH]; intros i stop j H; destruct stop; simpl in H;
    try discriminate.
  destruct (rfind_from a (S i) stop s) eqn:E.
  - inversion H; subst. apply IH in E. lia.
  - destruct (is_char a c); inversion H; subst. lia.
Qed.

Lemma cut_point_le chunk space_left :
  0 <= space_left -> (cut_point chunk space_left <= Z.to_nat space_left)%nat.
Proof.
  intros Hs. unfold cut_point.
  destruct (len chunk >? space_left); [|lia].
  unfold rfind.
  destruct (rfind_from hyphen 0 (Z.to_nat space_left) chunk) as [h|] eqn:E;
    [|lia].
  apply rfind_from_bound in E.
  destruct ((0 <? h)%nat && _)%bool; lia.
Qed.

Lemma cut_point_pos chunk space_left :
  1 <= space_left -> (1 <= cut_point chunk space_left)%nat.
Proof.
  intros Hs. unfold cut_point.
  destruct (len chunk >? space_left); [|lia].
  destruct (rfind hyphen (Z.to_nat space_left) chunk) as [h|]; [|lia].
  destruct ((0 <? h)%nat && _)%bool; lia.
Qed.

Lemma concat_snoc (l : list str) (s : str) : concat (l ++ [s]) = concat l ++ s.
Proof. rewrite concat_app. simpl. now rewrite app_nil_r. Qed.

Lemma drop_last_blank_cases cur_line :
  drop_last_blank cur_line = cur_line
  \/ exists c, blank c = true /\ cur_line = drop_last_blank cur_line ++ [c].
Proof.
  unfold drop_last_blank.
  destruct (rev cur_line) as [|c r] eqn:E; [now left|].
  destruct (blank c) eqn:B; [right | now left].
  exists c. split; [exact B|].
  rewrite <- (rev_involutive cur_line), E. reflexivity.
Qed.

Lemma drop_last_blank_len cur_line :
  len (concat (drop_last_blank cur_line)) <= len (concat cur_line).
Proof.
  destruct (drop_last_blank_cases cur_line) as [-> | (c & _ & E)]; [lia|].
  rewrite E at 2. rewrite concat_snoc, len_app. pose proof (len_nonneg c). lia.
Qed.

Lemma len_firstn_le n (s : str) : len (firstn n s) <= Z.of_nat n.
Proof. unfold len. pose proof (firstn_le_length n s). lia. Qed.

Lemma next_line_pass width has_lines chunks line chunks' :
  next_line width has_lines chunks = (line, chunks') ->
  pass width has_lines chunks line chunks'.
Proof.
  unfold next_line.
  set (chunks1 := skip_blank has_lines chunks).
  assert (Hpre : exists pre, chunks = pre ++ chunks1 /\
            (pre = [] \/ has_lines = true /\ exists c, pre = [c] /\ blank c = true)).
  { subst chunks1. unfold skip_blank. destruct chunks as [|c rest]; [exists []; auto|].
    destruct (blank c) eqn:B; destruct has_lines; simpl;
      try (exists []; split; [reflexivity | now left]).
    exists [c]. split; [reflexivity|]. right. split; [reflexivity|].
    exists c. auto. }
  destruct Hpre as (pre & Hc & Hp). clearbody chunks1.
  destruct (fill_line width 0 chunks1) as [[cur_line cur_len] chunks2] eqn:F.
  pose proof (fill_line_spec _ _ _ _ _ _ F) as (E1 & _ & _ & _).
  subst chunks1.
  destruct chunks2 as [|c rest].
  - intros H. inversion H; subst.
    eapply pass_short; eauto.
  - destruct (len c >? width) eqn:G.
    + unfold handle_long_word. intros H. inversion H; subst.
      eapply pass_long; eauto. apply Z.gtb_lt in G. lia.
    + intros H. inversion H; subst.
      eapply pass_short; eauto.
      rewrite Z.gtb_ltb in G. apply Z.ltb_ge in G. exact G.
Qed.

(** No line is longer than the width. *)
Lemma next_line_width width has_lines chunks line chunks' :
  1 <= width ->
  next_line width has_lines chunks = (line, chunks') ->
  len (concat line) <= width.
Proof.
  intros Hw H. apply next_line_pass in H.
  destruct H as [pre taken cur_len _ _ F _ ->
                |pre taken cur_len c rest e _ _ F Hc -> -> _];
    apply fill_line_spec in F; destruct F as (_ & Hlen & Hle & _).
  - pose proof (drop_last_blank_len taken). lia.
  - pose proof (drop_last_blank_len (taken ++ [firstn (cut_point c
        (if width <? 1 then 1 else width - cur_len)) c])) as Hd.
    rewrite concat_snoc, len_app in Hd.
    destruct (width <? 1) eqn:E; [apply Z.ltb_lt in E; lia|].
    pose proof (cut_point_le c (width - cur_len)).
    pose proof (len_firstn_le (cut_point c (width - cur_len)) c).
    lia.
Qed.

Lemma wrap_loop_width width :
  1 <= width ->
  forall fuel has_lines chunks,
    Forall (fun l => len l <= width) (wrap_loop fuel width has_lines chunks).
Proof.
  intros Hw. induction fuel as [|fuel IH]; intros has_lines chunks.
  - constructor.
  - destruct chunks as [|c0 rest0]; [constructor|].
    cbn [wrap_loop].
    destruct (next_line width has_lines (c0 :: rest0)) as [line chunks'] eqn:N.
    pose proof (next_line_width _ _ _ _ _ Hw N) as Hl.
    destruct line; [apply IH|].
    constructor; [exact Hl | apply IH].
Qed.

Lemma wrap_width para width lines :
  wrap para width = Ok lines -> Forall (fun l => len l <= width) lines.
Proof.
  unfold wrap, wrap_chunks.
  destruct (width <=? 0) eqn:E; [discriminate|].
  intros H. inversion H; subst. apply wrap_loop_width.
  apply Z.leb_gt in E. lia.
Qed.

Lemma passes_app a b : passes (a ++ b) = (passes a + passes b)%nat.
Proof. induction a as [|c a IH]; simpl; [reflexivity | rewrite IH; lia]. Qed.

Lemma passes_pos c chunks : (1 <= passes (c :: chunks))%nat.
Proof. simpl. lia. Qed.

(** Every pass of the outer loop shrinks the stack. *)
Lemma next_line_passes width has_lines chunks line chunks' :
  1 <= width -> chunks <> [] ->
  next_line width has_lines chunks = (line, chunks') ->
  (passes chunks' < passes chunks)%nat.
Proof.
  intros Hw Hne H. apply next_line_pass in H.
  destruct H as [pre taken cur_len E _ F Hfit _
                |pre taken cur_len c rest e E _ F Hc He _ ->];
    apply fill_line_spec in F; destruct F as (_ & Hlen & _ & Hnext);
    subst chunks; rewrite !passes_app.
  - destruct pre as [|p pre]; [|simpl; lia].
    destruct taken as [|t taken]; [|simpl; lia].
    destruct chunks' as [|c rest]; [contradiction|].
    simpl in Hlen. unfold len at 1 in Hlen. simpl in Hlen. lia.
  - assert (Hk : (length (skipn e c) <= length c)%nat)
      by (rewrite length_skipn; lia).
    destruct pre as [|p pre]; [|simpl; lia].
    destruct taken as [|t taken]; [|simpl; lia].
    simpl in Hlen. unfold len at 1 in Hlen. simpl in Hlen. subst cur_len.
    destruct (width <? 1) eqn:G; [apply Z.ltb_lt in G; lia|].
    pose proof (cut_point_pos c (width - 0)) as Hp.
    rewrite <- He in Hp. simpl. rewrite length_skipn.
    unfold len in Hc. lia.
Qed.

(** The fuel given to the outer loop is enough: more changes nothing. *)
Lemma wrap_loop_fuel width :
  1 <= width ->
  forall fuel1 fuel2 has_lines chunks,
    (passes chunks <= fuel1)%nat -> (passes chunks <= fuel2)%nat ->
    wrap_loop fuel1 width has_lines chunks
    = wrap_loop fuel2 width has_lines chunks.
Proof.
  intros Hw. induction fuel1 as [|fuel1 IH]; intros fuel2 has_lines chunks H1 H2.
  - destruct chunks; [|simpl in H1; lia]. destruct fuel2; reflexivity.
  - destruct chunks as [|c0 rest0]; [destruct fuel2; reflexivity|].
    destruct fuel2 as [|fuel2]; [simpl in H2; lia|].
    cbn [wrap_loop].
    destruct (next_line width has_lines (c0 :: rest0)) as [line chunks'] eqn:N.
    assert (Hlt : (passes chunks' < passes (c0 :: rest0))%nat)
      by (eapply next_line_passes; eauto; discriminate).
    rewrite !(IH fuel2) by lia.
    reflexivity.
Qed.

(** The outer loop, one pass unfolded. *)
Lemma wrap_loop_step width has_lines c rest :
  1 <= width ->
  wrap_loop (passes (c :: rest)) width has_lines (c :: rest) =
  let '(line, chunks') := next_line width has_lines (c :: rest) in
  match line with
  | [] => wrap_loop (passes chunks') width has_lines chunks'
  | _ :: _ => concat line :: wrap_loop (passes chunks') width true chunks'
  end.
Proof.
  intros Hw.
  destruct (passes (c :: rest)) as [|p] eqn:P; [simpl in P; lia|].
  cbn [wrap_loop].
  destruct (next_line width has_lines (c :: rest)) as [line chunks'] eqn:N.
  assert (Hlt : (passes chunks' < passes (c :: rest))%nat)
    by (eapply next_line_passes; eauto; discriminate).
  rewrite !(wrap_loop_fuel width Hw p (passes chunks')) by lia.
  reflexivity.
Qed.




Lemma suffix_refl s : suffix s s.
Proof. now exists []. Qed.

Lemma suffix_trans a b c : suffix a b -> suffix b c -> suffix a c.
Proof. intros [p ->] [q ->]. exists (q ++ p). now rewrite app_assoc. Qed.

Lemma suffix_cons c s : suffix s (c :: s).
Proof. now exists [c]. Qed.

Lemma suffix_nil s : suffix s [] -> s = [].
Proof. intros [p E]. symmetry in E. now apply app_eq_nil in E. Qed.

Lemma suffix_length a b : suffix a b -> (length a <= length b)%nat.
Proof. intros [p ->]. rewrite length_app. lia. Qed.

Lemma suffix_cons_inv a c s : suffix a (c :: s) -> a = c :: s \/ suffix a s.
Proof.
  intros [[|p ps] E]; simpl in E.
  - now left.
  - right. inversion E. now exists ps.
Qed.

Lemma rest_of_suffix width chunks : forall n, suffix (rest_of width n chunks) chunks.
Proof.
  intros n. unfold rest_of.
  destruct (fill_line width n chunks) as [[t m] r] eqn:F.
  apply fill_line_spec in F. destruct F as (-> & _). now exists t.
Qed.

Lemma rest_of_cons width n c chunks :
  rest_of width n (c :: chunks) =
  if n + len c <=? width then rest_of width (n + len c) chunks else c :: chunks.
Proof.
  unfold rest_of. simpl.
  destruct (n + len c <=? width); [|reflexivity].
  now destruct (fill_line width (n + len c) chunks) as [[t m] r].
Qed.

(** More room never leaves more on the stack. *)
Lemma rest_of_room chunks :
  forall w n w' n', w - n <= w' - n' ->
    suffix (rest_of w' n' chunks) (rest_of w n chunks).
Proof.
  induction chunks as [|c chunks IH]; intros w n w' n' H.
  - apply suffix_refl.
  - rewrite !rest_of_cons.
    destruct (n + len c <=? w) eqn:E.
    + apply Z.leb_le in E.
      replace (n' + len c <=? w') with true by (symmetry; apply Z.leb_le; lia).
      apply IH. lia.
    + destruct (n' + len c <=? w'); [|apply suffix_refl].
      eapply suffix_trans; [apply rest_of_suffix | apply suffix_cons].
Qed.

(** Starting further down the stack never leaves more on it. *)
Lemma rest_of_ahead w w' s s' :
  w <= w' -> suffix s' s -> suffix (rest_of w' 0 s') (rest_of w 0 s).
Proof.
  intros Hw [p ->]. induction p as [|c p IH]; simpl.
  - apply rest_of_room. lia.
  - rewrite rest_of_cons. destruct (0 + len c <=? w).
    + eapply suffix_trans; [exact IH|].
      apply rest_of_room. pose proof (len_nonneg c). lia.
    + eapply suffix_trans; [apply rest_of_suffix|].
      eapply suffix_trans; [|apply suffix_cons]. now exists p.
Qed.

Lemma skip_blank_suffix b s : suffix (skip_blank b s) s.
Proof.
  destruct s as [|c r]; simpl; [apply suffix_refl|].
  destruct (blank c && b)%bool; [apply suffix_cons | apply suffix_refl].
Qed.

Lemma skip_blank_ahead s s' :
  suffix s' s -> suffix (skip_blank true s') (skip_blank true s).
Proof.
  intros H. destruct s as [|c r].
  - apply suffix_nil in H. subst. apply suffix_refl.
  - apply suffix_cons_inv in H. destruct H as [-> | H]; [apply suffix_refl|].
    eapply suffix_trans; [apply skip_blank_suffix|].
    eapply suffix_trans; [exact H|].
    simpl. destruct (blank c && true)%bool; [apply suffix_refl | apply suffix_cons].
Qed.

Lemma fits_Forall width chunks :
  fits width chunks = true <-> Forall (fun c => len c <= width) chunks.
Proof.
  unfold fits. rewrite forallb_forall, Forall_forall.
  split; intros H c Hc; specialize (H c Hc); apply Z.leb_le; exact H.
Qed.

Lemma fits_suffix width s s' : suffix s' s -> fits width s = true -> fits width s' = true.
Proof.
  intros [p ->]. unfold fits. rewrite forallb_app. intros H.
  apply andb_true_iff in H. apply H.
Qed.

Lemma fits_wider w w' s : w <= w' -> fits w s = true -> fits w' s = true.
Proof.
  intros Hw. rewrite !fits_Forall. apply Forall_impl. intros c. lia.
Qed.

Lemma no_blank_pair_suffix s s' :
  suffix s' s -> no_blank_pair s = true -> no_blank_pair s' = true.
Proof.
  intros [p ->]. induction p as [|c p IH]; [auto|].
  simpl. intros H. apply andb_true_iff in H. apply IH, H.
Qed.

(** With no chunk longer than the width, a pass only moves whole chunks. *)
Lemma next_line_fits width has_lines chunks :
  fits width chunks = true ->
  next_line width has_lines chunks =
  (drop_last_blank (fst (fst (fill_line width 0 (skip_blank has_lines chunks)))),
   rest_of width 0 (skip_blank has_lines chunks)).
Proof.
  intros Hf. unfold next_line, rest_of.
  pose proof (fits_suffix width _ _ (skip_blank_suffix has_lines chunks) Hf) as Hs.
  destruct (fill_line width 0 (skip_blank has_lines chunks))
    as [[cur_line cur_len] chunks2] eqn:F.
  destruct chunks2 as [|c rest]; [reflexivity|].
  apply fill_line_spec in F. destruct F as (E & _).
  rewrite E in Hs. apply fits_Forall in Hs.
  apply Forall_app in Hs. destruct Hs as [_ Hs]. inversion Hs; subst.
  replace (len c >? width) with false; [reflexivity|].
  symmetry. rewrite Z.gtb_ltb. apply Z.ltb_ge. assumption.
Qed.

Lemma drop_last_blank_word c t :
  blank c = false -> drop_last_blank (c :: t) <> [].
Proof.
  intros Hc E.
  destruct (drop_last_blank_cases (c :: t)) as [H | (b & Hb & H)].
  - rewrite E in H. discriminate H.
  - rewrite E in H. simpl in H. inversion H; subst. congruence.
Qed.

(** The first chunk of a line that begins with a word. *)
Lemma fill_line_word width c rest :
  len c <= width ->
  exists t, fst (fst (fill_line width 0 (c :: rest))) = c :: t.
Proof.
  intros H. cbn [fill_line].
  replace (0 + len c <=? width) with true by (symmetry; apply Z.leb_le; lia).
  destruct (fill_line width (0 + len c) rest) as [[t m] r].
  now exists t.
Qed.

Lemma skip_blank_word s c r :
  no_blank_pair s = true -> skip_blank true s = c :: r -> blank c = false.
Proof.
  destruct s as [|a [|b rest]]; simpl; try discriminate.
  - destruct (blank a) eqn:B; simpl; [discriminate|]. intros _ E. inversion E; subst. exact B.
  - destruct (blank a) eqn:B; simpl.
    + intros H E. inversion E; subst.
      apply andb_true_iff in H. destruct H as [H _].
      now destruct (blank c).
    + intros _ E. inversion E; subst. exact B.
Qed.

Lemma count_step width s :
  1 <= width -> fits width s = true -> no_blank_pair s = true ->
  count width s =
  match skip_blank true s with
  | [] => O
  | _ :: _ => S (count width (rest_of width 0 (skip_blank true s)))
  end.
Proof.
  intros Hw Hf Hn. unfold count.
  destruct s as [|c0 rest0]; [reflexivity|].
  rewrite wrap_loop_step by exact Hw.
  rewrite next_line_fits by exact Hf.
  destruct (skip_blank true (c0 :: rest0)) as [|c r] eqn:E.
  - reflexivity.
  - pose proof (skip_blank_word _ _ _ Hn E) as Hc.
    assert (Hlen : len c <= width).
    { pose proof (fits_suffix width _ _ (skip_blank_suffix true (c0 :: rest0)) Hf) as H.
      rewrite E in H. apply fits_Forall in H. now inversion H. }
    destruct (fill_line_word width c r Hlen) as [t ->].
    pose proof (drop_last_blank_word c t Hc) as Hd.
    destruct (drop_last_blank (c :: t)); [contradiction|].
    reflexivity.
Qed.

(** A wider line and a later start never give more lines. *)
Lemma count_ahead w w' :
  1 <= w -> w <= w' ->
  forall n s s',
    (length s <= n)%nat ->
    fits w s = true -> no_blank_pair s = true -> suffix s' s ->
    (count w' s' <= count w s)%nat.
Proof.
  intros Hw Hww. induction n as [|n IH]; intros s s' Hn Hf Hb Hs.
  - destruct s; [|simpl in Hn; lia]. apply suffix_nil in Hs. subst. reflexivity.
  - assert (Hf' : fits w' s' = true)
      by (eapply fits_wider; [exact Hww | eapply fits_suffix; eauto]).
    assert (Hb' : no_blank_pair s' = true) by (eapply no_blank_pair_suffix; eauto).
    rewrite (count_step w' s') by (try assumption; lia).
    rewrite (count_step w s) by assumption.
    pose proof (skip_blank_ahead _ _ Hs) as Hk.
    destruct (skip_blank true s') as [|c' r'] eqn:E'; [lia|].
    destruct (skip_blank true s) as [|c r] eqn:E.
    + apply suffix_nil in Hk. discriminate.
    + apply le_n_S. apply IH.
      * pose proof (suffix_length _ _ (skip_blank_suffix true s)) as H1.
        rewrite E in H1.
        pose proof (rest_of_cons w 0 c r) as H2.
        assert (Hlen : len c <= w).
        { pose proof (fits_suffix w _ _ (skip_blank_suffix true s) Hf) as H.
          rewrite E in H. apply fits_Forall in H. now inversion H. }
        replace (0 + len c <=? w) with true in H2
          by (symmetry; apply Z.leb_le; lia).
        rewrite H2.
        pose proof (suffix_length _ _ (rest_of_suffix w r (0 + len c))).
        simpl in H1. lia.
      * eapply fits_suffix; [|exact Hf].
        eapply suffix_trans; [apply rest_of_suffix|].
        rewrite <- E. apply skip_blank_suffix.
      * eapply no_blank_pair_suffix; [|exact Hb].
        eapply suffix_trans; [apply rest_of_suffix|].
        rewrite <- E. apply skip_blank_suffix.
      * apply rest_of_ahead; assumption.
Qed.

(** A stack that begins with a word wraps the same whether or not lines
    were emitted before. *)
Lemma wrap_loop_starts_with_word width s :
  1 <= width -> fits width s = true -> starts_with_word s = true ->
  wrap_loop (passes s) width false s = wrap_loop (passes s) width true s.
Proof.
  intros Hw Hf Hs. destruct s as [|c r]; [reflexivity|].
  simpl in Hs. apply negb_true_iff in Hs.
  rewrite !wrap_loop_step by exact Hw.
  rewrite !next_line_fits by exact Hf.
  unfold skip_blank. rewrite Hs. simpl andb. cbv iota.
  assert (Hlen : len c <= width) by (apply fits_Forall in Hf; now inversion Hf).
  destruct (fill_line_word width c r Hlen) as [t ->].
  pose proof (drop_last_blank_word c t Hs) as Hd.
  destruct (drop_last_blank (c :: t)); [contradiction|].
  reflexivity.
Qed.

(** Paragraphs made of chunks that fit: a wider budget never gives more
    lines. *)
Lemma wrap_chunks_monotone w w' s l l' :
  1 <= w -> w <= w' ->
  fits w s = true -> no_blank_pair s = true -> starts_with_word s = true ->
  wrap_chunks w s = Ok l -> wrap_chunks w' s = Ok l' ->
  (length l' <= length l)%nat.
Proof.
  intros Hw Hww Hf Hb Hs. unfold wrap_chunks.
  destruct (w <=? 0); [discriminate|]. destruct (w' <=? 0); [discriminate|].
  intros H H'. inversion H; inversion H'; subst.
  rewrite !wrap_loop_starts_with_word; try assumption; try lia.
  - apply (count_ahead w w' Hw Hww (length s) s s); auto. apply suffix_refl.
  - eapply fits_wider; eauto.
Qed.

(** *** Blank strings *)

Lemma lstrip_nil s : lstrip s = [] <-> forallb isspace s = true.
Proof.
  induction s as [|c s IH]; simpl; [tauto|].
  destruct (isspace c); simpl; [exact IH|]. split; discriminate.
Qed.

Lemma forallb_rev (p : ascii -> bool) s : forallb p (rev s) = forallb p s.
Proof.
  induction s as [|c s IH]; [reflexivity|].
  simpl. rewrite forallb_app, IH. simpl. rewrite andb_true_r. apply andb_comm.
Qed.

Lemma lstrip_word s c r : lstrip s = c :: r -> isspace c = false.
Proof.
  induction s as [|a s IH]; simpl; [discriminate|].
  destruct (isspace a) eqn:E; [exact IH|]. intros H. inversion H; subst. exact E.
Qed.

Lemma blank_spec s : blank s = true <-> forallb isspace s = true.
Proof.
  unfold blank, strip, rstrip.
  destruct (lstrip s) as [|c r] eqn:L.
  - simpl. rewrite <- lstrip_nil, L. tauto.
  - assert (Hn : forallb isspace s = false).
    { destruct (forallb isspace s) eqn:E; [|reflexivity].
      apply lstrip_nil in E. congruence. }
    rewrite Hn.
    destruct (rev (lstrip (rev (c :: r)))) eqn:R; [|split; discriminate].
    exfalso.
    apply (f_equal (@rev ascii)) in R. rewrite rev_involutive in R. simpl in R.
    apply lstrip_nil in R. rewrite <- app_nil_r in R at 1.
    change (rev r ++ [c]) with (rev (c :: r)) in R.
    rewrite app_nil_r, forallb_rev in R. simpl in R.
    apply lstrip_word in L. rewrite L in R. discriminate.
Qed.

Lemma not_blank_word s :
  blank s = false -> exists c, In c s /\ isspace c = false.
Proof.
  intros H.
  assert (Hn : forallb isspace s = false).
  { destruct (forallb isspace s) eqn:E; [|reflexivity].
    apply blank_spec in E. congruence. }
  clear H. induction s as [|a s IH]; [discriminate|].
  simpl in Hn. destruct (isspace a) eqn:E.
  - destruct (IH Hn) as (c & Hc & Hs). exists c. split; [now right | exact Hs].
  - exists a. split; [now left | exact E].
Qed.

Lemma word_not_blank s c : In c s -> isspace c = false -> blank s = false.
Proof.
  intros Hc Hs. destruct (blank s) eqn:B; [|reflexivity].
  apply blank_spec in B. rewrite forallb_forall in B.
  rewrite (B c Hc) in Hs. discriminate.
Qed.

(** *** Chunks cover the text *)

Lemma whitespace_isspace c : whitespace c = true -> isspace c = true.
Proof.
  unfold whitespace, isspace. intros H.
  apply orb_true_iff in H. destruct H as [H | H].
  - rewrite H. reflexivity.
  - unfold is_char in H. apply N.eqb_eq in H.
    unfold in_range. rewrite <- H. vm_compute. reflexivity.
Qed.

Lemma expandtabs_keeps c tabsize s :
  forall col, isspace c = false -> In c s ->
    In c (expandtabs_from tabsize col s).
Proof.
  induction s as [|a s IH]; intros col Hc Hin; [contradiction|].
  simpl. destruct Hin as [-> | Hin].
  - assert (Ht : is_char tab c = false).
    { destruct (is_char tab c) eqn:E; [|reflexivity].
      unfold is_char in E. apply N.eqb_eq in E.
      unfold isspace, in_range in Hc. rewrite <- E in Hc. discriminate. }
    rewrite Ht. destruct (is_char newline c || is_char cr c)%bool; now left.
  - destruct (is_char tab a).
    + destruct tabsize; [now apply IH|]. apply in_or_app. right. now apply IH.
    + destruct (is_char newline a || is_char cr a)%bool; right; now apply IH.
Qed.

Lemma munge_keeps c text :
  isspace c = false -> In c text -> In c (munge_whitespace text).
Proof.
  intros Hc Hin. unfold munge_whitespace.
  apply in_map_iff. exists c. split.
  - destruct (whitespace c) eqn:E; [|reflexivity].
    apply whitespace_isspace in E. congruence.
  - now apply expandtabs_keeps.
Qed.

Lemma match_len_pos before c rest : (1 <= match_len before (c :: rest))%nat.
Proof.
  unfold match_len.
  destruct (whitespace c) eqn:W.
  - simpl. rewrite W. lia.
  - destruct (behind_word_punct before && ahead_dashes (c :: rest))%bool eqn:D; [|lia].
    apply andb_true_iff in D. destruct D as [_ D].
    unfold ahead_dashes in D. apply andb_true_iff in D. destruct D as [D _].
    apply Nat.leb_le in D. lia.
Qed.

Lemma split_from_concat fuel :
  forall before rest, (length rest <= fuel)%nat ->
    concat (split_from fuel before rest) = rest.
Proof.
  induction fuel as [|fuel IH]; intros before rest H.
  - destruct rest; [reflexivity | simpl in H; lia].
  - destruct rest as [|c rest]; [reflexivity|].
    cbn [split_from concat].
    rewrite IH.
    + apply firstn_skipn.
    + rewrite length_skipn. pose proof (match_len_pos before c rest).
      simpl in H. simpl length. lia.
Qed.

Lemma split_chunks_keeps c text :
  isspace c = false -> In c text ->
  exists chunk, In chunk (split_chunks text) /\ In c chunk.
Proof.
  intros Hc Hin. apply munge_keeps in Hin; [|exact Hc].
  unfold split_chunks, split.
  rewrite <- (split_from_concat (length (munge_whitespace text)) []
                (munge_whitespace text)) in Hin by lia.
  apply in_concat in Hin. destruct Hin as (chunk & H1 & H2). eauto.
Qed.

(** *** A word on the stack gives a line *)

Lemma has_word_app a b : has_word (a ++ b) -> has_word a \/ has_word b.
Proof.
  intros (c & Hc & Hs). rewrite concat_app in Hc.
  apply in_app_or in Hc. destruct Hc; [left | right]; exists c; auto.
Qed.

Lemma blank_no_word b : blank b = true -> ~ has_word [b].
Proof.
  intros Hb (c & Hc & Hs). simpl in Hc. rewrite app_nil_r in Hc.
  rewrite (word_not_blank b c Hc Hs) in Hb. discriminate.
Qed.

Lemma pre_no_word (pre : list str) has_lines :
  (pre = [] \/ has_lines = true /\ exists c, pre = [c] /\ blank c = true) ->
  ~ has_word pre.
Proof.
  intros [-> | (_ & c & -> & Hb)].
  - intros (c & Hc & _). contradiction.
  - now apply blank_no_word.
Qed.

Lemma drop_last_blank_nil l : drop_last_blank l = [] -> ~ has_word l.
Proof.
  intros E. destruct (drop_last_blank_cases l) as [H | (b & Hb & H)].
  - rewrite E in H. subst. intros (c & Hc & _). contradiction.
  - rewrite E in H. subst. now apply blank_no_word.
Qed.

Lemma next_line_keeps_word width has_lines chunks chunks' :
  next_line width has_lines chunks = ([], chunks') ->
  has_word chunks -> has_word chunks'.
Proof.
  intros H Hw. apply next_line_pass in H.
  destruct H as [pre taken cur_len E Hp _ _ Hl
                |pre taken cur_len c rest e E Hp _ _ _ Hl ->].
  - subst chunks. symmetry in Hl.
    apply has_word_app in Hw. destruct Hw as [Hw | Hw];
      [exfalso; revert Hw; eapply pre_no_word; eauto|].
    apply has_word_app in Hw. destruct Hw as [Hw | Hw]; [|exact Hw].
    exfalso. revert Hw. now apply drop_last_blank_nil.
  - subst chunks. symmetry in Hl. apply drop_last_blank_nil in Hl.
    apply has_word_app in Hw. destruct Hw as [Hw | Hw];
      [exfalso; revert Hw; eapply pre_no_word; eauto|].
    apply has_word_app in Hw. destruct Hw as [Hw | (a & Ha & Hs)].
    + exfalso. apply Hl. destruct Hw as (a & Ha & Hs). exists a. split; [|exact Hs].
      rewrite concat_app. apply in_or_app. now left.
    + simpl in Ha. rewrite <- (firstn_skipn e c) in Ha.
      apply in_app_or in Ha. destruct Ha as [Ha | Ha];
        [apply in_app_or in Ha; destruct Ha as [Ha | Ha]|].
      * exfalso. apply Hl. exists a. split; [|exact Hs].
        rewrite concat_snoc. apply in_or_app. now right.
      * exists a. split; [|exact Hs]. simpl. apply in_or_app. now left.
      * exists a. split; [|exact Hs]. simpl. apply in_or_app. now right.
Qed.

Lemma wrap_loop_word width :
  1 <= width ->
  forall n has_lines chunks,
    (passes chunks <= n)%nat -> has_word chunks ->
    wrap_loop (passes chunks) width has_lines chunks <> [].
Proof.
  intros Hw. induction n as [|n IH]; intros has_lines chunks Hn Hc.
  - destruct chunks; [|simpl in Hn; lia].
    destruct Hc as (c & Hc & _). contradiction.
  - destruct chunks as [|c0 rest0]; [destruct Hc as (c & Hc & _); contradiction|].
    rewrite wrap_loop_step by exact Hw.
    destruct (next_line width has_lines (c0 :: rest0)) as [line chunks'] eqn:N.
    destruct line; [|discriminate].
    apply IH.
    + assert (Hne : c0 :: rest0 <> []) by discriminate.
      pose proof (next_line_passes _ _ _ _ _ Hw Hne N). lia.
    + eapply next_line_keeps_word; eauto.
Qed.

(** A paragraph that is not blank wraps to at least one line. *)
Lemma wrap_nonempty para width lines :
  blank para = false -> wrap para width = Ok lines -> lines <> [].
Proof.
  intros Hb. unfold wrap, wrap_chunks.
  destruct (width <=? 0) eqn:E; [discriminate|].
  apply Z.leb_gt in E. intros H. inversion H; subst.
  destruct (not_blank_word para Hb) as (c & Hc & Hs).
  destruct (split_chunks_keeps c para Hs Hc) as (chunk & H1 & H2).
  apply wrap_loop_word with (n := passes (split_chunks para)); [lia | lia |].
  exists c. split; [|exact Hs]. apply in_concat. eauto.
Qed.

Lemma split_nonempty sep s : PyStr.split sep s <> [].
Proof.
  destruct s as [|c s]; simpl; [discriminate|].
  destruct (is_char sep c); [discriminate|].
  destruct (PyStr.split sep s); discriminate.
Qed.

Lemma span_stops (p : ascii -> bool) s :
  match skipn (span p s) s with
  | c :: _ => p c = false
  | [] => True
  end.
Proof.
  induction s as [|c s IH]; [exact I|].
  simpl. destruct (p c) eqn:E; [exact IH | exact E].
Qed.

Lemma blank_head c s : blank (c :: s) = true -> isspace c = true.
Proof.
  intros H. apply blank_spec in H. simpl in H.
  apply andb_true_iff in H. apply H.
Qed.

Lemma firstn_word n c s :
  (1 <= n)%nat -> isspace c = false -> blank (firstn n (c :: s)) = false.
Proof.
  intros Hn Hc. destruct n; [lia|]. simpl.
  apply word_not_blank with (c := c); [now left | exact Hc].
Qed.

Lemma ordinary_skipn n s : ordinary s = true -> ordinary (skipn n s) = true.
Proof.
  unfold ordinary. rewrite !forallb_forall. intros H c Hc. apply H.
  rewrite <- (firstn_skipn n s). apply in_or_app. now right.
Qed.

(** In ordinary text a blank chunk is a whole run of whitespace, and the
    chunk after it begins with a character that is not whitespace. *)
Lemma split_from_no_blank_pair fuel :
  forall before rest,
    ordinary rest = true ->
    no_blank_pair (split_from fuel before rest) = true.
Proof.
  induction fuel as [|fuel IH]; intros before rest Ho; [reflexivity|].
  destruct rest as [|c rest]; [reflexivity|].
  cbn [split_from no_blank_pair].
  set (n := match_len before (c :: rest)).
  rewrite IH by (apply ordinary_skipn; exact Ho).
  rewrite andb_true_r.
  destruct fuel as [|fuel]; [reflexivity|].
  destruct (skipn n (c :: rest)) as [|c' rest'] eqn:K; [reflexivity|].
  cbn [split_from].
  apply negb_true_iff. apply andb_false_iff.
  destruct (blank (firstn n (c :: rest))) eqn:B; [right | now left].
  assert (Hn : (1 <= n)%nat) by apply match_len_pos.
  assert (Hc : isspace c = true).
  { destruct n; [lia|]. simpl in B. now apply blank_head in B. }
  assert (Hw : whitespace c = true).
  { unfold ordinary in Ho. simpl in Ho. apply andb_true_iff in Ho.
    destruct Ho as [Ho _]. rewrite Hc in Ho. simpl in Ho.
    now rewrite orb_false_r in Ho. }
  assert (Hn' : n = span whitespace (c :: rest)).
  { subst n. unfold match_len. now rewrite Hw. }
  pose proof (span_stops whitespace (c :: rest)) as Hs.
  rewrite <- Hn', K in Hs.
  assert (Hc' : isspace c' = false).
  { pose proof (ordinary_skipn n _ Ho) as Ho'. rewrite K in Ho'.
    unfold ordinary in Ho'. simpl in Ho'. apply andb_true_iff in Ho'.
    destruct Ho' as [Ho' _]. rewrite Hs in Ho'. simpl in Ho'.
    now apply negb_true_iff in Ho'. }
  apply firstn_word; [apply match_len_pos | exact Hc'].
Qed.

Lemma expandtabs_ordinary tabsize s :
  forall col, ordinary s = true -> ordinary (expandtabs_from tabsize col s) = true.
Proof.
  unfold ordinary.
  induction s as [|c s IH]; intros col H; [reflexivity|].
  simpl in H. apply andb_true_iff in H. destruct H as [Hc Hs].
  simpl. destruct (is_char tab c).
  - destruct tabsize; [now apply IH|].
    rewrite forallb_app, IH by exact Hs. rewrite andb_true_r.
    apply forallb_forall. intros x Hx. apply repeat_spec in Hx. subst x.
    reflexivity.
  - destruct (is_char newline c || is_char cr c)%bool; simpl;
      rewrite Hc, IH by exact Hs; reflexivity.
Qed.

Lemma munge_ordinary text :
  ordinary text = true -> ordinary (munge_whitespace text) = true.
Proof.
  intros H. unfold munge_whitespace.
  apply (expandtabs_ordinary 8 text 0%nat) in H. fold (expandtabs 8 text) in H.
  unfold ordinary in *. rewrite forallb_forall in *.
  intros c Hc. apply in_map_iff in Hc. destruct Hc as (a & <- & Ha).
  specialize (H a Ha). destruct (whitespace a) eqn:W; [reflexivity|].
  rewrite W. exact H.
Qed.

(** Ordinary text never gives two blank chunks in a row. *)
Lemma ordinary_no_blank_pair para :
  ordinary para = true -> no_blank_pair (split_chunks para) = true.
Proof.
  intros H. unfold split_chunks, split.
  apply split_from_no_blank_pair, munge_ordinary, H.
Qed.

(** A single word that fits is its own line. *)
Lemma wrap_chunks_single width c :
  1 <= width -> len c <= width -> blank c = false ->
  wrap_chunks width [c] = Ok [c].
Proof.
  intros Hw Hc Hb. unfold wrap_chunks.
  replace (width <=? 0) with false by (symmetry; apply Z.leb_gt; lia).
  assert (Hf : fits width [c] = true).
  { apply fits_Forall. repeat constructor. exact Hc. }
  rewrite wrap_loop_step, next_line_fits by assumption.
  unfold rest_of, skip_blank. rewrite Hb. cbn [andb fill_line].
  replace (0 + len c <=? width) with true by (symmetry; apply Z.leb_le; lia).
  cbn [fst snd]. unfold drop_last_blank. cbn [rev app]. rewrite Hb.
  cbn [concat passes fold_right wrap_loop]. now rewrite app_nil_r.
Qed.

End WrapFacts.

(** ** The layout *)

Section LayoutFacts.
Import Draw Sample.

Lemma place_app x f c h a b y :
  Rows.place x f c h (a ++ b) y =
  Rows.place x f c h a y ++ Rows.place x f c h b (y + h * Z.of_nat (length a)).
Proof.
  revert y. induction a as [|r a IH]; intros y.
  - simpl. now rewrite Z.mul_0_r, Z.add_0_r.
  - destruct r; cbn [Rows.place app length]; rewrite IH, Nat2Z.inj_succ;
      replace (y + h + h * Z.of_nat (length a))
        with (y + h * Z.succ (Z.of_nat (length a))) by lia; reflexivity.
Qed.

Lemma advance_ok f ls h y :
  Layout.line_height f ls = Ok h -> advance f ls y = Ok (y + h).
Proof. unfold advance. intros ->. reflexivity. Qed.

Lemma draw_lines_place x f c ls h lines d y :
  Layout.line_height f ls = Ok h ->
  draw_lines x f c ls lines d y =
  Ok (d ++ Rows.place x f c h (map Line lines) y,
      y + h * Z.of_nat (length lines)).
Proof.
  intros Hh. revert d y.
  induction lines as [|l lines IH]; intros d y.
  - simpl. now rewrite app_nil_r, Z.mul_0_r, Z.add_0_r.
  - simpl draw_lines. rewrite (advance_ok _ _ _ _ Hh). simpl bind.
    rewrite IH. rewrite <- app_assoc. simpl.
    do 2 f_equal. lia.
Qed.

Lemma draw_paras_rows x f c ls h width paras d y :
  Layout.line_height f ls = Ok h ->
  draw_paras x f c ls width paras d y =
  (rs <- Rows.of_paras width paras ;;
   Ok (d ++ Rows.place x f c h rs y, y + h * Z.of_nat (length rs))).
Proof.
  intros Hh. revert d y.
  induction paras as [|p paras IH]; intros d y.
  - simpl. now rewrite app_nil_r, Z.mul_0_r, Z.add_0_r.
  - simpl draw_paras. simpl Rows.of_paras. unfold Rows.of_para.
    destruct (PyStr.blank p).
    + rewrite (advance_ok _ _ _ _ Hh). simpl bind. rewrite IH.
      destruct (Rows.of_paras width paras) as [rs|e]; simpl; [|reflexivity].
      do 2 f_equal. lia.
    + destruct (Textwrap.wrap p width) as [lines|e]; simpl; [|reflexivity].
      rewrite (draw_lines_place _ _ _ _ _ _ _ _ Hh). simpl bind. rewrite IH.
      destruct (Rows.of_paras width paras) as [rs|e]; simpl; [|reflexivity].
      rewrite place_app, <- app_assoc, length_app, length_map, Nat2Z.inj_add.
      do 2 f_equal. lia.
Qed.

Lemma draw_wrapped_rows d x y text f c w ls h :
  Layout.line_height f ls = Ok h ->
  draw_wrapped d (x, y) text f c w ls =
  (width <- Layout.cols f w ;;
   rs <- Rows.of_text width text ;;
   Ok (d ++ Rows.place x f c h rs y, y + h * Z.of_nat (length rs))).
Proof.
  intros Hh. unfold draw_wrapped, Rows.of_text.
  destruct (Layout.cols f w) as [width|e]; simpl; [|reflexivity].
  apply draw_paras_rows, Hh.
Qed.

Lemma of_paras_nonempty width paras rs :
  paras <> [] -> Rows.of_paras width paras = Ok rs -> rs <> [].
Proof.
  destruct paras as [|p paras]; [contradiction|]. intros _.
  cbn [Rows.of_paras]. unfold Rows.of_para.
  destruct (PyStr.blank p) eqn:B.
  - simpl. destruct (Rows.of_paras width paras); simpl; [|discriminate].
    intros H. inversion H. discriminate.
  - destruct (Textwrap.wrap p width) as [lines|e] eqn:W; simpl; [|discriminate].
    pose proof (wrap_nonempty p width lines B W) as Hl.
    destruct (Rows.of_paras width paras); simpl; [|discriminate].
    intros H. inversion H. destruct lines; [contradiction | discriminate].
Qed.

Lemma of_text_nonempty width text rs :
  Rows.of_text width text = Ok rs -> rs <> [].
Proof. apply of_paras_nonempty, split_nonempty. Qed.

(** When the line height cannot be computed nothing is laid out. *)
Lemma draw_paras_raise x f c ls e width paras d y :
  Layout.line_height f ls = Raise e -> paras <> [] ->
  exists e', draw_paras x f c ls width paras d y = Raise e'.
Proof.
  intros Hh. destruct paras as [|p paras]; [contradiction|]. intros _.
  cbn [draw_paras]. destruct (PyStr.blank p) eqn:B.
  - unfold advance. rewrite Hh. simpl. eauto.
  - destruct (Textwrap.wrap p width) as [lines|e0] eqn:W; simpl; [|eauto].
    pose proof (wrap_nonempty p width lines B W) as Hl.
    destruct lines as [|l lines]; [contradiction|].
    cbn [draw_lines]. unfold advance. rewrite Hh. simpl. eauto.
Qed.

(** What a call of [draw_wrapped] that returns has done. *)
Lemma draw_wrapped_inv d x y text f c w ls d' y' :
  draw_wrapped d (x, y) text f c w ls = Ok (d', y') ->
  exists width h rs,
    Layout.cols f w = Ok width
    /\ Layout.line_height f ls = Ok h
    /\ Rows.of_text width text = Ok rs
    /\ rs <> []
    /\ d' = d ++ Rows.place x f c h rs y
    /\ y' = y + h * Z.of_nat (length rs).
Proof.
  intros H.
  destruct (Layout.line_height f ls) as [h|e] eqn:Hh.
  - rewrite (draw_wrapped_rows d x y text f c w ls h Hh) in H.
    destruct (Layout.cols f w) as [width|] eqn:Hc; [|discriminate].
    simpl in H.
    destruct (Rows.of_text width text) as [rs|] eqn:Hr; [|discriminate].
    simpl in H. inversion H; subst.
    exists width, h, rs.
    do 2 (split; [reflexivity|]). split; [exact Hr|].
    split; [eapply of_text_nonempty; exact Hr|]. split; reflexivity.
  - unfold draw_wrapped in H.
    destruct (Layout.cols f w) as [width|]; [|discriminate]. simpl in H.
    destruct (draw_paras_raise x f c ls e width
                (PyStr.split PyStr.newline text) d y Hh
                (split_nonempty _ _)) as [e' He].
    rewrite He in H. discriminate.
Qed.

Lemma rows_a_blank_b width :
  1 <= width ->
  Rows.of_text width a_blank_b = Ok [Line (lit "A"); Blank; Line (lit "B")].
Proof.
  intros Hw. unfold Rows.of_text.
  change (PyStr.split PyStr.newline a_blank_b) with [lit "A"; []; lit "B"].
  cbn [Rows.of_paras]. unfold Rows.of_para.
  change (PyStr.blank (lit "A")) with false.
  change (PyStr.blank []) with true.
  change (PyStr.blank (lit "B")) with false.
  unfold Textwrap.wrap.
  change (Textwrap.split_chunks (lit "A")) with [lit "A"].
  change (Textwrap.split_chunks (lit "B")) with [lit "B"].
  rewrite !wrap_chunks_single by (try reflexivity; unfold PyStr.len; simpl; lia).
  reflexivity.
Qed.

End LayoutFacts.

(** A call of [draw_wrapped], from its column budget, its line height and
    its rows. *)
Lemma draw_wrapped_eval d x y text f c w ls width h rs :
  Layout.cols f w = Ok width ->
  Layout.line_height f ls = Ok h ->
  Rows.of_text width text = Ok rs ->
  Draw.draw_wrapped d (x, y) text f c w ls
  = Ok (d ++ Rows.place x f c h rs y, y + h * Z.of_nat (length rs)).
Proof.
  intros Hc Hh Hr. rewrite (draw_wrapped_rows d x y text f c w ls h Hh), Hc.
  cbn [bind]. rewrite Hr. reflexivity.
Qed.

(** Evaluates a call of [draw_wrapped] on sample inputs: the column
    budget, the line height and the rows are computed, the font is left
    as it is. *)
Ltac run_draw_wrapped :=
  lazymatch goal with
  | |- Draw.draw_wrapped ?d (?x, ?y) ?text ?f ?c ?w ?ls = _ =>
      let cw := eval vm_compute in (Layout.cols f w) in
      let ch := eval vm_compute in (Layout.line_height f ls) in
      lazymatch cw with
      | Ok ?width =>
          lazymatch ch with
          | Ok ?h =>
              let rs := eval vm_compute in (Rows.of_text width text) in
              lazymatch rs with
              | Ok ?rows =>
                  rewrite (draw_wrapped_eval d x y text f c w ls width h rows);
                  [reflexivity | vm_compute; reflexivity ..]
              end
          end
      end
  | |- _ => vm_compute; first [reflexivity | discriminate]
  end.

(** * The claims *)

(** ** Column budget *)

(** C1, as stated, fails: for a font whose average glyph is half a pixel
    wide the code divides by 1, not by the measured average, and gets 100
    columns for 100 pixels where the wording gives 200. *)
Lemma C1_average_below_one_pixel :
  Layout.cols Sample.narrow_font 100 = Ok 100
  /\ Spec.cols Sample.narrow_font 100 = Ok 200
  /\ Layout.cols Sample.narrow_font 100 <> Spec.cols Sample.narrow_font 100.
Proof.
  assert (H1 : Layout.cols Sample.narrow_font 100 = Ok 100)
    by (vm_compute; reflexivity).
  assert (H2 : Spec.cols Sample.narrow_font 100 = Ok 200)
    by (vm_compute; reflexivity).
  split; [exact H1|]. split; [exact H2|].
  rewrite H1, H2. discriminate.
Qed.

(** C1, amended: for every font and every positive [max_width_px] the
    wrap width is found by measuring the 52-character alphabet, dividing
    by 52, raising that average to 1 when it is smaller, dividing
    [max_width_px] by it, flooring, and taking the maximum with 20.  When
    the measured average is at least 1 this is the computation as
    worded. *)
Theorem C1_column_budget (f : font) (max_width_px : Z) :
  0 < max_width_px ->
  length Layout.alphabet = 52%nat
  /\ Layout.cols f max_width_px = Spec.cols_avg_at_least_1 f max_width_px
  /\ ((1 <=? getlength f Layout.alphabet / 52)%float = true ->
      Layout.cols f max_width_px = Spec.cols f max_width_px).
Proof.
  intros Hw. split; [reflexivity|]. split; [apply cols_floor, Hw|].
  intros Havg. rewrite (cols_floor f max_width_px Hw).
  unfold Spec.cols_avg_at_least_1, Spec.cols.
  rewrite (max_1_id _ Havg). reflexivity.
Qed.

Lemma C1_column_budget_witness :
  length Layout.alphabet = 52%nat
  /\ Layout.cols Sample.body_font 1884
     = Spec.cols_avg_at_least_1 Sample.body_font 1884
  /\ ((1 <=? getlength Sample.body_font Layout.alphabet / 52)%float = true ->
      Layout.cols Sample.body_font 1884 = Spec.cols Sample.body_font 1884).
Proof.
  apply (C1_column_budget Sample.body_font 1884). lia.
Defined.

(** C9, as stated, fails: with a width budget of 0 or of -5 pixels the
    code raises nothing; it takes 20 columns and draws the text. *)
Lemma C9_nonpositive_width_draws :
  Layout.cols Sample.body_font 0 = Ok 20
  /\ Draw.draw_wrapped [] (0, 0) (lit "A") Sample.body_font Sample.ink 0 0.25
     = Ok ([TextCall 0 0 (lit "A") Sample.body_font Sample.ink], 55)
  /\ Draw.draw_wrapped [] (0, 0) (lit "A") Sample.body_font Sample.ink (-5) 0.25
     = Ok ([TextCall 0 0 (lit "A") Sample.body_font Sample.ink], 55).
Proof. repeat split; run_draw_wrapped. Qed.

(** C9, amended: the column budget is never below 20, a non-positive
    [max_width_px] gives exactly 20 columns, and the only exceptions the
    computation of the budget can raise are those of the float
    conversions ([OverflowError], [ValueError]): there is no check of
    the dimension. *)
Theorem C9_budget_at_least_20 (f : font) (max_width_px : Z) :
  match Layout.cols f max_width_px with
  | Ok width => 20 <= width /\ (max_width_px <= 0 -> width = 20)
  | Raise e => e = OverflowError \/ e = ValueError
  end.
Proof. apply cols_cases. Qed.

(** ** Vertical advance *)

Section RowFacts.

Lemma place_length x f c h rs y :
  length (Rows.place x f c h rs y) = Rows.line_count rs.
Proof.
  revert y. unfold Rows.line_count.
  induction rs as [|r rs IH]; intros y; [reflexivity|].
  destruct r; cbn [Rows.place filter Rows.is_line length]; now rewrite IH.
Qed.

Lemma place_nth x f c h rs :
  forall y i s,
    nth_error rs i = Some (Line s) ->
    In (TextCall x (y + h * Z.of_nat i) s f c) (Rows.place x f c h rs y).
Proof.
  induction rs as [|r rs IH]; intros y i s H; [destruct i; discriminate|].
  destruct i as [|i].
  - cbn [nth_error] in H. inversion H; subst. cbn [Rows.place].
    left. f_equal. lia.
  - cbn [nth_error] in H.
    replace (y + h * Z.of_nat (S i)) with (y + h + h * Z.of_nat i) by lia.
    destruct r; cbn [Rows.place]; [|right]; now apply IH.
Qed.

Lemma place_width x f c h width rs :
  Forall (fun r => match r with
                   | Line s => PyStr.len s <= width
                   | Blank => True
                   end) rs ->
  forall y,
    Forall (fun t => PyStr.len (content t) <= width) (Rows.place x f c h rs y).
Proof.
  induction 1 as [|r rs Hr _ IH]; intros y; [constructor|].
  destruct r; cbn [Rows.place]; [apply IH|].
  constructor; [exact Hr | apply IH].
Qed.

Lemma of_paras_width width paras :
  forall rs,
    Rows.of_paras width paras = Ok rs ->
    Forall (fun r => match r with
                     | Line s => PyStr.len s <= width
                     | Blank => True
                     end) rs.
Proof.
  induction paras as [|p paras IH]; intros rs H.
  - inversion H. constructor.
  - cbn [Rows.of_paras] in H. unfold Rows.of_para in H.
    destruct (PyStr.blank p).
    + cbn [bind] in H.
      destruct (Rows.of_paras width paras) as [rs0|]; [|discriminate].
      inversion H; subst. constructor; [exact I | now apply IH].
    + destruct (Textwrap.wrap p width) as [lines|] eqn:W; [|discriminate].
      cbn [bind] in H.
      destruct (Rows.of_paras width paras) as [rs0|]; [|discriminate].
      inversion H; subst. apply Forall_app. split; [|now apply IH].
      apply wrap_width in W. apply Forall_map. exact W.
Qed.

End RowFacts.

(** C2, as stated, fails: with the page's body font (size 44) and the
    spacing ratio 0.2 the product is 52.8; the code advances by 52, the
    nearest integer is 53. *)
Lemma C2_advance_is_truncated :
  Layout.line_height Sample.body_font Sample.one_fifth = Ok 52
  /\ Spec.line_height Sample.body_font Sample.one_fifth = Ok 53
  /\ Draw.draw_wrapped [] (297, 771) (lit "A") Sample.body_font Sample.ink
       1884 Sample.one_fifth
     = Ok ([TextCall 297 771 (lit "A") Sample.body_font Sample.ink], 771 + 52).
Proof. repeat split; run_draw_wrapped. Qed.

(** C2, amended: every emitted line and every blank paragraph advances
    [y] by [int(font.size * (1.0 + line_spacing))], the product truncated
    toward zero; a blank paragraph advances by this same amount and draws
    nothing.  So a call that returns has drawn one text per line row, the
    row of index [i] at [y + i * h], and returns [y] plus [h] per row. *)
Theorem C2_vertical_advance d x y text f c max_width_px line_spacing d' y' :
  Draw.draw_wrapped d (x, y) text f c max_width_px line_spacing = Ok (d', y') ->
  exists width h rs,
    Layout.cols f max_width_px = Ok width
    /\ (p <- Py.mul_int_float (size f) (1 + line_spacing)%float ;;
        Py.int_of_float p) = Ok h
    /\ Rows.of_text width text = Ok rs
    /\ y' = y + h * Z.of_nat (length rs)
    /\ d' = d ++ Rows.place x f c h rs y
    /\ length d' = (length d + Rows.line_count rs)%nat
    /\ forall i s,
         nth_error rs i = Some (Line s) ->
         In (TextCall x (y + h * Z.of_nat i) s f c) d'.
Proof.
  intros H. apply draw_wrapped_inv in H.
  destruct H as (width & h & rs & Hc & Hh & Hr & _ & Hd & Hy).
  exists width, h, rs.
  split; [exact Hc|]. split; [exact Hh|]. split; [exact Hr|].
  split; [exact Hy|]. split; [exact Hd|]. subst d'. split.
  - rewrite length_app, place_length. reflexivity.
  - intros i s Hi. apply in_or_app. right. now apply place_nth.
Qed.

Lemma C2_vertical_advance_witness :
  exists width h rs,
    Layout.cols Sample.body_font 1884 = Ok width
    /\ (p <- Py.mul_int_float (size Sample.body_font)
              (1 + Sample.one_fifth)%float ;;
        Py.int_of_float p) = Ok h
    /\ Rows.of_text width Sample.a_blank_b = Ok rs
    /\ 771 + 3 * 52 = 771 + h * Z.of_nat (length rs)
    /\ [TextCall 297 771 (lit "A") Sample.body_font Sample.ink;
        TextCall 297 (771 + 2 * 52) (lit "B") Sample.body_font Sample.ink]
       = [] ++ Rows.place 297 Sample.body_font Sample.ink h rs 771
    /\ length [TextCall 297 771 (lit "A") Sample.body_font Sample.ink;
               TextCall 297 (771 + 2 * 52) (lit "B") Sample.body_font
                 Sample.ink]
       = (length (@nil text_call) + Rows.line_count rs)%nat
    /\ forall i s,
         nth_error rs i = Some (Line s) ->
         In (TextCall 297 (771 + h * Z.of_nat i) s Sample.body_font Sample.ink)
            [TextCall 297 771 (lit "A") Sample.body_font Sample.ink;
             TextCall 297 (771 + 2 * 52) (lit "B") Sample.body_font Sample.ink].
Proof.
  apply (C2_vertical_advance [] 297 771 Sample.a_blank_b Sample.body_font
           Sample.ink 1884 Sample.one_fifth).
  run_draw_wrapped.
Defined.

(** C5, as stated, fails: on the empty string the page's body font moves
    the cursor from 771 to 823; the empty string is one blank paragraph. *)
Lemma C5_empty_text_advances :
  Draw.draw_wrapped [] (297, 771) [] Sample.body_font Sample.ink 1884
    Sample.one_fifth = Ok ([], 771 + 52)
  /\ Draw.draw_wrapped [] (297, 771) [] Sample.body_font Sample.ink 1884
       Sample.one_fifth <> Ok ([], 771).
Proof.
  assert (H : Draw.draw_wrapped [] (297, 771) [] Sample.body_font Sample.ink
                1884 Sample.one_fifth = Ok ([], 771 + 52))
    by (vm_compute; reflexivity).
  split; [exact H|]. rewrite H. intros E. inversion E.
Qed.

(** C5, amended: on the empty string [draw_wrapped] draws nothing and
    returns the start [y] plus one line height, the empty string being
    one blank paragraph; it raises what the column budget or the line
    height raise. *)
Theorem C5_empty_text d x y f c max_width_px line_spacing :
  Draw.draw_wrapped d (x, y) [] f c max_width_px line_spacing =
  (width <- Layout.cols f max_width_px ;;
   h <- Layout.line_height f line_spacing ;;
   Ok (d, y + h)).
Proof.
  unfold Draw.draw_wrapped.
  destruct (Layout.cols f max_width_px) as [width|e]; [|reflexivity].
  cbn [bind PyStr.split Draw.draw_paras].
  change (PyStr.blank []) with true. cbv iota. unfold Draw.advance.
  destruct (Layout.line_height f line_spacing); reflexivity.
Qed.

(** C3: for every column budget, the text of the paragraph [A], a blank
    line and the paragraph [B] is laid out as three rows, the line [A],
    one blank row and the line [B]: [B] is drawn two line heights below
    [A] and the cursor returned is three line heights below the start. *)
Theorem C3_blank_line_kept (width : Z) :
  1 <= width ->
  Rows.of_text width Sample.a_blank_b
  = Ok [Line (lit "A"); Blank; Line (lit "B")]
  /\ forall d x y f c max_width_px line_spacing h,
       Layout.cols f max_width_px = Ok width ->
       Layout.line_height f line_spacing = Ok h ->
       Draw.draw_wrapped d (x, y) Sample.a_blank_b f c max_width_px
         line_spacing
       = Ok (d ++ [TextCall x y (lit "A") f c;
                   TextCall x (y + 2 * h) (lit "B") f c],
             y + 3 * h).
Proof.
  intros Hw. split; [apply rows_a_blank_b, Hw|].
  intros d x y f c w ls h Hc Hh.
  rewrite (draw_wrapped_rows d x y Sample.a_blank_b f c w ls h Hh), Hc.
  cbn [bind]. rewrite (rows_a_blank_b width Hw). cbn [bind Rows.place length].
  replace (y + h + h) with (y + 2 * h) by lia.
  replace (y + h * Z.of_nat 3) with (y + 3 * h) by lia.
  reflexivity.
Qed.

Lemma C3_blank_line_kept_witness :
  Rows.of_text 72 Sample.a_blank_b = Ok [Line (lit "A"); Blank; Line (lit "B")]
  /\ Draw.draw_wrapped [] (297, 771) Sample.a_blank_b Sample.body_font
       Sample.ink 1884 Sample.one_fifth
     = Ok ([] ++ [TextCall 297 771 (lit "A") Sample.body_font Sample.ink;
                  TextCall 297 (771 + 2 * 52) (lit "B") Sample.body_font
                    Sample.ink],
           771 + 3 * 52).
Proof.
  assert (H : 1 <= 72) by lia.
  split.
  - exact (proj1 (C3_blank_line_kept 72 H)).
  - apply (proj2 (C3_blank_line_kept 72 H)
             [] 297 771 Sample.body_font Sample.ink 1884 Sample.one_fifth 52);
      vm_compute; reflexivity.
Defined.

(** C10, as stated, fails: with a spacing ratio of -2 the line height of
    a size 10 font is -10, and one line moves the cursor from 100 up to
    90, above the start. *)
Lemma C10_negative_line_height :
  Layout.line_height Sample.unit_font (-2) = Ok (-10)
  /\ Draw.draw_wrapped [] (0, 100) (lit "A") Sample.unit_font Sample.ink 2000 (-2)
     = Ok ([TextCall 0 100 (lit "A") Sample.unit_font Sample.ink], 90)
  /\ 90 < 100.
Proof. repeat split; run_draw_wrapped. Qed.

(** C10, amended: the cursor returned is the start [y] plus [k] times
    [int(font.size * (1.0 + line_spacing))] for a natural number [k]; it
    is not above the start whenever that line height is not negative;
    and the advance is the same whatever the start position and the
    surface drawn on. *)
Theorem C10_cursor d x y text f c max_width_px line_spacing d' y' :
  Draw.draw_wrapped d (x, y) text f c max_width_px line_spacing = Ok (d', y') ->
  exists (k : nat) (h : Z),
    Layout.line_height f line_spacing = Ok h
    /\ y' = y + Z.of_nat k * h
    /\ (0 <= h -> y <= y')
    /\ forall d0 x0 y0, exists d0',
         Draw.draw_wrapped d0 (x0, y0) text f c max_width_px line_spacing
         = Ok (d0', y0 + Z.of_nat k * h).
Proof.
  intros H. apply draw_wrapped_inv in H.
  destruct H as (width & h & rs & Hc & Hh & Hr & _ & Hd & Hy).
  exists (length rs), h.
  split; [exact Hh|]. split; [lia|]. split; [nia|].
  intros d0 x0 y0. exists (d0 ++ Rows.place x0 f c h rs y0).
  rewrite (draw_wrapped_rows d0 x0 y0 text f c max_width_px line_spacing h Hh).
  rewrite Hc. cbn [bind]. rewrite Hr. cbn [bind].
  do 2 f_equal. lia.
Qed.

Lemma C10_cursor_witness :
  exists (k : nat) (h : Z),
    Layout.line_height Sample.body_font Sample.one_fifth = Ok h
    /\ 771 + 3 * 52 = 771 + Z.of_nat k * h
    /\ (0 <= h -> 771 <= 771 + 3 * 52)
    /\ forall d0 x0 y0, exists d0',
         Draw.draw_wrapped d0 (x0, y0) Sample.a_blank_b Sample.body_font
           Sample.ink 1884 Sample.one_fifth
         = Ok (d0', y0 + Z.of_nat k * h).
Proof.
  apply (C10_cursor [] 297 771 Sample.a_blank_b Sample.body_font Sample.ink
           1884 Sample.one_fifth
           [TextCall 297 771 (lit "A") Sample.body_font Sample.ink;
            TextCall 297 (771 + 2 * 52) (lit "B") Sample.body_font Sample.ink]).
  run_draw_wrapped.
Defined.

(** ** Greedy wrap *)

(** C4, as stated, fails: at 20 columns a word of thirty letters is not
    kept whole on a line of its own but cut after its twentieth letter. *)
Lemma C4_long_word_is_broken :
  Layout.cols Sample.unit_font 20 = Ok 20
  /\ Draw.draw_wrapped [] (0, 0) Sample.long_word Sample.unit_font Sample.ink
       20 0.25
     = Ok ([TextCall 0 0 (Sample.letters "a" 20) Sample.unit_font Sample.ink;
            TextCall 0 12 (Sample.letters "a" 10) Sample.unit_font Sample.ink],
           24)
  /\ ~ In Sample.long_word
         [Sample.letters "a" 20; Sample.letters "a" 10].
Proof.
  split; [run_draw_wrapped|]. split; [run_draw_wrapped|].
  intros [H | [H | []]]; vm_compute in H; discriminate H.
Qed.

(** C4, amended: no emitted line is longer than the column budget, with
    no exception for long words: a word longer than the budget is broken
    across lines. *)
Theorem C4_line_width d x y text f c max_width_px line_spacing d' y' width :
  Layout.cols f max_width_px = Ok width ->
  Draw.draw_wrapped d (x, y) text f c max_width_px line_spacing = Ok (d', y') ->
  exists calls,
    d' = d ++ calls
    /\ Forall (fun t => PyStr.len (content t) <= width) calls.
Proof.
  intros Hc H. apply draw_wrapped_inv in H.
  destruct H as (width' & h & rs & Hc' & _ & Hr & _ & Hd & _).
  rewrite Hc in Hc'. inversion Hc'; subst width'.
  exists (Rows.place x f c h rs y). split; [exact Hd|].
  apply place_width. eapply of_paras_width. exact Hr.
Qed.

Lemma C4_line_width_witness :
  exists calls,
    [TextCall 0 0 (Sample.letters "a" 20) Sample.unit_font Sample.ink;
     TextCall 0 12 (Sample.letters "a" 10) Sample.unit_font Sample.ink]
    = [] ++ calls
    /\ Forall (fun t => PyStr.len (content t) <= 20) calls.
Proof.
  apply (C4_line_width [] 0 0 Sample.long_word Sample.unit_font Sample.ink
           20 0.25%float _ 24 20); run_draw_wrapped.
Defined.

(** ** Width budget and number of lines *)

Section CountFacts.

Lemma line_count_app a b :
  Rows.line_count (a ++ b) = (Rows.line_count a + Rows.line_count b)%nat.
Proof. unfold Rows.line_count. now rewrite filter_app, length_app. Qed.

Lemma line_count_lines lines :
  Rows.line_count (map Line lines) = length lines.
Proof.
  unfold Rows.line_count.
  induction lines as [|l lines IH]; [reflexivity|].
  cbn [map filter Rows.is_line length]. now rewrite IH.
Qed.

Lemma wrap_monotone w w' para l l' :
  1 <= w -> w <= w' -> Textwrap.plain w para = true ->
  Textwrap.wrap para w = Ok l -> Textwrap.wrap para w' = Ok l' ->
  (length l' <= length l)%nat.
Proof.
  intros Hw Hww Hp. unfold Textwrap.plain in Hp.
  apply andb_true_iff in Hp. destruct Hp as [Hp Hs].
  apply andb_true_iff in Hp. destruct Hp as [Hf Hb].
  unfold Textwrap.wrap.
  now apply wrap_chunks_monotone.
Qed.

Lemma of_paras_monotone w w' paras :
  1 <= w -> w <= w' ->
  forallb (fun p => (PyStr.blank p || Textwrap.plain w p)%bool) paras = true ->
  forall rs rs',
    Rows.of_paras w paras = Ok rs -> Rows.of_paras w' paras = Ok rs' ->
    (Rows.line_count rs' <= Rows.line_count rs)%nat.
Proof.
  intros Hw Hww. induction paras as [|p paras IH]; intros Hp rs rs' H H'.
  - inversion H; inversion H'; subst. reflexivity.
  - cbn [forallb] in Hp. apply andb_true_iff in Hp. destruct Hp as [Hp Hps].
    cbn [Rows.of_paras] in H, H'. unfold Rows.of_para in H, H'.
    destruct (PyStr.blank p) eqn:B.
    + cbn [bind] in H, H'.
      destruct (Rows.of_paras w paras) as [r|]; [|discriminate].
      destruct (Rows.of_paras w' paras) as [r'|]; [|discriminate].
      inversion H; inversion H'; subst.
      specialize (IH Hps r r' eq_refl eq_refl).
      unfold Rows.line_count in *. cbn [app filter Rows.is_line]. exact IH.
    + cbn [orb] in Hp.
      destruct (Textwrap.wrap p w) as [l|] eqn:W; [|discriminate].
      destruct (Textwrap.wrap p w') as [l'|] eqn:W'; [|discriminate].
      cbn [bind] in H, H'.
      destruct (Rows.of_paras w paras) as [r|]; [|discriminate].
      destruct (Rows.of_paras w' paras) as [r'|]; [|discriminate].
      inversion H; inversion H'; subst.
      rewrite !line_count_app, !line_count_lines.
      specialize (IH Hps r r' eq_refl eq_refl).
      pose proof (wrap_monotone w w' p l l' Hw Hww Hp W W'). lia.
Qed.

End CountFacts.

(** C6, as stated, fails: with glyphs one pixel wide, the text
    [a bbbbbbbbbbbbbbbbbbbbb c] takes two lines at a width budget of 20
    pixels (the long word is cut to fill the first line) and three lines
    at 21 pixels (the word now fits a line of its own and is moved
    whole). *)
Lemma C6_wider_budget_more_lines :
  Layout.cols Sample.unit_font 20 = Ok 20
  /\ Layout.cols Sample.unit_font 21 = Ok 21
  /\ Draw.draw_wrapped [] (0, 0) Sample.a_b21_c Sample.unit_font Sample.ink
       20 0.25
     = Ok ([TextCall 0 0 (lit "a " ++ Sample.letters "b" 18) Sample.unit_font
              Sample.ink;
            TextCall 0 12 (lit "bbb c") Sample.unit_font Sample.ink],
           24)
  /\ Draw.draw_wrapped [] (0, 0) Sample.a_b21_c Sample.unit_font Sample.ink
       21 0.25
     = Ok ([TextCall 0 0 (lit "a") Sample.unit_font Sample.ink;
            TextCall 0 12 (Sample.letters "b" 21) Sample.unit_font Sample.ink;
            TextCall 0 24 (lit "c") Sample.unit_font Sample.ink],
           36).
Proof. repeat split; run_draw_wrapped. Qed.

(** The two other conditions of the amended C6 are needed as well: a
    paragraph that begins with whitespace, and one with two blank chunks
    in a row, can take more lines at 21 columns than at 20. *)
Example indented_paragraph_more_lines :
  option_map (@length str)
    (match Textwrap.wrap Sample.indented 20 with Ok l => Some l | _ => None end)
  = Some 2%nat
  /\ option_map (@length str)
       (match Textwrap.wrap Sample.indented 21 with Ok l => Some l | _ => None end)
     = Some 3%nat.
Proof. split; vm_compute; reflexivity. Qed.

Example blank_pair_more_lines :
  option_map (@length str)
    (match Textwrap.wrap Sample.no_break 20 with Ok l => Some l | _ => None end)
  = Some 1%nat
  /\ option_map (@length str)
       (match Textwrap.wrap Sample.no_break 21 with Ok l => Some l | _ => None end)
     = Some 2%nat.
Proof. split; vm_compute; reflexivity. Qed.

(** C6, amended: for a fixed font and text, and width budgets whose
    column budgets are [c1 <= c2], the number of lines drawn at the
    second budget is at most the number drawn at the first, provided
    every paragraph of the text that is not blank is plain at [c1]: it
    does not begin with whitespace, none of its chunks (words, parts of
    hyphenated words, runs of whitespace) is longer than [c1], and no two
    chunks in a row are blank (as in all ordinary text, see
    [ordinary_no_blank_pair]). *)
Theorem C6_wider_never_more_lines
  d x y text f c line_spacing w1 w2 c1 c2 d1 y1 d2 y2 :
  Layout.cols f w1 = Ok c1 ->
  Layout.cols f w2 = Ok c2 ->
  c1 <= c2 ->
  Rows.plain_text c1 text = true ->
  Draw.draw_wrapped d (x, y) text f c w1 line_spacing = Ok (d1, y1) ->
  Draw.draw_wrapped d (x, y) text f c w2 line_spacing = Ok (d2, y2) ->
  (length d2 <= length d1)%nat.
Proof.
  intros Hc1 Hc2 Hle Hp H1 H2.
  apply draw_wrapped_inv in H1. apply draw_wrapped_inv in H2.
  destruct H1 as (c1' & h1 & rs1 & Hc1' & _ & Hr1 & _ & -> & _).
  destruct H2 as (c2' & h2 & rs2 & Hc2' & _ & Hr2 & _ & -> & _).
  rewrite Hc1 in Hc1'. rewrite Hc2 in Hc2'.
  inversion Hc1'; inversion Hc2'; subst c1' c2'.
  rewrite !length_app, !place_length.
  pose proof (cols_at_least_20 f w1 c1 Hc1) as H20.
  assert (Rows.line_count rs2 <= Rows.line_count rs1)%nat; [|lia].
  eapply (of_paras_monotone c1 c2); eauto. lia.
Qed.

Lemma C6_wider_never_more_lines_witness :
  (length [TextCall 0 0 Sample.a_b21_c Sample.unit_font Sample.ink]
   <= length [TextCall 0 0 (lit "a") Sample.unit_font Sample.ink;
              TextCall 0 12 (Sample.letters "b" 21) Sample.unit_font Sample.ink;
              TextCall 0 24 (lit "c") Sample.unit_font Sample.ink])%nat.
Proof.
  apply (C6_wider_never_more_lines [] 0 0 Sample.a_b21_c Sample.unit_font
           Sample.ink 0.25%float 21 30 21 30 _ 36 _ 12);
    run_draw_wrapped.
Defined.

(** ** Parchment noise *)

Section NoiseFacts.

Variable bitgen : Type.
Variable seeded : Z -> bitgen.
Variable integers : Z -> Z -> nat -> bitgen -> list Z * bitgen.

Lemma nth_error_fresh (h : list bitgen) (g : bitgen) :
  nth_error (h ++ [g]) (length h) = Some g.
Proof. induction h as [|g0 h IH]; [reflexivity | exact IH]. Qed.

(** The field drawn by a call is the one its own, new generator gives:
    the generators already alive play no part. *)
Lemma noise_field_values seed width height low high (h : list bitgen) :
  fst (Parchment.noise_field seeded integers seed width height low high h)
  = fst (integers low high (height * width * 3) (seeded seed)).
Proof.
  unfold Parchment.noise_field, Parchment.default_rng, Parchment.rng_integers.
  rewrite nth_error_fresh.
  now destruct (integers low high (height * width * 3) (seeded seed)).
Qed.

Lemma texture_values seed width height low high (h : list bitgen) :
  fst (Parchment.texture seeded integers seed width height low high h)
  = Parchment.add_arrays (Parchment.base_array (height * width))
      (fst (integers low high (height * width * 3) (seeded seed))).
Proof.
  unfold Parchment.texture.
  rewrite <- (noise_field_values seed width height low high h).
  now destruct (Parchment.noise_field seeded integers seed width height low
                  high h).
Qed.

End NoiseFacts.

(** The model runs: with the toy generator, two renders of a strip four
    pixels wide and one pixel high, one after the other, give the same
    twelve channel values. *)
Example texture_sample :
  let first := Parchment.texture (fun seed => seed) Sample.count_up
                 7 4 1 (-12) 12 [] in
  let second := Parchment.texture (fun seed => seed) Sample.count_up
                  7 4 1 (-12) 12 (snd first) in
  fst first = [233; 223; 200; 236; 226; 203; 239; 229; 206; 242; 232; 209]
  /\ fst second = fst first
  /\ length (snd second) = 2%nat.
Proof. vm_compute. repeat split. Qed.

(** C7: two calls with the same seed, size and bounds, the second made
    in the state the first has left, return the same noise field, and so
    the same noisy texture: each call draws from a generator of its own,
    made from the seed. *)
Theorem C7_noise_repeatable
  (bitgen : Type) (seeded : Z -> bitgen)
  (integers : Z -> Z -> nat -> bitgen -> list Z * bitgen)
  (seed : Z) (width height : nat) (low high : Z) (h : list bitgen) :
  fst (Parchment.noise_field seeded integers seed width height low high h)
  = fst (Parchment.noise_field seeded integers seed width height low high
           (snd (Parchment.noise_field seeded integers seed width height
                   low high h)))
  /\ fst (Parchment.texture seeded integers seed width height low high h)
     = fst (Parchment.texture seeded integers seed width height low high
              (snd (Parchment.texture seeded integers seed width height
                      low high h))).
Proof.
  split.
  - now rewrite !noise_field_values.
  - now rewrite !texture_values.
Qed.

(** C8: for a base channel value [b] in [0, 255] and a perturbation [p]
    from a generator bounded as in the scripts (the bounds are -12 and
    12, or -10 and 10; any bounds from -32768 to 32513 do), the channel
    after the noise is added is [clamp(b + p, 0, 255)]: neither the
    16-bit sum nor the cast to 8 bits wraps around. *)
Theorem C8_add_noise_saturates (low high b p : Z) :
  -32768 <= low -> high <= 32513 ->
  0 <= b <= 255 -> low <= p < high ->
  Parchment.add_noise b p = Spec.clamp (b + p) 0 255
  /\ 0 <= Parchment.add_noise b p <= 255.
Proof.
  intros Hlow Hhigh Hb Hp.
  unfold Parchment.add_noise, Parchment.wrap_int16, Parchment.clip,
    Parchment.to_uint8, Spec.clamp.
  rewrite (Z.mod_small (b + p + 32768)) by lia.
  replace (b + p + 32768 - 32768) with (b + p) by lia.
  rewrite Z.mod_small by lia.
  destruct (b + p <? 0) eqn:E1; [apply Z.ltb_lt in E1; lia|].
  apply Z.ltb_ge in E1.
  destruct (255 <? b + p) eqn:E2;
    [apply Z.ltb_lt in E2 | apply Z.ltb_ge in E2]; lia.
Qed.

Lemma C8_add_noise_saturates_witness :
  Parchment.add_noise 238 11 = Spec.clamp (238 + 11) 0 255
  /\ 0 <= Parchment.add_noise 238 11 <= 255.
Proof.
  apply (C8_add_noise_saturates (-12) 12 238 11); lia.
Defined.

(** ** What wrapping keeps *)

Section KeepFacts.
Import PyStr Textwrap Wrapping Glyphs.

Lemma visible_app a b : visible (a ++ b) = visible a ++ visible b.
Proof. apply filter_app. Qed.

Lemma visible_cons c s :
  visible (c :: s) = if isspace c then visible s else c :: visible s.
Proof. unfold visible. cbn [filter]. now destruct (isspace c). Qed.

Lemma visible_blank s : blank s = true -> visible s = [].
Proof.
  rewrite blank_spec. unfold visible.
  induction s as [|c s IH]; [reflexivity|].
  cbn [forallb filter]. intros H. apply andb_prop in H as [Hc Hs].
  rewrite Hc. cbn [negb]. apply IH, Hs.
Qed.

Lemma visible_drop_last_blank l :
  visible (concat (drop_last_blank l)) = visible (concat l).
Proof.
  destruct (drop_last_blank_cases l) as [-> | (c & Hc & E)]; [reflexivity|].
  rewrite E at 2. rewrite concat_snoc, visible_app, (visible_blank c Hc).
  now rewrite app_nil_r.
Qed.

Lemma visible_pre (pre : list str) has_lines :
  (pre = [] \/ has_lines = true /\ exists c, pre = [c] /\ blank c = true) ->
  visible (concat pre) = [].
Proof.
  intros [-> | (_ & c & -> & Hc)]; [reflexivity|].
  cbn [concat]. rewrite app_nil_r. apply visible_blank, Hc.
Qed.

(** A pass of the outer loop moves the visible characters of the stack
    to the line, in their order. *)
Lemma pass_visible width has_lines chunks line chunks' :
  pass width has_lines chunks line chunks' ->
  visible (concat chunks) = visible (concat line) ++ visible (concat chunks').
Proof.
  intros [pre taken n E Hpre _ _ ->
         | pre taken n c rest e E Hpre _ _ _ -> ->].
  - rewrite E, !concat_app, !visible_app, (visible_pre pre has_lines Hpre).
    now rewrite visible_drop_last_blank.
  - rewrite E, !concat_app, !visible_app, (visible_pre pre has_lines Hpre).
    rewrite visible_drop_last_blank, concat_snoc, visible_app.
    cbn [concat app]. rewrite !visible_app, <- !app_assoc. f_equal.
    rewrite app_assoc, <- (visible_app (firstn e c)), (firstn_skipn e c).
    reflexivity.
Qed.

Lemma wrap_loop_visible width :
  1 <= width ->
  forall n has_lines chunks,
    (passes chunks <= n)%nat ->
    visible (concat (wrap_loop n width has_lines chunks))
    = visible (concat chunks).
Proof.
  intros Hw. induction n as [|n IH]; intros has_lines chunks Hn.
  - destruct chunks as [|c rest]; [reflexivity|].
    pose proof (passes_pos c rest). lia.
  - destruct chunks as [|c rest]; [reflexivity|].
    cbn [wrap_loop].
    destruct (next_line width has_lines (c :: rest)) as [line chunks'] eqn:E.
    pose proof (next_line_pass _ _ _ _ _ E) as P.
    assert (Hne : c :: rest <> []) by discriminate.
    pose proof (next_line_passes _ _ _ _ _ Hw Hne E) as D.
    rewrite (pass_visible _ _ _ _ _ P).
    destruct line as [|l line].
    + rewrite IH by lia. reflexivity.
    + cbn [concat]. rewrite visible_app, IH by lia. reflexivity.
Qed.

Lemma expandtabs_visible tabsize s :
  forall col, visible (expandtabs_from tabsize col s) = visible s.
Proof.
  induction s as [|c s IH]; intros col; [reflexivity|].
  cbn [expandtabs_from].
  destruct (is_char tab c) eqn:T.
  - assert (Hc : isspace c = true).
    { unfold is_char in T. apply N.eqb_eq in T.
      unfold isspace, in_range. rewrite <- T. reflexivity. }
    unfold visible at 2. cbn [filter]. rewrite Hc. cbn [negb].
    fold (visible s).
    destruct tabsize as [|t]; [apply IH|].
    rewrite visible_app, IH.
    replace (visible (repeat space _)) with (@nil ascii); [reflexivity|].
    symmetry. generalize (S t - Nat.modulo col (S t))%nat as k.
    induction k as [|k IHk]; [reflexivity | exact IHk].
  - destruct (is_char newline c || is_char cr c)%bool;
      unfold visible; cbn [filter]; fold (visible s);
      destruct (negb (isspace c)); unfold visible in IH; now rewrite IH.
Qed.

Lemma munge_visible text : visible (munge_whitespace text) = visible text.
Proof.
  unfold munge_whitespace. rewrite <- (expandtabs_visible 8 text 0).
  unfold expandtabs. generalize (expandtabs_from 8 0 text) as s.
  induction s as [|c s IH]; [reflexivity|].
  unfold visible in *. cbn [map filter]. rewrite IH.
  destruct (whitespace c) eqn:W; [|reflexivity].
  rewrite (whitespace_isspace c W). reflexivity.
Qed.

(** [textwrap.wrap] keeps the visible characters of the paragraph, in
    their order. *)
Lemma wrap_visible para width lines :
  wrap para width = Ok lines -> visible (concat lines) = visible para.
Proof.
  unfold wrap, wrap_chunks. destruct (width <=? 0) eqn:W; [discriminate|].
  apply Z.leb_gt in W. intros [= <-].
  rewrite wrap_loop_visible by lia.
  unfold split_chunks, split. rewrite split_from_concat by lia.
  apply munge_visible.
Qed.

Lemma split_visible text :
  concat (map visible (PyStr.split newline text)) = visible text.
Proof.
  induction text as [|c text IH]; [reflexivity|].
  cbn [PyStr.split]. destruct (is_char newline c) eqn:N.
  - cbn [map concat]. rewrite IH, visible_cons.
    assert (Hc : isspace c = true).
    { unfold is_char in N. apply N.eqb_eq in N.
      unfold isspace, in_range. rewrite <- N. reflexivity. }
    rewrite Hc. reflexivity.
  - destruct (PyStr.split newline text) as [|p ps] eqn:E.
    + exfalso. exact (split_nonempty _ _ E).
    + cbn [map concat] in *. rewrite !visible_cons, <- IH.
      destruct (isspace c); reflexivity.
Qed.

Lemma place_content x f c h rs :
  forall y,
    concat (map content (Rows.place x f c h rs y))
    = concat (map (fun r => match r with Line s => s | Blank => [] end) rs).
Proof.
  induction rs as [|[|s] rs IH]; intros y; cbn [Rows.place map concat].
  - reflexivity.
  - apply IH.
  - cbn [content]. now rewrite IH.
Qed.

Lemma of_paras_visible width paras :
  forall rs,
    Rows.of_paras width paras = Ok rs ->
    visible (concat (map (fun r => match r with Line s => s | Blank => [] end)
                         rs))
    = concat (map visible paras).
Proof.
  induction paras as [|p paras IH]; intros rs.
  - intros [= <-]. reflexivity.
  - cbn [Rows.of_paras]. unfold Rows.of_para.
    destruct (blank p) eqn:B.
    + cbn [bind]. destruct (Rows.of_paras width paras) as [rs'|]; [|discriminate].
      cbn [bind]. intros [= <-]. cbn [app map concat].
      rewrite (IH rs' eq_refl), (visible_blank p B). reflexivity.
    + destruct (wrap p width) as [lines|] eqn:Wp; [|discriminate].
      cbn [bind]. destruct (Rows.of_paras width paras) as [rs'|]; [|discriminate].
      cbn [bind]. intros [= <-].
      rewrite map_app, concat_app, visible_app, (IH rs' eq_refl).
      rewrite map_map, map_id, (wrap_visible _ _ _ Wp). reflexivity.
Qed.

Lemma draws_visible d x y text f c max_width_px line_spacing d' y' :
  Draw.draw_wrapped d (x, y) text f c max_width_px line_spacing = Ok (d', y') ->
  exists calls,
    d' = d ++ calls
    /\ visible (concat (map content calls)) = visible text.
Proof.
  intros H. apply draw_wrapped_inv in H.
  destruct H as (width & h & rs & _ & _ & Hr & _ & -> & _).
  eexists. split; [reflexivity|].
  rewrite place_content, (of_paras_visible _ _ _ Hr).
  apply split_visible.
Qed.

End KeepFacts.

(** X5: the lines [draw_wrapped] draws spell the visible characters of the
    text, all of them and in their order: wrapping drops and rewrites
    white space only. *)
Theorem X5_draws_all_visible d x y text f c max_width_px line_spacing d' y' :
  Draw.draw_wrapped d (x, y) text f c max_width_px line_spacing = Ok (d', y') ->
  exists calls,
    d' = d ++ calls
    /\ Glyphs.visible (concat (map content calls)) = Glyphs.visible text.
Proof. apply draws_visible. Qed.

(** ** Lines are never empty *)

Section NonEmptyFacts.
Import PyStr Textwrap Wrapping.

Lemma split_from_chunks_nonempty fuel :
  forall before rest, Forall (fun c => c <> []) (split_from fuel before rest).
Proof.
  induction fuel as [|fuel IH]; intros before rest; [constructor|].
  destruct rest as [|c rest]; [constructor|].
  cbn [split_from]. constructor; [|apply IH].
  pose proof (match_len_pos before c rest) as P.
  destruct (match_len before (c :: rest)); [lia | discriminate].
Qed.

Lemma drop_last_blank_Forall (P : str -> Prop) l :
  Forall P l -> Forall P (drop_last_blank l).
Proof.
  intros H. destruct (drop_last_blank_cases l) as [-> | (c & _ & E)]; [exact H|].
  rewrite E in H. apply Forall_app in H. apply H.
Qed.

Lemma drop_last_blank_empty_piece l : drop_last_blank (l ++ [[]]) = l.
Proof.
  unfold drop_last_blank. rewrite rev_app_distr. cbn [rev app].
  change (blank []) with true. cbn [negb]. apply rev_involutive.
Qed.

Lemma concat_nonempty (l : list str) :
  l <> [] -> Forall (fun c => c <> []) l -> concat l <> [].
Proof.
  destruct l as [|c l]; [congruence|]. intros _ H.
  apply Forall_inv in H. cbn [concat]. destruct c; [congruence | discriminate].
Qed.

(** A pass over a stack of non-empty chunks gives a line of non-empty
    chunks and leaves such a stack. *)
Lemma pass_nonempty width has_lines chunks line chunks' :
  1 <= width ->
  pass width has_lines chunks line chunks' ->
  Forall (fun c => c <> []) chunks ->
  Forall (fun c => c <> []) line /\ Forall (fun c => c <> []) chunks'.
Proof.
  intros Hw [pre taken n E Hpre Hf _ ->
            | pre taken n c rest e E Hpre Hf Hc -> -> ->] H.
  - rewrite E in H. apply Forall_app in H as [_ H].
    apply Forall_app in H as [Ht Hr].
    split; [apply drop_last_blank_Forall, Ht | exact Hr].
  - rewrite E in H. apply Forall_app in H as [_ H].
    apply Forall_app in H as [Ht Hr].
    pose proof (fill_line_spec _ _ _ _ _ _ Hf) as (_ & Hn & Hle & _).
    specialize (Hle ltac:(lia)).
    replace (width <? 1) with false by (symmetry; apply Z.ltb_ge; lia).
    pose proof (cut_point_le c (width - n) ltac:(lia)) as Hcut.
    set (e := cut_point c (width - n)) in *.
    split.
    + destruct (firstn e c) as [|a piece] eqn:F.
      * rewrite drop_last_blank_empty_piece. exact Ht.
      * apply drop_last_blank_Forall, Forall_app. split; [exact Ht|].
        constructor; [discriminate | constructor].
    + constructor; [|apply (Forall_inv_tail Hr)].
      intros K. apply (f_equal (@length ascii)) in K.
      rewrite length_skipn in K. cbn [length] in K. unfold len in Hc.
      pose proof (len_nonneg (concat taken)). lia.
Qed.

Lemma wrap_loop_nonempty width :
  1 <= width ->
  forall n has_lines chunks,
    Forall (fun c => c <> []) chunks ->
    Forall (fun l => l <> []) (wrap_loop n width has_lines chunks).
Proof.
  intros Hw. induction n as [|n IH]; intros has_lines chunks H; [constructor|].
  destruct chunks as [|c rest]; [constructor|].
  cbn [wrap_loop].
  destruct (next_line width has_lines (c :: rest)) as [line chunks'] eqn:E.
  pose proof (next_line_pass _ _ _ _ _ E) as P.
  destruct (pass_nonempty _ _ _ _ _ Hw P H) as [Hl Hc].
  destruct line as [|l line]; [apply IH, Hc|].
  constructor; [|apply IH, Hc].
  apply concat_nonempty; [discriminate | exact Hl].
Qed.

(** [textwrap.wrap] never returns an empty line. *)
Lemma wrap_lines_nonempty para width lines :
  wrap para width = Ok lines -> Forall (fun l => l <> []) lines.
Proof.
  unfold wrap, wrap_chunks. destruct (width <=? 0) eqn:W; [discriminate|].
  apply Z.leb_gt in W. intros [= <-].
  apply wrap_loop_nonempty; [lia|]. apply split_from_chunks_nonempty.
Qed.

Lemma of_paras_lines_nonempty width paras :
  forall rs,
    Rows.of_paras width paras = Ok rs ->
    Forall (fun r => match r with Line s => s <> [] | Blank => True end) rs.
Proof.
  induction paras as [|p paras IH]; intros rs.
  - intros [= <-]. constructor.
  - cbn [Rows.of_paras]. unfold Rows.of_para.
    destruct (blank p).
    + cbn [bind]. destruct (Rows.of_paras width paras) as [rs'|]; [|discriminate].
      cbn [bind]. intros [= <-]. constructor; [exact I | apply IH; reflexivity].
    + destruct (wrap p width) as [lines|] eqn:Wp; [|discriminate].
      cbn [bind]. destruct (Rows.of_paras width paras) as [rs'|]; [|discriminate].
      cbn [bind]. intros [= <-]. apply Forall_app. split; [|apply IH; reflexivity].
      apply wrap_lines_nonempty in Wp. induction Wp; constructor; assumption.
Qed.

Lemma place_calls x f c h rs :
  Forall (fun r => match r with Line s => s <> [] | Blank => True end) rs ->
  forall y,
    Forall (fun t => content t <> [] /\ at_x t = x /\ with_font t = f
                     /\ fill t = c)
           (Rows.place x f c h rs y).
Proof.
  induction 1 as [|[|s] rs Hr _ IH]; intros y; cbn [Rows.place].
  - constructor.
  - apply IH.
  - constructor; [|apply IH]. cbn. repeat split. exact Hr.
Qed.

(** With a positive line height the calls go down the page: every line
    has a band of its own between the start and the returned [y]. *)
Lemma place_sorted x f c h rs :
  0 < h ->
  forall y,
    StronglySorted Z.lt (map at_y (Rows.place x f c h rs y))
    /\ Forall (fun t => y <= at_y t /\ at_y t + h <= y + h * Z.of_nat (length rs))
              (Rows.place x f c h rs y).
Proof.
  intros Hh. induction rs as [|r rs IH]; intros y.
  - split; constructor.
  - destruct (IH (y + h)) as [S F].
    assert (F' : Forall (fun t => y + h <= at_y t
                         /\ at_y t + h <= y + h * Z.of_nat (length (r :: rs)))
                        (Rows.place x f c h rs (y + h))).
    { eapply Forall_impl; [|exact F]. cbn beta. intros t [A B].
      cbn [length]. rewrite Nat2Z.inj_succ. split; [exact A | lia]. }
    destruct r as [|s]; cbn [Rows.place map].
    + split; [exact S|].
      eapply Forall_impl; [|exact F']. cbn beta. intros t [A B]. lia.
    + split.
      * constructor; [exact S|]. cbn [at_y].
        rewrite Forall_map. eapply Forall_impl; [|exact F'].
        cbn beta. intros t [A B]. lia.
      * constructor.
        -- cbn [at_y length]. rewrite Nat2Z.inj_succ. nia.
        -- eapply Forall_impl; [|exact F']. cbn beta. intros t [A B]. lia.
Qed.

End NonEmptyFacts.

(** ** Texts in sequence *)

Section SequenceFacts.
Import PyStr Draw.

Lemma is_char_refl a : is_char a a = true.
Proof. apply N.eqb_refl. Qed.

Lemma split_app_sep sep a b :
  PyStr.split sep (a ++ sep :: b) = PyStr.split sep a ++ PyStr.split sep b.
Proof.
  induction a as [|c a IH].
  - cbn [app PyStr.split]. now rewrite is_char_refl.
  - cbn [app PyStr.split]. rewrite IH.
    destruct (is_char sep c); [reflexivity|].
    destruct (PyStr.split sep a) as [|p ps] eqn:E; [|reflexivity].
    exfalso. exact (split_nonempty _ _ E).
Qed.

Lemma draw_paras_app x f c ls width a b :
  forall d y,
    draw_paras x f c ls width (a ++ b) d y =
    (st <- draw_paras x f c ls width a d y ;;
     draw_paras x f c ls width b (fst st) (snd st)).
Proof.
  induction a as [|p a IH]; intros d y; [reflexivity|].
  cbn [app draw_paras]. destruct (blank p).
  - destruct (advance f ls y) as [y'|e]; [|reflexivity]. cbn [bind]. apply IH.
  - destruct (Textwrap.wrap p width) as [lines|e]; [|reflexivity]. cbn [bind].
    destruct (draw_lines x f c ls lines d y) as [st|e]; [|reflexivity].
    cbn [bind]. apply IH.
Qed.

Lemma of_paras_total width paras :
  1 <= width -> exists rs, Rows.of_paras width paras = Ok rs.
Proof.
  intros Hw. induction paras as [|p paras [rs IH]]; [now exists []|].
  cbn [Rows.of_paras]. unfold Rows.of_para. rewrite IH.
  destruct (blank p); [eexists; reflexivity|].
  unfold Textwrap.wrap, Textwrap.wrap_chunks.
  replace (width <=? 0) with false by (symmetry; apply Z.leb_gt; lia).
  eexists; reflexivity.
Qed.

End SequenceFacts.

(** ** Paragraphs that fit *)

Section FitFacts.
Import PyStr Textwrap Wrapping Glyphs.

Lemma is_char_eq a c : is_char a c = true -> c = a.
Proof.
  unfold is_char, code. intros H. apply N.eqb_eq in H.
  rewrite <- (ascii_N_embedding c), <- H. apply ascii_N_embedding.
Qed.

Lemma only_spaces_whitespace c :
  (negb (isspace c) || is_char space c)%bool = true ->
  whitespace c = true -> c = space.
Proof.
  intros H W. rewrite (whitespace_isspace c W) in H. cbn in H.
  apply is_char_eq, H.
Qed.

Lemma expandtabs_no_tab tabsize s :
  only_spaces s = true ->
  forall col, expandtabs_from tabsize col s = s.
Proof.
  unfold only_spaces. induction s as [|c s IH]; intros H col; [reflexivity|].
  cbn [forallb] in H. apply andb_prop in H as [Hc Hs].
  cbn [expandtabs_from].
  destruct (is_char tab c) eqn:T.
  - exfalso. apply is_char_eq in T. subst c. vm_compute in Hc. discriminate Hc.
  - destruct (is_char newline c || is_char cr c)%bool; now rewrite IH.
Qed.

Lemma munge_only_spaces s : only_spaces s = true -> munge_whitespace s = s.
Proof.
  intros H. unfold munge_whitespace, expandtabs.
  rewrite (expandtabs_no_tab 8 s H 0).
  unfold only_spaces in H. induction s as [|c s IH]; [reflexivity|].
  cbn [forallb] in H. apply andb_prop in H as [Hc Hs].
  cbn [map]. rewrite (IH Hs).
  destruct (whitespace c) eqn:W; [|reflexivity].
  now rewrite (only_spaces_whitespace c Hc W).
Qed.

Lemma fill_line_all width chunks :
  forall n,
    n + len (concat chunks) <= width ->
    fill_line width n chunks = (chunks, n + len (concat chunks), []).
Proof.
  induction chunks as [|c chunks IH]; intros n H.
  - cbn. now rewrite Z.add_0_r.
  - cbn [concat] in H. rewrite len_app in H.
    pose proof (len_nonneg (concat chunks)).
    cbn [fill_line]. replace (n + len c <=? width) with true
      by (symmetry; apply Z.leb_le; lia).
    rewrite IH by lia. cbn [concat]. rewrite len_app. f_equal. f_equal. lia.
Qed.

Lemma ends_visible_last (chunks : list str) cl r :
  Forall (fun c => c <> []) chunks ->
  rev chunks = cl :: r ->
  ends_visible (concat chunks) = true ->
  blank cl = false.
Proof.
  intros Hne E Hv.
  assert (Ec : chunks = rev r ++ [cl]).
  { rewrite <- (rev_involutive chunks), E. reflexivity. }
  assert (Hcl : cl <> []).
  { rewrite Ec in Hne. apply Forall_app in Hne as [_ Hne].
    now apply Forall_inv in Hne. }
  unfold ends_visible in Hv.
  rewrite Ec, concat_snoc, rev_app_distr in Hv.
  destruct (rev cl) as [|a t] eqn:R.
  - exfalso. apply Hcl. rewrite <- (rev_involutive cl), R. reflexivity.
  - cbn [app] in Hv. apply (word_not_blank cl a).
    + apply in_rev. rewrite R. now left.
    + now apply negb_true_iff.
Qed.

(** A paragraph that fits the width, whose only white space is the space
    character and which does not end with one, is one line: itself. *)
Lemma wrap_fitting para width :
  1 <= width -> len para <= width ->
  only_spaces para = true -> ends_visible para = true ->
  wrap para width = Ok [para].
Proof.
  intros Hw Hlen Hs Hv.
  unfold wrap, wrap_chunks.
  replace (width <=? 0) with false by (symmetry; apply Z.leb_gt; lia).
  f_equal. unfold split_chunks. rewrite (munge_only_spaces para Hs).
  pose proof (split_from_concat (length para) [] para ltac:(lia)) as Hc.
  pose proof (split_from_chunks_nonempty (length para) [] para) as Hne.
  fold (split para) in Hc, Hne.
  destruct (split para) as [|c rest] eqn:E.
  { exfalso. cbn in Hc. subst para. discriminate Hv. }
  rewrite (wrap_loop_step width false c rest Hw).
  unfold next_line. cbn [skip_blank]. rewrite andb_false_r.
  rewrite (fill_line_all width (c :: rest) 0) by (rewrite Hc; lia).
  assert (D : drop_last_blank (c :: rest) = c :: rest).
  { unfold drop_last_blank. destruct (rev (c :: rest)) as [|cl r] eqn:R;
      [reflexivity|].
    rewrite (ends_visible_last (c :: rest) cl r Hne R); [reflexivity|].
    now rewrite Hc. }
  rewrite D. cbn [passes fold_right wrap_loop]. now rewrite Hc.
Qed.

Lemma split_no_sep sep s :
  forallb (fun c => negb (is_char sep c)) s = true -> PyStr.split sep s = [s].
Proof.
  induction s as [|c s IH]; [reflexivity|].
  cbn [forallb]. intros H. apply andb_prop in H as [Hc Hs].
  cbn [PyStr.split]. apply negb_true_iff in Hc. rewrite Hc, (IH Hs). reflexivity.
Qed.

Lemma only_spaces_no_newline s :
  only_spaces s = true ->
  forallb (fun c => negb (is_char newline c)) s = true.
Proof.
  unfold only_spaces. induction s as [|c s IH]; [reflexivity|].
  cbn [forallb]. intros H. apply andb_prop in H as [Hc Hs].
  rewrite (IH Hs), andb_true_r.
  destruct (is_char newline c) eqn:N; [|reflexivity].
  apply is_char_eq in N. subst c. vm_compute in Hc. discriminate Hc.
Qed.

Lemma ends_visible_not_blank s : ends_visible s = true -> blank s = false.
Proof.
  unfold ends_visible. destruct (rev s) as [|a t] eqn:R; [discriminate|].
  intros H. apply (word_not_blank s a).
  - apply in_rev. rewrite R. now left.
  - now apply negb_true_iff.
Qed.

End FitFacts.

(** ** What [draw_wrapped] raises *)

Section RaiseFacts.
Import Draw.

Lemma draw_lines_raise x f c ls lines :
  forall d y e,
    draw_lines x f c ls lines d y = Raise e -> Layout.line_height f ls = Raise e.
Proof.
  induction lines as [|l lines IH]; intros d y e; [discriminate|].
  cbn [draw_lines]. unfold advance.
  destruct (Layout.line_height f ls) as [h|e']; cbn [bind].
  - intros H. apply IH in H. discriminate H.
  - intros [= ->]. reflexivity.
Qed.

Lemma draw_paras_raise_kind x f c ls width paras :
  1 <= width ->
  forall d y e,
    draw_paras x f c ls width paras d y = Raise e ->
    Layout.line_height f ls = Raise e.
Proof.
  intros Hw. induction paras as [|p paras IH]; intros d y e; [discriminate|].
  cbn [draw_paras]. destruct (PyStr.blank p).
  - unfold advance. destruct (Layout.line_height f ls) as [h|e']; cbn [bind].
    + intros H. apply IH in H. discriminate H.
    + intros [= ->]. reflexivity.
  - unfold Textwrap.wrap, Textwrap.wrap_chunks.
    replace (width <=? 0) with false by (symmetry; apply Z.leb_gt; lia).
    cbn [bind].
    destruct (draw_lines x f c ls _ d y) as [st|e'] eqn:L; cbn [bind].
    + apply IH.
    + intros [= ->]. apply (draw_lines_raise _ _ _ _ _ _ _ _ L).
Qed.

Lemma line_height_raise f ls e :
  Layout.line_height f ls = Raise e -> e = OverflowError \/ e = ValueError.
Proof.
  unfold Layout.line_height, Py.mul_int_float.
  destruct (Py.float_of_int (size f)) as [fn|e'] eqn:F; cbn [bind].
  - apply int_of_float_raise.
  - intros [= <-]. left. apply (float_of_int_raise _ _ F).
Qed.

End RaiseFacts.

(** X6: every call [draw_wrapped] makes draws a line that is not empty, at
    the [x] it was given, in the font and colour it was given; what was
    on the surface before stays. *)
Theorem X6_calls_well_formed d x y text f c max_width_px line_spacing d' y' :
  Draw.draw_wrapped d (x, y) text f c max_width_px line_spacing = Ok (d', y') ->
  exists calls,
    d' = d ++ calls
    /\ Forall (fun t => content t <> [] /\ at_x t = x /\ with_font t = f
                        /\ fill t = c) calls.
Proof.
  intros H. apply draw_wrapped_inv in H.
  destruct H as (width & h & rs & _ & _ & Hr & _ & -> & _).
  eexists. split; [reflexivity|].
  apply place_calls. apply (of_paras_lines_nonempty _ _ _ Hr).
Qed.

(** X7: with a positive line height the calls of [draw_wrapped] go down
    the page: their [y] grow strictly, and the band of height [h] under
    each lies between the start and the returned [y]. *)
Theorem X7_lines_go_down d x y text f c max_width_px line_spacing d' y' h :
  Layout.line_height f line_spacing = Ok h -> 0 < h ->
  Draw.draw_wrapped d (x, y) text f c max_width_px line_spacing = Ok (d', y') ->
  exists calls,
    d' = d ++ calls
    /\ StronglySorted Z.lt (map at_y calls)
    /\ Forall (fun t => y <= at_y t /\ at_y t + h <= y') calls.
Proof.
  intros Hh Hpos H. apply draw_wrapped_inv in H.
  destruct H as (width & h' & rs & _ & Hh' & Hr & _ & -> & ->).
  rewrite Hh in Hh'. injection Hh' as <-.
  eexists. split; [reflexivity|].
  apply place_sorted, Hpos.
Qed.

(** X12: drawing two texts joined by a newline is drawing the first and
    then the second from the [y] the first call returned. *)
Theorem X12_texts_in_sequence d x y t1 t2 f c max_width_px line_spacing :
  Draw.draw_wrapped d (x, y) (t1 ++ PyStr.newline :: t2) f c max_width_px
    line_spacing
  = (st <- Draw.draw_wrapped d (x, y) t1 f c max_width_px line_spacing ;;
     Draw.draw_wrapped (fst st) (x, snd st) t2 f c max_width_px line_spacing).
Proof.
  unfold Draw.draw_wrapped.
  destruct (Layout.cols f max_width_px) as [width|e]; [|reflexivity].
  cbn [bind]. rewrite split_app_sep, draw_paras_app. reflexivity.
Qed.

(** X3: [draw_wrapped] returns exactly when the column budget and the line
    height can be computed: wrapping itself never fails. *)
Theorem X3_draw_wrapped_returns d x y text f c max_width_px line_spacing :
  (exists d' y',
     Draw.draw_wrapped d (x, y) text f c max_width_px line_spacing = Ok (d', y'))
  <-> (exists width, Layout.cols f max_width_px = Ok width)
      /\ (exists h, Layout.line_height f line_spacing = Ok h).
Proof.
  split.
  - intros (d' & y' & H). apply draw_wrapped_inv in H.
    destruct H as (width & h & rs & Hc & Hh & _).
    split; [exists width | exists h]; assumption.
  - intros [(width & Hc) (h & Hh)].
    rewrite (draw_wrapped_rows d x y text f c max_width_px line_spacing h Hh).
    rewrite Hc. cbn [bind].
    pose proof (cols_at_least_20 _ _ _ Hc) as H20.
    destruct (of_paras_total width (PyStr.split PyStr.newline text) ltac:(lia))
      as [rs Hr].
    unfold Rows.of_text. rewrite Hr. cbn [bind]. eauto.
Qed.

(** X4: an exception out of [draw_wrapped] is the one the column budget or
    the line height raised, an [OverflowError] or a [ValueError]; the
    division by the average glyph width never raises. *)
Theorem X4_draw_wrapped_raises d x y text f c max_width_px line_spacing e :
  Draw.draw_wrapped d (x, y) text f c max_width_px line_spacing = Raise e ->
  (Layout.cols f max_width_px = Raise e
   \/ Layout.line_height f line_spacing = Raise e)
  /\ (e = OverflowError \/ e = ValueError).
Proof.
  unfold Draw.draw_wrapped.
  pose proof (cols_cases f max_width_px) as C.
  destruct (Layout.cols f max_width_px) as [width|e'] eqn:Hc; cbn [bind].
  - intros H. apply draw_paras_raise_kind in H; [|lia].
    split; [now right | apply (line_height_raise _ _ _ H)].
  - intros [= <-]. split; [now left | exact C].
Qed.

(** X11: a text of one paragraph that fits the column budget, whose only
    white space is the space character and which does not end with one,
    is drawn as it is, in one call. *)
Theorem X11_fitting_text_verbatim
  d x y para f c max_width_px line_spacing width h :
  Layout.cols f max_width_px = Ok width ->
  Layout.line_height f line_spacing = Ok h ->
  PyStr.len para <= width ->
  Glyphs.only_spaces para = true ->
  Glyphs.ends_visible para = true ->
  Draw.draw_wrapped d (x, y) para f c max_width_px line_spacing
  = Ok (d ++ [TextCall x y para f c], y + h).
Proof.
  intros Hc Hh Hlen Hs Hv.
  pose proof (cols_at_least_20 _ _ _ Hc) as H20.
  rewrite (draw_wrapped_rows d x y para f c max_width_px line_spacing h Hh).
  rewrite Hc. cbn [bind]. unfold Rows.of_text.
  rewrite (split_no_sep _ _ (only_spaces_no_newline _ Hs)).
  cbn [Rows.of_paras]. unfold Rows.of_para.
  rewrite (ends_visible_not_blank _ Hv).
  rewrite (wrap_fitting para width ltac:(lia) Hlen Hs Hv).
  cbn [bind map app Rows.place length]. do 2 f_equal. lia.
Qed.

(** ** Signs of products *)

Section ProductFacts.

Lemma SFmul_signed sx sy x y :
  signed sx x -> signed sy y -> signed (xorb sx sy) (SFmul prec emax x y).
Proof.
  intros [| | |mx ex] [| | |my ey]; simpl; try constructor.
  apply binary_round_aux_signed.
Qed.

Lemma mul_int_float_signed n r p s :
  signed s (Prim2SF r) -> Py.mul_int_float n r = Ok p ->
  signed (xorb (n <? 0) s) (Prim2SF p).
Proof.
  unfold Py.mul_int_float. intros Hr.
  destruct (Py.float_of_int n) as [fn|] eqn:Hn; cbn [bind]; [|discriminate].
  intros [= <-]. rewrite mul_spec.
  apply SFmul_signed; [apply float_of_int_signed, Hn | exact Hr].
Qed.

(** [int(n * r)] is not negative when [n] and [r] are not. *)
Lemma part_nonneg n r k :
  0 <= n -> signed false (Prim2SF r) -> Page.part n r = Ok k -> 0 <= k.
Proof.
  unfold Page.part. intros Hn Hr.
  destruct (Py.mul_int_float n r) as [p|] eqn:Hp; cbn [bind]; [|discriminate].
  apply int_of_signed_false.
  pose proof (mul_int_float_signed n r p false Hr Hp) as S.
  replace (n <? 0) with false in S by (symmetry; apply Z.ltb_ge; lia).
  exact S.
Qed.

Lemma part_raise n r e :
  Page.part n r = Raise e -> e = OverflowError \/ e = ValueError.
Proof.
  unfold Page.part, Py.mul_int_float.
  destruct (Py.float_of_int n) as [fn|e'] eqn:F; cbn [bind].
  - apply int_of_float_raise.
  - intros [= <-]. left. apply (float_of_int_raise _ _ F).
Qed.

End ProductFacts.

(** ** [draw_text_block] *)

Section BlockFacts.
Import Block.

Lemma collect_rows width paras :
  forall wrapped,
    collect width paras wrapped =
    (rs <- Rows.of_paras width paras ;; Ok (wrapped ++ map row_text rs)).
Proof.
  induction paras as [|p paras IH]; intros wrapped.
  - cbn. now rewrite app_nil_r.
  - cbn [collect Rows.of_paras]. unfold Rows.of_para.
    destruct (PyStr.blank p).
    + rewrite IH. cbn [bind].
      destruct (Rows.of_paras width paras) as [rs|e]; [|reflexivity].
      cbn [bind app map row_text]. now rewrite <- app_assoc.
    + destruct (Textwrap.wrap p width) as [lines|e]; [|reflexivity].
      cbn [bind]. rewrite IH.
      destruct (Rows.of_paras width paras) as [rs|e]; [|reflexivity].
      cbn [bind]. rewrite map_app, map_map, <- app_assoc.
      cbn [row_text]. now rewrite map_id.
Qed.

Lemma block_place_app x f c s a b y :
  lay x f c s (a ++ b) y =
  lay x f c s a y ++ lay x f c s b (y + s * Z.of_nat (length a)).
Proof.
  revert y. induction a as [|l a IH]; intros y.
  - cbn. now rewrite Z.mul_0_r, Z.add_0_r.
  - cbn [app lay length]. rewrite IH, Nat2Z.inj_succ.
    replace (y + s + s * Z.of_nat (length a))
      with (y + s * Z.succ (Z.of_nat (length a))) by lia.
    reflexivity.
Qed.

Lemma block_draw_lines_place x f c ls s lines :
  step f ls = Ok s ->
  forall d y,
    draw_each x f c ls lines d y =
    Ok (d ++ lay x f c s lines y, y + s * Z.of_nat (length lines)).
Proof.
  intros Hs. induction lines as [|l lines IH]; intros d y.
  - cbn. now rewrite app_nil_r, Z.mul_0_r, Z.add_0_r.
  - cbn [draw_each]. rewrite Hs. cbn [bind]. rewrite IH, <- app_assoc.
    cbn [app lay length]. rewrite Nat2Z.inj_succ.
    replace (y + s + s * Z.of_nat (length lines))
      with (y + s * Z.succ (Z.of_nat (length lines))) by lia.
    reflexivity.
Qed.

Lemma block_draw_lines_raise x f c ls e l lines d y :
  step f ls = Raise e -> draw_each x f c ls (l :: lines) d y = Raise e.
Proof. intros Hs. cbn [draw_each]. now rewrite Hs. Qed.

Lemma block_place_length x f c s lines :
  forall y, length (lay x f c s lines y) = length lines.
Proof.
  induction lines as [|l lines IH]; intros y; [reflexivity|].
  cbn [lay length]. now rewrite IH.
Qed.

Lemma block_place_content x f c s lines :
  forall y, map content (lay x f c s lines y) = lines.
Proof.
  induction lines as [|l lines IH]; intros y; [reflexivity|].
  cbn [lay map content]. now rewrite IH.
Qed.

Lemma rows_place_content x f c h rs :
  Forall (fun r => match r with Line s => s <> [] | Blank => True end) rs ->
  forall y,
    map content (Rows.place x f c h rs y)
    = filter (fun s => negb (is_empty s)) (map row_text rs).
Proof.
  induction 1 as [|[|s] rs Hr _ IH]; intros y; cbn [Rows.place map row_text filter].
  - reflexivity.
  - cbn [is_empty negb]. apply IH.
  - destruct s as [|a s]; [congruence|].
    cbn [is_empty negb content]. now rewrite IH.
Qed.

(** What a successful call of [draw_text_block] computed. *)
Lemma draw_text_block_inv d x y text f c w ls d' y' :
  draw_text_block d (x, y) text f c w ls = Ok (d', y') ->
  exists width s rs,
    Layout.cols f w = Ok width
    /\ step f ls = Ok s
    /\ Rows.of_text width text = Ok rs
    /\ d' = d ++ lay x f c s (map row_text rs) y
    /\ y' = y + s * Z.of_nat (length rs).
Proof.
  unfold draw_text_block.
  destruct (Layout.cols f w) as [width|] eqn:Hc; cbn [bind]; [|discriminate].
  rewrite collect_rows. fold (Rows.of_text width text).
  destruct (Rows.of_text width text) as [rs|] eqn:Hr; cbn [bind]; [|discriminate].
  cbn [app]. pose proof (of_text_nonempty _ _ _ Hr) as Hne.
  destruct (step f ls) as [s|e] eqn:Hs.
  - rewrite (block_draw_lines_place x f c ls s _ Hs). intros [= <- <-].
    exists width, s, rs. rewrite length_map.
    repeat split; try reflexivity; assumption.
  - destruct rs as [|r rs]; [congruence|]. cbn [map].
    rewrite (block_draw_lines_raise x f c ls e _ _ d y Hs). discriminate.
Qed.

Lemma step_nonneg f ls s :
  0 <= size f -> 0 <= ls -> step f ls = Ok s -> 0 <= s.
Proof.
  unfold step. intros Hf Hl.
  destruct (Py.mul_int_float (size f) six_fifths) as [p|] eqn:Hp; cbn [bind];
    [|discriminate].
  destruct (Py.int_of_float p) as [n|] eqn:Hn; cbn [bind]; [|discriminate].
  intros [= <-].
  assert (0 <= n); [|lia].
  apply (part_nonneg (size f) six_fifths n Hf).
  - vm_compute. constructor.
  - unfold Page.part. rewrite Hp. exact Hn.
Qed.

Lemma block_place_below x f c s lines :
  0 <= s ->
  forall y, Forall (fun t => y <= at_y t) (lay x f c s lines y).
Proof.
  intros Hs. induction lines as [|l lines IH]; intros y; cbn [lay].
  - constructor.
  - constructor; [cbn; lia|].
    eapply Forall_impl; [|apply IH]. cbn beta. intros t A. lia.
Qed.

End BlockFacts.

(** ** [load_font] *)

Section FontFacts.
Import Fonts.

(** What the loop finds is the first candidate of the asked weight that
    exists. *)
Lemma first_match_spec path_exists bold candidates :
  match first_match path_exists bold candidates with
  | Some p =>
      exists before after,
        candidates = before ++ (p, bold) :: after
        /\ path_exists p = true
        /\ forall q, In (q, bold) before -> path_exists q = false
  | None => forall q, In (q, bold) candidates -> path_exists q = false
  end.
Proof.
  induction candidates as [|[p b] more IH]; cbn [first_match].
  - intros q [].
  - destruct (path_exists p) eqn:E; cbn [andb].
    + destruct (Bool.eqb b bold) eqn:B.
      * apply eqb_prop in B. subst b.
        exists [], more. repeat split; [exact E | intros q []].
      * destruct (first_match path_exists bold more) as [p'|].
        -- destruct IH as (before & after & -> & He & Hb).
           exists ((p, b) :: before), after. repeat split; [exact He|].
           intros q [[= -> ->] | Hin]; [|apply Hb, Hin].
           now rewrite eqb_reflx in B.
        -- intros q [[= -> ->] | Hin]; [|apply IH, Hin].
           now rewrite eqb_reflx in B.
    + destruct (first_match path_exists bold more) as [p'|].
      * destruct IH as (before & after & -> & He & Hb).
        exists ((p, b) :: before), after. repeat split; [exact He|].
        intros q [[= -> ->] | Hin]; [exact E | apply Hb, Hin].
      * intros q [[= -> ->] | Hin]; [exact E | apply IH, Hin].
Qed.

Lemma open_path_nonempty (candidates : list (string * bool)) p size :
  Forall (fun c => fst c <> EmptyString) candidates ->
  In p (map fst candidates) ->
  open_path (Some p) size = Truetype p size.
Proof.
  intros H Hin. apply in_map_iff in Hin as ([q b] & <- & Hin).
  rewrite Forall_forall in H. specialize (H _ Hin). cbn [fst] in *.
  destruct q; [congruence | reflexivity].
Qed.

Lemma load_font_from path_exists size bold
  (candidates : list (string * bool)) :
  Forall (fun c => fst c <> EmptyString) candidates ->
  match open_path (first_match path_exists bold candidates) size with
  | Truetype p s =>
      s = size
      /\ path_exists p = true
      /\ exists before after,
           candidates = before ++ (p, bold) :: after
           /\ forall q, In (q, bold) before -> path_exists q = false
  | Default => forall q, In (q, bold) candidates -> path_exists q = false
  end.
Proof.
  intros Hne. pose proof (first_match_spec path_exists bold candidates) as H.
  destruct (first_match path_exists bold candidates) as [p|]; [|exact H].
  destruct H as (before & after & E & He & Hb).
  rewrite (open_path_nonempty candidates p size Hne).
  - repeat split; [exact He|]. exists before, after. split; assumption.
  - rewrite E, map_app. apply in_or_app. right. now left.
Qed.

End FontFacts.

(** ** The ruled lines of [draw_guides] *)

Section GuideFacts.
Import Page.

Lemma rules_spec left right limit :
  forall fuel y,
    (rules_fuel limit y <= fuel)%nat ->
    rules fuel left right limit y =
    map (fun k => Rule (left + 12) (y + 56 * Z.of_nat k) (right - 12)
                       (y + 56 * Z.of_nat k) (60, 50, 40, 36) 1)
        (seq 0 (Z.to_nat ((limit - y + 55) / 56))).
Proof.
  unfold rules_fuel.
  induction fuel as [|fuel IH]; intros y Hf.
  - assert (limit - y <= 0) by lia.
    assert ((limit - y + 55) / 56 <= 0).
    { apply Z.lt_succ_r. apply Z.div_lt_upper_bound; lia. }
    replace (Z.to_nat ((limit - y + 55) / 56)) with O by lia. reflexivity.
  - cbn [rules]. destruct (y <? limit) eqn:L.
    + apply Z.ltb_lt in L.
      assert (E : (limit - y + 55) / 56 = 1 + (limit - (y + 56) + 55) / 56).
      { replace (limit - y + 55) with (1 * 56 + (limit - (y + 56) + 55)) by lia.
        rewrite Z.div_add_l by lia. reflexivity. }
      assert (0 <= (limit - (y + 56) + 55) / 56).
      { apply Z.div_pos; lia. }
      rewrite E.
      replace (Z.to_nat (1 + (limit - (y + 56) + 55) / 56))
        with (S (Z.to_nat ((limit - (y + 56) + 55) / 56))) by lia.
      cbn [seq map]. rewrite <- seq_shift, map_map, IH by lia.
      f_equal.
      * f_equal; lia.
      * apply map_ext. intros k. rewrite Nat2Z.inj_succ. f_equal; lia.
    + apply Z.ltb_ge in L.
      assert ((limit - y + 55) / 56 <= 0).
      { apply Z.lt_succ_r. apply Z.div_lt_upper_bound; lia. }
      replace (Z.to_nat ((limit - y + 55) / 56)) with O by lia. reflexivity.
Qed.

Lemma rules_are_rules fuel left right limit :
  forall y, filter is_rule (rules fuel left right limit y)
            = rules fuel left right limit y.
Proof.
  induction fuel as [|fuel IH]; intros y; [reflexivity|].
  cbn [rules]. destruct (y <? limit); [|reflexivity].
  cbn [filter is_rule]. now rewrite IH.
Qed.

Lemma rules_between fuel left right limit :
  forall y,
    Forall (fun s => match rule_y s with
                     | Some v => y <= v < limit
                     | None => True
                     end)
           (rules fuel left right limit y).
Proof.
  induction fuel as [|fuel IH]; intros y; [constructor|].
  cbn [rules]. destruct (y <? limit) eqn:L; [|constructor].
  apply Z.ltb_lt in L. constructor; [cbn; lia|].
  eapply Forall_impl; [|apply IH]. intros s. cbn beta.
  destruct (rule_y s); [lia | trivial].
Qed.

End GuideFacts.

(** ** Rows and paragraphs *)

Section ParagraphFacts.
Import PyStr.

Lemma split_length sep s :
  length (PyStr.split sep s) = S (length (filter (is_char sep) s)).
Proof.
  induction s as [|c s IH]; [reflexivity|].
  cbn [PyStr.split filter]. destruct (is_char sep c).
  - cbn [length]. now rewrite IH.
  - destruct (PyStr.split sep s) as [|p ps] eqn:E.
    + exfalso. exact (split_nonempty _ _ E).
    + cbn [length] in *. exact IH.
Qed.

Lemma of_paras_length width paras :
  forall rs,
    Rows.of_paras width paras = Ok rs -> (length paras <= length rs)%nat.
Proof.
  induction paras as [|p paras IH]; intros rs.
  - intros [= <-]. reflexivity.
  - cbn [Rows.of_paras]. unfold Rows.of_para.
    destruct (blank p) eqn:B.
    + cbn [bind]. destruct (Rows.of_paras width paras) as [rs'|]; [|discriminate].
      cbn [bind]. intros [= <-]. cbn [app length].
      specialize (IH rs' eq_refl). lia.
    + destruct (Textwrap.wrap p width) as [lines|] eqn:Wp; [|discriminate].
      cbn [bind]. destruct (Rows.of_paras width paras) as [rs'|]; [|discriminate].
      cbn [bind]. intros [= <-]. rewrite length_app, length_map.
      specialize (IH rs' eq_refl).
      pose proof (wrap_nonempty p width lines B Wp) as Hne.
      destruct lines; [congruence|]. cbn [length]. lia.
Qed.

Lemma place_shift x f c h dx dy rs :
  forall y,
    Rows.place (x + dx) f c h rs (y + dy)
    = map (Calls.shift dx dy) (Rows.place x f c h rs y).
Proof.
  induction rs as [|[|s] rs IH]; intros y; cbn [Rows.place map].
  - reflexivity.
  - replace (y + dy + h) with (y + h + dy) by lia. apply IH.
  - replace (y + dy + h) with (y + h + dy) by lia. rewrite IH. reflexivity.
Qed.

End ParagraphFacts.

(** ** Noise that stays in range *)

Section RangeFacts.
Import Parchment.

Lemma add_noise_exact b p : 0 <= b + p <= 255 -> add_noise b p = b + p.
Proof.
  intros H. unfold add_noise, to_uint8, clip, wrap_int16.
  rewrite (Z.mod_small (b + p + 32768)) by lia.
  rewrite Z.max_l, Z.min_l by lia.
  replace (b + p + 32768 - 32768) with (b + p) by lia.
  apply Z.mod_small. lia.
Qed.

Lemma base_array_bounds n : Forall (fun b => 203 <= b <= 238) (base_array n).
Proof.
  induction n as [|n IH]; cbn [base_array]; [constructor|].
  unfold base_color. cbn [app]. repeat (constructor; [lia|]). exact IH.
Qed.

Lemma add_arrays_exact arr :
  Forall (fun b => 203 <= b <= 238) arr ->
  forall noise low high,
    -203 <= low -> high <= 18 ->
    forallb (fun p => (low <=? p) && (p <? high))%bool noise = true ->
    add_arrays arr noise = map (fun bp => fst bp + snd bp) (combine arr noise)
    /\ Forall (fun v => 203 + low <= v <= 237 + high) (add_arrays arr noise).
Proof.
  induction 1 as [|b arr Hb _ IH]; intros noise low high Hl Hh Hn.
  - split; [reflexivity | constructor].
  - destruct noise as [|p noise]; [split; [reflexivity | constructor]|].
    cbn [forallb] in Hn. apply andb_prop in Hn as [Hp Hn].
    apply andb_prop in Hp as [Hp1 Hp2].
    apply Z.leb_le in Hp1. apply Z.ltb_lt in Hp2.
    destruct (IH noise low high Hl Hh Hn) as [E F].
    cbn [add_arrays combine map fst snd].
    rewrite (add_noise_exact b p) by lia. rewrite E.
    split; [reflexivity|]. constructor; [lia|]. rewrite <- E. exact F.
Qed.

End RangeFacts.

(** * Further properties of the scripts *)

(** X1: the column budget grows with the width budget: for a fixed font,
    [w1 <= w2] gives column budgets [c1 <= c2], whatever the rounding
    of the division does. *)
Theorem X1_cols_monotone f w1 w2 c1 c2 :
  w1 <= w2 ->
  Layout.cols f w1 = Ok c1 -> Layout.cols f w2 = Ok c2 ->
  c1 <= c2.
Proof. apply cols_monotone. Qed.

Lemma X1_cols_monotone_witness : 30 <= 41.
Proof.
  apply (X1_cols_monotone Specimen.flat_font 30 41 30 41);
    [lia | vm_compute; reflexivity | vm_compute; reflexivity].
Defined.

Lemma X5_draws_all_visible_witness :
  exists calls,
    [TextCall 3 5 (lit "ab  cd") Specimen.flat_font Sample.ink;
     TextCall 3 17 (lit " e") Specimen.flat_font Sample.ink]
    = [] ++ calls
    /\ Glyphs.visible (concat (map content calls))
       = Glyphs.visible Specimen.two_paragraphs.
Proof.
  apply (X5_draws_all_visible [] 3 5 Specimen.two_paragraphs Specimen.flat_font
           Sample.ink 20 0.25%float _ 29).
  vm_compute. reflexivity.
Defined.

Lemma X6_calls_well_formed_witness :
  exists calls,
    [TextCall 3 5 (lit "ab  cd") Specimen.flat_font Sample.ink;
     TextCall 3 17 (lit " e") Specimen.flat_font Sample.ink]
    = [] ++ calls
    /\ Forall (fun t => content t <> [] /\ at_x t = 3
                        /\ with_font t = Specimen.flat_font
                        /\ fill t = Sample.ink) calls.
Proof.
  apply (X6_calls_well_formed [] 3 5 Specimen.two_paragraphs Specimen.flat_font
           Sample.ink 20 0.25%float _ 29).
  vm_compute. reflexivity.
Defined.

Lemma X7_lines_go_down_witness :
  exists calls,
    [TextCall 3 5 (lit "ab  cd") Specimen.flat_font Sample.ink;
     TextCall 3 17 (lit " e") Specimen.flat_font Sample.ink]
    = [] ++ calls
    /\ StronglySorted Z.lt (map at_y calls)
    /\ Forall (fun t => 5 <= at_y t /\ at_y t + 12 <= 29) calls.
Proof.
  apply (X7_lines_go_down [] 3 5 Specimen.two_paragraphs Specimen.flat_font
           Sample.ink 20 0.25%float _ 29 12).
  - vm_compute. reflexivity.
  - lia.
  - vm_compute. reflexivity.
Defined.

Lemma X4_draw_wrapped_raises_witness :
  (Layout.cols Specimen.nan_font 20 = Raise ValueError
   \/ Layout.line_height Specimen.nan_font 0.25 = Raise ValueError)
  /\ (ValueError = OverflowError \/ ValueError = ValueError).
Proof.
  apply (X4_draw_wrapped_raises [] 3 5 Specimen.two_paragraphs Specimen.nan_font
           Sample.ink 20 0.25%float ValueError).
  vm_compute. reflexivity.
Defined.

Lemma X11_fitting_text_verbatim_witness :
  Draw.draw_wrapped [] (3, 5) Specimen.two_words Specimen.flat_font
    Sample.ink 20 0.25
  = Ok ([] ++ [TextCall 3 5 Specimen.two_words Specimen.flat_font Sample.ink],
        5 + 12).
Proof.
  apply (X11_fitting_text_verbatim [] 3 5 Specimen.two_words Specimen.flat_font
           Sample.ink 20 0.25%float 20 12);
    vm_compute; first [reflexivity | discriminate].
Defined.

(** X9: for a line height that is not negative, the returned [y] is at
    least one line height further down for every paragraph of the text,
    that is one more than the text has newlines. *)
Theorem X9_row_per_paragraph d x y text f c max_width_px line_spacing d' y' h :
  Layout.line_height f line_spacing = Ok h -> 0 <= h ->
  Draw.draw_wrapped d (x, y) text f c max_width_px line_spacing = Ok (d', y') ->
  y + h * (1 + Z.of_nat (length (filter (PyStr.is_char PyStr.newline) text)))
  <= y'.
Proof.
  intros Hh Hpos H. apply draw_wrapped_inv in H.
  destruct H as (width & h' & rs & _ & Hh' & Hr & _ & _ & ->).
  rewrite Hh in Hh'. injection Hh' as <-.
  apply of_paras_length in Hr. rewrite split_length in Hr. nia.
Qed.

Lemma X9_row_per_paragraph_witness :
  5 + 12 * (1 + Z.of_nat (length (filter (PyStr.is_char PyStr.newline)
                                         Specimen.two_paragraphs)))
  <= 29.
Proof.
  apply (X9_row_per_paragraph [] 3 5 Specimen.two_paragraphs Specimen.flat_font
           Sample.ink 20 0.25%float
           [TextCall 3 5 (lit "ab  cd") Specimen.flat_font Sample.ink;
            TextCall 3 17 (lit " e") Specimen.flat_font Sample.ink] 29 12).
  - vm_compute. reflexivity.
  - lia.
  - vm_compute. reflexivity.
Defined.

(** X14: moving the start of [draw_wrapped] moves every call and the
    returned [y] by as much and changes nothing else; what is on the
    surface already plays no part. *)
Theorem X14_moved_start d x y text f c max_width_px line_spacing d' y' :
  Draw.draw_wrapped d (x, y) text f c max_width_px line_spacing = Ok (d', y') ->
  exists calls,
    d' = d ++ calls
    /\ forall d0 dx dy,
         Draw.draw_wrapped d0 (x + dx, y + dy) text f c max_width_px
           line_spacing
         = Ok (d0 ++ map (Calls.shift dx dy) calls, y' + dy).
Proof.
  intros H. apply draw_wrapped_inv in H.
  destruct H as (width & h & rs & Hc & Hh & Hr & _ & -> & ->).
  eexists. split; [reflexivity|]. intros d0 dx dy.
  rewrite (draw_wrapped_rows d0 (x + dx) (y + dy) text f c max_width_px
             line_spacing h Hh).
  rewrite Hc. cbn [bind]. rewrite Hr. cbn [bind].
  rewrite place_shift. do 2 f_equal. lia.
Qed.

Lemma X14_moved_start_witness :
  exists calls,
    [TextCall 3 5 (lit "ab  cd") Specimen.flat_font Sample.ink;
     TextCall 3 17 (lit " e") Specimen.flat_font Sample.ink]
    = [] ++ calls
    /\ forall d0 dx dy,
         Draw.draw_wrapped d0 (3 + dx, 5 + dy) Specimen.two_paragraphs
           Specimen.flat_font Sample.ink 20 0.25
         = Ok (d0 ++ map (Calls.shift dx dy) calls, 29 + dy).
Proof.
  apply (X14_moved_start [] 3 5 Specimen.two_paragraphs Specimen.flat_font
           Sample.ink 20 0.25%float _ 29).
  vm_compute. reflexivity.
Defined.

(** X15: [draw_text_block] makes one call for every row of the layout, a
    blank paragraph being drawn as an empty string, [s] apart from [y]
    downward, where [s] is [int(font.size * 1.2) + line_spacing]; it
    returns [y] plus [s] for every row. *)
Theorem X15_text_block_rows d x y text f c max_width_px line_spacing d' y' :
  Block.draw_text_block d (x, y) text f c max_width_px line_spacing
  = Ok (d', y') ->
  exists width s rs,
    Layout.cols f max_width_px = Ok width
    /\ Block.step f line_spacing = Ok s
    /\ Rows.of_text width text = Ok rs
    /\ d' = d ++ Block.lay x f c s (map Block.row_text rs) y
    /\ y' = y + s * Z.of_nat (length rs)
    /\ length d' = (length d + length rs)%nat.
Proof.
  intros H. apply draw_text_block_inv in H.
  destruct H as (width & s & rs & Hc & Hs & Hr & -> & ->).
  exists width, s, rs. repeat split; try assumption.
  now rewrite length_app, block_place_length, length_map.
Qed.

Lemma X15_text_block_rows_witness :
  exists width s rs,
    Layout.cols Specimen.flat_font 20 = Ok width
    /\ Block.step Specimen.flat_font 6 = Ok s
    /\ Rows.of_text width Sample.a_blank_b = Ok rs
    /\ [TextCall 3 5 (lit "A") Specimen.flat_font Sample.ink;
        TextCall 3 23 [] Specimen.flat_font Sample.ink;
        TextCall 3 41 (lit "B") Specimen.flat_font Sample.ink]
       = [] ++ Block.lay 3 Specimen.flat_font Sample.ink s
                 (map Block.row_text rs) 5
    /\ 59 = 5 + s * Z.of_nat (length rs)
    /\ length [TextCall 3 5 (lit "A") Specimen.flat_font Sample.ink;
               TextCall 3 23 [] Specimen.flat_font Sample.ink;
               TextCall 3 41 (lit "B") Specimen.flat_font Sample.ink]
       = (length (@nil text_call) + length rs)%nat.
Proof.
  apply (X15_text_block_rows [] 3 5 Sample.a_blank_b Specimen.flat_font
           Sample.ink 20 6).
  vm_compute. reflexivity.
Defined.

(** X16: [draw_wrapped] and [draw_text_block] break a text into the same
    lines: the strings [draw_wrapped] draws are those [draw_text_block]
    draws, in order, without the empty ones it draws for blank
    paragraphs. *)
Theorem X16_same_lines d1 x1 y1 c1 ls1 d1' y1' d2 x2 y2 c2 ls2 d2' y2'
  text f max_width_px :
  Draw.draw_wrapped d1 (x1, y1) text f c1 max_width_px ls1 = Ok (d1', y1') ->
  Block.draw_text_block d2 (x2, y2) text f c2 max_width_px ls2 = Ok (d2', y2') ->
  exists calls1 calls2,
    d1' = d1 ++ calls1
    /\ d2' = d2 ++ calls2
    /\ map content calls1
       = filter (fun s => negb (Block.is_empty s)) (map content calls2).
Proof.
  intros H1 H2. apply draw_wrapped_inv in H1. apply draw_text_block_inv in H2.
  destruct H1 as (width & h & rs & Hc & _ & Hr & _ & -> & _).
  destruct H2 as (width' & s & rs' & Hc' & _ & Hr' & -> & _).
  rewrite Hc in Hc'. injection Hc' as <-.
  rewrite Hr in Hr'. injection Hr' as <-.
  do 2 eexists. split; [reflexivity|]. split; [reflexivity|].
  rewrite block_place_content. apply rows_place_content.
  apply (of_paras_lines_nonempty _ _ _ Hr).
Qed.

Lemma X16_same_lines_witness :
  exists calls1 calls2,
    [TextCall 0 0 (lit "A") Specimen.flat_font Sample.ink;
     TextCall 0 24 (lit "B") Specimen.flat_font Sample.ink]
    = [] ++ calls1
    /\ [TextCall 3 5 (lit "A") Specimen.flat_font Sample.ink;
        TextCall 3 23 [] Specimen.flat_font Sample.ink;
        TextCall 3 41 (lit "B") Specimen.flat_font Sample.ink]
       = [] ++ calls2
    /\ map content calls1
       = filter (fun s => negb (Block.is_empty s)) (map content calls2).
Proof.
  apply (X16_same_lines [] 0 0 Sample.ink 0.25%float _ 36
           [] 3 5 Sample.ink 6 _ 59 Sample.a_blank_b Specimen.flat_font 20);
    vm_compute; reflexivity.
Defined.

(** X17: with a font size and a line spacing that are not negative,
    [draw_text_block] never moves up the page: no call is above the start
    and the returned [y] is not above it. *)
Theorem X17_text_block_goes_down d x y text f c max_width_px line_spacing d' y' :
  0 <= size f -> 0 <= line_spacing ->
  Block.draw_text_block d (x, y) text f c max_width_px line_spacing
  = Ok (d', y') ->
  y <= y'
  /\ exists calls, d' = d ++ calls /\ Forall (fun t => y <= at_y t) calls.
Proof.
  intros Hf Hl H. apply draw_text_block_inv in H.
  destruct H as (width & s & rs & _ & Hs & _ & -> & ->).
  pose proof (step_nonneg f line_spacing s Hf Hl Hs) as H0.
  split; [nia|]. eexists. split; [reflexivity|].
  apply block_place_below, H0.
Qed.

Lemma X17_text_block_goes_down_witness :
  5 <= 59
  /\ exists calls,
       [TextCall 3 5 (lit "A") Specimen.flat_font Sample.ink;
        TextCall 3 23 [] Specimen.flat_font Sample.ink;
        TextCall 3 41 (lit "B") Specimen.flat_font Sample.ink]
       = [] ++ calls
       /\ Forall (fun t => 5 <= at_y t) calls.
Proof.
  apply (X17_text_block_goes_down [] 3 5 Sample.a_blank_b Specimen.flat_font
           Sample.ink 20 6).
  - vm_compute. discriminate.
  - lia.
  - vm_compute. reflexivity.
Defined.

(** X20: [load_font] opens the first file of its list that exists and has
    the weight asked for, with the size asked for, and never a file of
    the other weight; it falls back to the default font exactly when no
    file of that weight exists.  The same holds for the shorter list of
    the template script. *)
Theorem X20_load_font_choice path_exists size bold :
  match Fonts.load_font path_exists size bold with
  | Fonts.Truetype p s =>
      s = size
      /\ path_exists p = true
      /\ exists before after,
           Fonts.preferred = before ++ (p, bold) :: after
           /\ forall q, In (q, bold) before -> path_exists q = false
  | Fonts.Default =>
      forall q, In (q, bold) Fonts.preferred -> path_exists q = false
  end
  /\ match Fonts.load_font_template path_exists size bold with
     | Fonts.Truetype p s =>
         s = size
         /\ path_exists p = true
         /\ exists before after,
              Fonts.preferred_template = before ++ (p, bold) :: after
              /\ forall q, In (q, bold) before -> path_exists q = false
     | Fonts.Default =>
         forall q, In (q, bold) Fonts.preferred_template ->
                   path_exists q = false
     end.
Proof.
  split; apply load_font_from; repeat constructor; discriminate.
Qed.

(** X24: the loop of [draw_guides] ends, and it rules one line every 56
    pixels from [top + int(H * 0.04)] up to, not including,
    [bottom - int(H * 0.05)]; for a height that is not negative all of
    them lie between the top and the bottom of the frame. *)
Theorem X24_guides_rules W H font_big font_small shapes :
  0 <= H ->
  Page.draw_guides W H font_big font_small = Ok shapes ->
  exists left right top bottom off foot,
    Page.part W Page.c_0_12 = Ok left
    /\ Page.part W Page.c_0_88 = Ok right
    /\ Page.part H Page.c_0_12 = Ok top
    /\ Page.part H Page.c_0_9 = Ok bottom
    /\ Page.part H Page.c_0_04 = Ok off
    /\ Page.part H Page.c_0_05 = Ok foot
    /\ (forall fuel,
          (Page.rules_fuel (bottom - foot) (top + off) <= fuel)%nat ->
          filter Page.is_rule shapes
          = Page.rules fuel left right (bottom - foot) (top + off))
    /\ filter Page.is_rule shapes
       = map (fun k => Rule (left + 12) (top + off + 56 * Z.of_nat k)
                            (right - 12) (top + off + 56 * Z.of_nat k)
                            (60, 50, 40, 36) 1)
             (seq 0 (Z.to_nat ((bottom - foot - (top + off) + 55) / 56)))
    /\ Forall (fun s => match Page.rule_y s with
                        | Some v => top <= v < bottom
                        | None => True
                        end) shapes.
Proof.
  intros HH. unfold Page.draw_guides.
  destruct (Page.part W Page.c_0_12) as [left|] eqn:E1; cbn [bind]; [|discriminate].
  destruct (Page.part W Page.c_0_88) as [right|] eqn:E2; cbn [bind]; [|discriminate].
  destruct (Page.part H Page.c_0_12) as [top|] eqn:E3; cbn [bind]; [|discriminate].
  destruct (Page.part H Page.c_0_9) as [bottom|] eqn:E4; cbn [bind]; [|discriminate].
  destruct (Page.part H Page.c_0_04) as [off|] eqn:E5; cbn [bind]; [|discriminate].
  destruct (Page.part H Page.c_0_05) as [foot|] eqn:E6; cbn [bind]; [|discriminate].
  destruct (Py.mul_int_float W 0.5) as [half|]; cbn [bind]; [|discriminate].
  destruct (Py.int_of_float _) as [tx|]; cbn [bind]; [|discriminate].
  destruct (Page.part H Page.c_0_08) as [ty|]; cbn [bind]; [|discriminate].
  intros [= <-].
  exists left, right, top, bottom, off, foot.
  do 6 (split; [reflexivity|]).
  assert (Hoff : 0 <= off).
  { apply (part_nonneg H Page.c_0_04 off HH); [vm_compute; constructor | exact E5]. }
  assert (Hfoot : 0 <= foot).
  { apply (part_nonneg H Page.c_0_05 foot HH); [vm_compute; constructor | exact E6]. }
  cbn [app].
  assert (F : forall fuel,
             filter Page.is_rule
               (Rectangle left top right bottom (60, 50, 40, 64) 3
                :: Page.rules fuel left right (bottom - foot) (top + off)
                ++ [Label tx ty (lit "Titel") font_big (50, 45, 40, 90);
                    Label (left + 8) (top - 40) (lit "Ort:") font_small
                      (50, 45, 40, 90);
                    Label (right - 220) (top - 40) (lit "Datum:") font_small
                      (50, 45, 40, 90)])
             = Page.rules fuel left right (bottom - foot) (top + off)).
  { intros fuel. cbn [filter Page.is_rule].
    rewrite filter_app, rules_are_rules. cbn [filter Page.is_rule].
    apply app_nil_r. }
  split; [|split].
  - intros fuel Hfuel. rewrite F.
    rewrite !(rules_spec left right (bottom - foot)) by (exact Hfuel || lia).
    reflexivity.
  - rewrite F. apply rules_spec. lia.
  - constructor; [exact I|]. apply Forall_app. split.
    + eapply Forall_impl; [|apply rules_between]. intros s. cbn beta.
      destruct (Page.rule_y s); [lia | trivial].
    + repeat constructor.
Qed.

Lemma X24_guides_rules_witness :
  exists left right top bottom off foot,
    Page.part 248 Page.c_0_12 = Ok left
    /\ Page.part 248 Page.c_0_88 = Ok right
    /\ Page.part 350 Page.c_0_12 = Ok top
    /\ Page.part 350 Page.c_0_9 = Ok bottom
    /\ Page.part 350 Page.c_0_04 = Ok off
    /\ Page.part 350 Page.c_0_05 = Ok foot
    /\ (forall fuel,
          (Page.rules_fuel (bottom - foot) (top + off) <= fuel)%nat ->
          filter Page.is_rule
            [Rectangle 29 42 218 315 (60, 50, 40, 64) 3;
             Rule 41 56 206 56 (60, 50, 40, 36) 1;
             Rule 41 112 206 112 (60, 50, 40, 36) 1;
             Rule 41 168 206 168 (60, 50, 40, 36) 1;
             Rule 41 224 206 224 (60, 50, 40, 36) 1;
             Rule 41 280 206 280 (60, 50, 40, 36) 1;
             Label 98 28 (lit "Titel") Specimen.flat_font (50, 45, 40, 90);
             Label 37 2 (lit "Ort:") Specimen.flat_font (50, 45, 40, 90);
             Label (-2) 2 (lit "Datum:") Specimen.flat_font (50, 45, 40, 90)]
          = Page.rules fuel left right (bottom - foot) (top + off))
    /\ filter Page.is_rule
         [Rectangle 29 42 218 315 (60, 50, 40, 64) 3;
          Rule 41 56 206 56 (60, 50, 40, 36) 1;
          Rule 41 112 206 112 (60, 50, 40, 36) 1;
          Rule 41 168 206 168 (60, 50, 40, 36) 1;
          Rule 41 224 206 224 (60, 50, 40, 36) 1;
          Rule 41 280 206 280 (60, 50, 40, 36) 1;
          Label 98 28 (lit "Titel") Specimen.flat_font (50, 45, 40, 90);
          Label 37 2 (lit "Ort:") Specimen.flat_font (50, 45, 40, 90);
          Label (-2) 2 (lit "Datum:") Specimen.flat_font (50, 45, 40, 90)]
       = map (fun k => Rule (left + 12) (top + off + 56 * Z.of_nat k)
                            (right - 12) (top + off + 56 * Z.of_nat k)
                            (60, 50, 40, 36) 1)
             (seq 0 (Z.to_nat ((bottom - foot - (top + off) + 55) / 56)))
    /\ Forall (fun s => match Page.rule_y s with
                        | Some v => top <= v < bottom
                        | None => True
                        end)
         [Rectangle 29 42 218 315 (60, 50, 40, 64) 3;
          Rule 41 56 206 56 (60, 50, 40, 36) 1;
          Rule 41 112 206 112 (60, 50, 40, 36) 1;
          Rule 41 168 206 168 (60, 50, 40, 36) 1;
          Rule 41 224 206 224 (60, 50, 40, 36) 1;
          Rule 41 280 206 280 (60, 50, 40, 36) 1;
          Label 98 28 (lit "Titel") Specimen.flat_font (50, 45, 40, 90);
          Label 37 2 (lit "Ort:") Specimen.flat_font (50, 45, 40, 90);
          Label (-2) 2 (lit "Datum:") Specimen.flat_font (50, 45, 40, 90)].
Proof.
  apply (X24_guides_rules 248 350 Specimen.flat_font Specimen.flat_font).
  - lia.
  - vm_compute. reflexivity.
Defined.

(** X21: with noise drawn between [low] and [high], where [-203 <= low]
    and [high <= 18] (as for the bounds -12, 12 and -10, 10 of the
    scripts), the clipping of [make_parchment] never acts: every channel
    of the texture is the base colour plus the noise. *)
Theorem X21_parchment_never_clips (bitgen : Type) (seeded : Z -> bitgen)
  (integers : Z -> Z -> nat -> bitgen -> list Z * bitgen)
  seed width height low high h :
  -203 <= low -> high <= 18 ->
  forallb (fun p => (low <=? p) && (p <? high))%bool
          (fst (integers low high (height * width * 3)%nat (seeded seed)))
  = true ->
  fst (Parchment.texture seeded integers seed width height low high h)
  = map (fun bp => fst bp + snd bp)
        (combine (Parchment.base_array (height * width))
                 (fst (integers low high (height * width * 3)%nat
                         (seeded seed))))
  /\ Forall (fun v => 203 + low <= v <= 237 + high)
            (fst (Parchment.texture seeded integers seed width height low
                    high h)).
Proof.
  intros Hl Hh Hn. rewrite texture_values.
  apply add_arrays_exact; [apply base_array_bounds | assumption ..].
Qed.

Lemma X21_parchment_never_clips_witness :
  fst (Parchment.texture (fun seed => seed) Sample.count_up 7 2 1 (-12) 12 [])
  = map (fun bp => fst bp + snd bp)
        (combine (Parchment.base_array (1 * 2))
                 (fst (Sample.count_up (-12) 12 (1 * 2 * 3)%nat 7)))
  /\ Forall (fun v => 203 + -12 <= v <= 237 + 12)
            (fst (Parchment.texture (fun seed => seed) Sample.count_up 7 2 1
                    (-12) 12 [])).
Proof.
  apply (X21_parchment_never_clips Z (fun seed => seed) Sample.count_up 7 2 1
           (-12) 12 []); [lia | lia | vm_compute; reflexivity].
Defined.

(** ** Rounded products *)

Section ProductRounding.
Import Rounding.
Local Open Scope R_scope.

Lemma valid_exponent m e :
  valid_binary (S754_finite false m e) = true ->
  fexp64 (Zpos (digits2_pos m) + e) = e.
Proof.
  unfold valid_binary, SpecFloat.valid_binary, bounded, canonical_mantissa.
  intros H. apply andb_prop in H as [H _]. apply Z.eqb_eq in H. exact H.
Qed.

Lemma Zdigits2_mul mx my :
  (Zpos (digits2_pos mx) + Zpos (digits2_pos my) - 1
   <= Zdigits2 (Zpos (mx * my)))%Z.
Proof.
  pose proof (digits2_pos_bounds mx) as [Bx _].
  pose proof (digits2_pos_bounds my) as [By _].
  set (dx := Zpos (digits2_pos mx)) in *.
  set (dy := Zpos (digits2_pos my)) in *.
  assert (Hdx : (1 <= dx)%Z) by (unfold dx; lia).
  assert (Hdy : (1 <= dy)%Z) by (unfold dy; lia).
  assert (P : (2 ^ (dx + dy - 2) <= Zpos (mx * my))%Z).
  { replace (dx + dy - 2)%Z with ((dx - 1) + (dy - 1))%Z by lia.
    rewrite Z.pow_add_r by lia. rewrite Pos2Z.inj_mul.
    apply Z.mul_le_mono_nonneg; try lia; apply Z.pow_nonneg; lia. }
  pose proof (Zdigits2_gt (Zpos (mx * my)) (dx + dy - 2) ltac:(lia) P). lia.
Qed.

(** The product of two positive floats is their real product, rounded to
    nearest. *)
Lemma mul_pos x y mx ex my ey :
  Prim2SF x = S754_finite false mx ex ->
  Prim2SF y = S754_finite false my ey ->
  exists u, Rnd (F2R (Zpos mx) ex * F2R (Zpos my) ey) u /\
    match Prim2SF (x * y) with
    | S754_zero false => u = 0
    | S754_finite false m e =>
        u = F2R (Zpos m) e /\ valid_binary (S754_finite false m e) = true
    | S754_infinity false => True
    | _ => False
    end.
Proof.
  intros Hx Hy.
  pose proof (Prim2SF_valid x) as Vx. rewrite Hx in Vx.
  pose proof (Prim2SF_valid y) as Vy. rewrite Hy in Vy.
  apply valid_exponent in Vx. apply valid_exponent in Vy.
  rewrite mul_spec, Hx, Hy. unfold SF64mul. cbn [SFmul xorb].
  apply binary_round_aux_spec.
  - lia.
  - cbn [inb]. unfold F2R. rewrite Pos2Z.inj_mul, mult_IZR, bpow_add. ring.
  - pose proof (Zdigits2_mul mx my) as D.
    rewrite fexp64_eq in *.
    set (dx := Zpos (digits2_pos mx)) in *.
    set (dy := Zpos (digits2_pos my)) in *.
    assert (Hdx : (1 <= dx)%Z) by (unfold dx; lia).
    assert (Hdy : (1 <= dy)%Z) by (unfold dy; lia).
    lia.
Qed.

Lemma bpow_neg p : bpow (Zneg p) = / IZR (2 ^ Zpos p).
Proof.
  rewrite <- (bpow_IZR (Zpos p)) by lia.
  pose proof (bpow_pos (Zpos p)) as P.
  apply Rmult_eq_reg_r with (bpow (Zpos p)); [|lra].
  rewrite <- bpow_add. change (Zneg p + Zpos p)%Z with (- Zpos p + Zpos p)%Z.
  rewrite Z.add_opp_diag_l, bpow_0. field. lra.
Qed.

(** Rounding moves a number by little. *)
Lemma Rnd_upper t v : 0 <= t -> Rnd t v -> v <= t * (1 + / 1024) + / 1024.
Proof.
  intros Ht (e & k & G & (Hk & N & _) & ->). unfold F2R.
  pose proof (bpow_pos e) as Hb.
  assert (B10 : bpow (-10) = / 1024).
  { rewrite bpow_neg. f_equal. }
  destruct G as [[-> _] | [_ [G _]]].
  - pose proof (bpow_le (-1074) (-10) ltac:(lia)) as L. rewrite B10 in L. lra.
  - rewrite bpow_add in G.
    pose proof (bpow_le 10 52 ltac:(lia)) as L.
    assert (B : bpow 10 = 1024) by (rewrite bpow_IZR by lia; reflexivity).
    rewrite B in L.
    assert (bpow e * 1024 <= t) by nra.
    lra.
Qed.

Lemma float_of_int_zero : Py.float_of_int 0 = Ok 0%float.
Proof. reflexivity. Qed.

(** [int] of the product of two positive floats: the floor of the
    rounded real product. *)
Lemma product_rounded fx r mx ex mr er k :
  Prim2SF fx = S754_finite false mx ex ->
  Prim2SF r = S754_finite false mr er ->
  Py.int_of_float (fx * r) = Ok k ->
  exists u, Rnd (F2R (Zpos mx) ex * F2R (Zpos mr) er) u
            /\ IZR k <= u < IZR k + 1.
Proof.
  intros Hx Hr Hk.
  destruct (mul_pos fx r mx ex mr er Hx Hr) as (u & Ru & Hu).
  exists u. split; [exact Ru|]. apply (int_of_rounded _ _ _ Hk Hu).
Qed.

Lemma part_zero r mr er k :
  Prim2SF r = S754_finite false mr er -> Page.part 0 r = Ok k -> k = 0%Z.
Proof.
  intros Hr. unfold Page.part, Py.mul_int_float. rewrite float_of_int_zero.
  cbn [bind]. unfold Py.int_of_float. rewrite mul_spec, Hr.
  change (Prim2SF 0) with (S754_zero false). unfold SF64mul. cbn [SFmul xorb].
  intros [= <-]. reflexivity.
Qed.

(** An exception out of [int(n * r)], for [n >= 0] and a positive float
    [r], is an [OverflowError]. *)
Lemma part_overflow n r mr er e :
  (0 <= n)%Z -> Prim2SF r = S754_finite false mr er ->
  Page.part n r = Raise e -> e = OverflowError.
Proof.
  intros Hn Hr. unfold Page.part, Py.mul_int_float.
  destruct (Py.float_of_int n) as [fx|e'] eqn:F; cbn [bind].
  - destruct (Z.eq_dec n 0) as [-> | N].
    + rewrite float_of_int_zero in F. injection F as <-.
      unfold Py.int_of_float. rewrite mul_spec, Hr.
      change (Prim2SF 0) with (S754_zero false). unfold SF64mul.
      cbn [SFmul xorb]. discriminate.
    + destruct (float_of_int_pos n fx ltac:(lia) F) as (mx & ex & Hx & _).
      destruct (mul_pos fx r mx ex mr er Hx Hr) as (u & _ & Hu).
      unfold Py.int_of_float.
      destruct (Prim2SF (fx * r)) as [[|]|[|]| |[|] m e0];
        try contradiction; try discriminate.
      intros [= <-]. reflexivity.
  - intros [= <-]. apply (float_of_int_raise _ _ F).
Qed.


(** [int(n * r)] grows with [r]. *)
Lemma part_monotone_factor n r1 r2 m1 e1 m2 e2 k1 k2 :
  (0 <= n)%Z ->
  Prim2SF r1 = S754_finite false m1 e1 ->
  Prim2SF r2 = S754_finite false m2 e2 ->
  F2R (Zpos m1) e1 <= F2R (Zpos m2) e2 ->
  Page.part n r1 = Ok k1 -> Page.part n r2 = Ok k2 -> (k1 <= k2)%Z.
Proof.
  intros Hn Hr1 Hr2 Hle H1 H2.
  destruct (Z.eq_dec n 0) as [-> | N].
  { rewrite (part_zero r1 m1 e1 k1 Hr1 H1), (part_zero r2 m2 e2 k2 Hr2 H2). lia. }
  revert H1 H2. unfold Page.part, Py.mul_int_float.
  destruct (Py.float_of_int n) as [x|] eqn:F; cbn [bind]; [|discriminate].
  intros H1 H2.
  destruct (float_of_int_pos n x ltac:(lia) F) as (m & e & P & R).
  destruct (product_rounded x r1 m e m1 e1 k1 P Hr1 H1) as (u1 & Ru1 & B1).
  destruct (product_rounded x r2 m e m2 e2 k2 P Hr2 H2) as (u2 & Ru2 & B2).
  assert (Hu : u1 <= u2).
  { refine (Rnd_monotone _ _ _ _ _ Ru1 Ru2).
    pose proof (F2R_pos m e). nra. }
  assert (H : IZR k1 < IZR k2 + 1) by lra.
  rewrite <- plus_IZR in H. apply lt_IZR in H. lia.
Qed.

(** [int(n * r)] is at most a little above the real product. *)
Lemma part_upper n r mr er k :
  (0 <= n)%Z -> Prim2SF r = S754_finite false mr er ->
  Page.part n r = Ok k ->
  IZR k <= IZR n * F2R (Zpos mr) er * (1 + / 256) + / 1024.
Proof.
  intros Hn Hr H.
  pose proof (F2R_pos mr er) as Pc.
  destruct (Z.eq_dec n 0) as [-> | N].
  { rewrite (part_zero r mr er k Hr H). lra. }
  revert H. unfold Page.part, Py.mul_int_float.
  destruct (Py.float_of_int n) as [x|] eqn:F; cbn [bind]; [|discriminate].
  intros H.
  destruct (float_of_int_pos n x ltac:(lia) F) as (m & e & P & R).
  destruct (product_rounded x r m e mr er k P Hr H) as (u & Ru & B).
  assert (N1 : 1 <= IZR n) by (apply IZR_le; lia).
  pose proof (Rnd_upper (IZR n) _ ltac:(lra) R) as Ux.
  pose proof (F2R_pos m e) as Px.
  set (c := F2R (Zpos mr) er) in *. set (fx := F2R (Zpos m) e) in *.
  assert (Ux' : fx <= IZR n * (1 + / 512)) by lra.
  assert (T : 0 <= fx * c) by nra.
  pose proof (Rnd_upper (fx * c) u T Ru) as Uu.
  assert (fx * c <= IZR n * c * (1 + / 512)) by nra.
  assert (IZR n * c * (1 + / 512) * (1 + / 1024)
          <= IZR n * c * (1 + / 256)).
  { assert (0 <= IZR n * c) by nra. nra. }
  nra.
Qed.

End ProductRounding.

(** ** The page geometry *)

Section GeometryFacts.
Import Rounding Page.
Local Open Scope R_scope.

Lemma c_0_025_value :
  Prim2SF c_0_025 = S754_finite false 7205759403792794 (-58).
Proof. reflexivity. Qed.

Lemma c_0_12_value :
  Prim2SF c_0_12 = S754_finite false 8646911284551352 (-56).
Proof. reflexivity. Qed.

Lemma c_0_88_value :
  Prim2SF c_0_88 = S754_finite false 7926335344172073 (-53).
Proof. reflexivity. Qed.

Lemma c_0_9_value :
  Prim2SF c_0_9 = S754_finite false 8106479329266893 (-53).
Proof. reflexivity. Qed.

Lemma c_0_025_bound : F2R 7205759403792794 (-58) <= / 32.
Proof.
  unfold F2R. rewrite bpow_neg.
  change (2 ^ 58)%Z with 288230376151711744%Z. lra.
Qed.

Lemma c_0_12_bound : F2R 8646911284551352 (-56) <= / 8.
Proof.
  unfold F2R. rewrite bpow_neg.
  change (2 ^ 56)%Z with 72057594037927936%Z. lra.
Qed.

Lemma c_0_88_bounds : / 8 <= F2R 7926335344172073 (-53) <= 91 / 100.
Proof.
  unfold F2R. rewrite bpow_neg.
  change (2 ^ 53)%Z with 9007199254740992%Z. lra.
Qed.

Lemma c_0_9_bounds : / 8 <= F2R 8106479329266893 (-53) <= 91 / 100.
Proof.
  unfold F2R. rewrite bpow_neg.
  change (2 ^ 53)%Z with 9007199254740992%Z. lra.
Qed.

(** [int(n * r)] is at most [n] when [r] is at most 0.91, and at most
    half of [n] when [r] is at most 1/32. *)
Lemma part_le n r mr er k :
  (0 <= n)%Z -> Prim2SF r = S754_finite false mr er ->
  F2R (Zpos mr) er <= 91 / 100 ->
  Page.part n r = Ok k -> (k <= n)%Z.
Proof.
  intros Hn Hr Hc H.
  pose proof (part_upper n r mr er k Hn Hr H) as U.
  pose proof (F2R_pos mr er) as Pc.
  assert (N0 : 0 <= IZR n) by (apply IZR_le; lia).
  assert (IZR n * F2R (Zpos mr) er <= IZR n * (91 / 100)) by nra.
  assert (L : IZR k < IZR n + 1) by nra.
  rewrite <- plus_IZR in L. apply lt_IZR in L. lia.
Qed.

Lemma part_half n r mr er k :
  (0 <= n)%Z -> Prim2SF r = S754_finite false mr er ->
  F2R (Zpos mr) er <= / 32 ->
  Page.part n r = Ok k -> (2 * k <= n)%Z.
Proof.
  intros Hn Hr Hc H.
  pose proof (part_upper n r mr er k Hn Hr H) as U.
  pose proof (F2R_pos mr er) as Pc.
  assert (N0 : 0 <= IZR n) by (apply IZR_le; lia).
  assert (IZR n * F2R (Zpos mr) er <= IZR n * / 32) by nra.
  assert (L : IZR (2 * k) < IZR n + 1) by (rewrite mult_IZR; nra).
  rewrite <- plus_IZR in L. apply lt_IZR in L. lia.
Qed.

Lemma margin_bounds width height m :
  (0 <= width)%Z -> (0 <= height)%Z ->
  margin width height = Ok m ->
  (0 <= m /\ 2 * m <= width /\ 2 * m <= height)%Z.
Proof.
  intros Hw Hh H. unfold margin in H.
  assert (Hn : (0 <= Z.min width height)%Z) by lia.
  assert (S : signed false (Prim2SF c_0_025))
    by (rewrite c_0_025_value; constructor).
  pose proof (part_nonneg _ _ _ Hn S H) as M0.
  pose proof (part_half _ _ _ _ _ Hn c_0_025_value c_0_025_bound H) as M2.
  lia.
Qed.


End GeometryFacts.

Section RangeLoopFacts.
Import Page.


End RangeLoopFacts.

(** X22: for a page size that is not negative, the rectangle of the
    vignette of [make_parchment] is well formed and lies on the page, and
    the two fold lines run from left to right across the page: the margin
    never exceeds half of the width or of the height. *)
Theorem X22_parchment_geometry width height :
  0 <= width -> 0 <= height ->
  match Page.vignette_box width height with
  | Ok (x0, y0, x1, y1) =>
      0 <= x0 <= x1 /\ x1 <= width /\ 0 <= y0 <= y1 /\ y1 <= height
  | Raise e => e = OverflowError
  end
  /\ match Page.folds width height with
     | Ok shapes =>
         Forall (fun s => match s with
                          | Rule x0 ya x1 yb _ _ =>
                              0 <= x0 <= x1 /\ x1 <= width
                              /\ ya = yb /\ 0 <= ya <= height
                          | _ => False
                          end) shapes
     | Raise e => e = OverflowError
     end.
Proof.
  intros Hw Hh. unfold Page.vignette_box, Page.folds.
  destruct (Page.margin width height) as [m|e] eqn:M; cbn [bind].
  - destruct (margin_bounds width height m Hw Hh M) as (M0 & Mw & Mh).
    split; [lia|].
    assert (0 <= height / 3 <= height).
    { split; [apply Z.div_pos; lia|].
      apply Z.div_le_upper_bound; lia. }
    assert (0 <= 2 * height / 3 <= height).
    { split; [apply Z.div_pos; lia|].
      apply Z.div_le_upper_bound; lia. }
    repeat constructor; lia.
  - assert (E : e = OverflowError).
    { unfold Page.margin in M.
      assert (Hn : 0 <= Z.min width height) by lia.
      apply (part_overflow _ _ _ _ _ Hn c_0_025_value M). }
    split; exact E.
Qed.

Lemma X22_parchment_geometry_witness :
  match Page.vignette_box 2480 3508 with
  | Ok (x0, y0, x1, y1) =>
      0 <= x0 <= x1 /\ x1 <= 2480 /\ 0 <= y0 <= y1 /\ y1 <= 3508
  | Raise e => e = OverflowError
  end
  /\ match Page.folds 2480 3508 with
     | Ok shapes =>
         Forall (fun s => match s with
                          | Rule x0 ya x1 yb _ _ =>
                              0 <= x0 <= x1 /\ x1 <= 2480
                              /\ ya = yb /\ 0 <= ya <= 3508
                          | _ => False
                          end) shapes
     | Raise e => e = OverflowError
     end.
Proof. apply (X22_parchment_geometry 2480 3508); lia. Defined.

(** X23: for an image size that is not negative, the frame [draw_guides]
    draws is well formed and lies on the image: its left edge is not
    right of its right edge, its top not below its bottom. *)
Theorem X23_guides_frame W H font_big font_small shapes :
  0 <= W -> 0 <= H ->
  Page.draw_guides W H font_big font_small = Ok shapes ->
  exists left top right bottom rest,
    shapes = Rectangle left top right bottom (60, 50, 40, 64) 3 :: rest
    /\ 0 <= left <= right /\ right <= W
    /\ 0 <= top <= bottom /\ bottom <= H.
Proof.
  intros HW HH. unfold Page.draw_guides.
  destruct (Page.part W Page.c_0_12) as [left|] eqn:E1; cbn [bind]; [|discriminate].
  destruct (Page.part W Page.c_0_88) as [right|] eqn:E2; cbn [bind]; [|discriminate].
  destruct (Page.part H Page.c_0_12) as [top|] eqn:E3; cbn [bind]; [|discriminate].
  destruct (Page.part H Page.c_0_9) as [bottom|] eqn:E4; cbn [bind]; [|discriminate].
  destruct (Page.part H Page.c_0_04) as [off|]; cbn [bind]; [|discriminate].
  destruct (Page.part H Page.c_0_05) as [foot|]; cbn [bind]; [|discriminate].
  destruct (Py.mul_int_float W 0.5) as [half|]; cbn [bind]; [|discriminate].
  destruct (Py.int_of_float _) as [tx|]; cbn [bind]; [|discriminate].
  destruct (Page.part H Page.c_0_08) as [ty|]; cbn [bind]; [|discriminate].
  intros [= <-]. cbn [app].
  exists left, top, right, bottom. eexists. split; [reflexivity|].
  assert (S12 : signed false (Prim2SF Page.c_0_12))
    by (rewrite c_0_12_value; constructor).
  pose proof (part_nonneg _ _ _ HW S12 E1).
  pose proof (part_nonneg _ _ _ HH S12 E3).
  pose proof (part_monotone_factor W _ _ _ _ _ _ _ _ HW c_0_12_value
                c_0_88_value
                (Rle_trans _ _ _ c_0_12_bound (proj1 c_0_88_bounds)) E1 E2).
  pose proof (part_monotone_factor H _ _ _ _ _ _ _ _ HH c_0_12_value
                c_0_9_value
                (Rle_trans _ _ _ c_0_12_bound (proj1 c_0_9_bounds)) E3 E4).
  pose proof (part_le W _ _ _ _ HW c_0_88_value (proj2 c_0_88_bounds) E2).
  pose proof (part_le H _ _ _ _ HH c_0_9_value (proj2 c_0_9_bounds) E4).
  lia.
Qed.

Lemma X23_guides_frame_witness :
  exists left top right bottom rest,
    [Rectangle 29 42 218 315 (60, 50, 40, 64) 3;
     Rule 41 56 206 56 (60, 50, 40, 36) 1;
     Rule 41 112 206 112 (60, 50, 40, 36) 1;
     Rule 41 168 206 168 (60, 50, 40, 36) 1;
     Rule 41 224 206 224 (60, 50, 40, 36) 1;
     Rule 41 280 206 280 (60, 50, 40, 36) 1;
     Label 98 28 (lit "Titel") Specimen.flat_font (50, 45, 40, 90);
     Label 37 2 (lit "Ort:") Specimen.flat_font (50, 45, 40, 90);
     Label (-2) 2 (lit "Datum:") Specimen.flat_font (50, 45, 40, 90)]
    = Rectangle left top right bottom (60, 50, 40, 64) 3 :: rest
    /\ 0 <= left <= right /\ right <= 248
    /\ 0 <= top <= bottom /\ bottom <= 350.
Proof.
  apply (X23_guides_frame 248 350 Specimen.flat_font Specimen.flat_font).
  - lia.
  - lia.
  - vm_compute. reflexivity.
Defined.



(** ** Floats that are exact *)

Section ExactFacts.
Import Rounding.
Local Open Scope R_scope.

(** A float rounds to itself. *)
Lemma Rnd_exact m e :
  valid_binary (S754_finite false m e) = true ->
  Rnd (F2R (Zpos m) e) (F2R (Zpos m) e).
Proof.
  intros V. apply valid_exponent in V. rewrite fexp64_eq in V.
  pose proof (digits2_pos_bounds m) as [B1 B2].
  set (d := Zpos (digits2_pos m)) in *.
  assert (Hd : (1 <= d)%Z) by (unfold d; lia).
  pose proof (bpow_pos e) as Hb.
  exists e, (Zpos m). split; [|split; [|reflexivity]].
  - destruct (Z.eq_dec e (-1074)) as [-> | N].
    + left. split; [reflexivity|]. unfold F2R.
      assert (Hm : IZR (Zpos m) < bpow 53).
      { rewrite (bpow_IZR 53) by lia. apply IZR_lt.
        assert (2 ^ d <= 2 ^ 53)%Z by (apply Z.pow_le_mono_r; lia). lia. }
      replace (-1021)%Z with (53 + -1074)%Z by lia. rewrite bpow_add.
      pose proof (bpow_pos (-1074)). nra.
    + right. assert (D : d = 53%Z) by lia. split; [lia|]. unfold F2R.
      rewrite D in B1, B2. change (53 - 1)%Z with 52%Z in B1.
      apply IZR_le in B1. apply IZR_lt in B2.
      rewrite <- (bpow_IZR 52) in B1 by lia.
      rewrite <- (bpow_IZR 53) in B2 by lia.
      rewrite (Z.add_comm e 52), (Z.add_comm e 53), !bpow_add. nra.
  - unfold NE, F2R. split; [lia|]. split; [nra|].
    intros [E | E]; exfalso; nra.
Qed.

Lemma Rnd_unique x v1 v2 : Rnd x v1 -> Rnd x v2 -> v1 = v2.
Proof.
  intros H1 H2.
  pose proof (Rnd_monotone x x v1 v2 (Rle_refl x) H1 H2).
  pose proof (Rnd_monotone x x v2 v1 (Rle_refl x) H2 H1).
  lra.
Qed.

(** An integer below [2^53] is a float. *)
Lemma Rnd_integer w : (0 < w < 2 ^ 53)%Z -> Rnd (IZR w) (IZR w).
Proof.
  intros Hw. destruct w as [|p|p]; try lia.
  pose proof (digits2_pos_bounds p) as [B1 B2].
  set (d := Zpos (digits2_pos p)) in *.
  assert (Hd : (1 <= d)%Z) by (unfold d; lia).
  assert (Hd53 : (d <= 53)%Z).
  { destruct (Z_le_gt_dec d 53) as [L | G]; [exact L|]. exfalso.
    assert (2 ^ 53 <= 2 ^ (d - 1))%Z by (apply Z.pow_le_mono_r; lia). lia. }
  assert (E : IZR (Zpos p * 2 ^ (53 - d)) * bpow (d - 53) = IZR (Zpos p)).
  { rewrite mult_IZR, <- (bpow_IZR (53 - d)) by lia.
    rewrite Rmult_assoc, <- bpow_add.
    replace (53 - d + (d - 53))%Z with 0%Z by lia. rewrite bpow_0. ring. }
  exists (d - 53)%Z, (Zpos p * 2 ^ (53 - d))%Z.
  split; [|split].
  - right. split; [lia|].
    replace (d - 53 + 52)%Z with (d - 1)%Z by lia.
    replace (d - 53 + 53)%Z with d by lia.
    rewrite !bpow_IZR by lia. split; [apply IZR_le | apply IZR_lt]; lia.
  - unfold NE. pose proof (bpow_pos (d - 53)) as Hb.
    assert (P2 : (0 < 2 ^ (53 - d))%Z) by (apply Z.pow_pos_nonneg; lia).
    split; [lia|]. rewrite <- E.
    set (k := IZR (Zpos p * 2 ^ (53 - d))) in *.
    split; [nra|]. intros [K | K]; exfalso; nra.
  - unfold F2R. symmetry. exact E.
Qed.

Lemma float_of_int_exact w x :
  (0 < w < 2 ^ 53)%Z -> Py.float_of_int w = Ok x ->
  exists m e, Prim2SF x = S754_finite false m e /\ F2R (Zpos m) e = IZR w.
Proof.
  intros Hw F.
  destruct (float_of_int_pos w x ltac:(lia) F) as (m & e & P & R).
  exists m, e. split; [exact P|].
  apply (Rnd_unique (IZR w)); [exact R | apply Rnd_integer, Hw].
Qed.

Lemma one_value : F2R 4503599627370496 (-52) = 1.
Proof.
  unfold F2R. rewrite bpow_neg.
  change (2 ^ 52)%Z with 4503599627370496%Z. field.
Qed.

Lemma SFltb_false_finite m e m' e' :
  SFltb (S754_finite false m e) (S754_finite false m' e') = false ->
  (e' < e \/ (e = e' /\ Zpos m' <= Zpos m))%Z.
Proof.
  unfold SFltb, SFcompare. intros L.
  destruct (Z.compare_spec e e') as [E | E | E]; try discriminate L.
  - right. split; [exact E|].
    pose proof (Pos.compare_spec m m') as S. unfold Pos.compare in S.
    destruct (Pos.compare_cont Eq m m'); try discriminate L; inversion S; lia.
  - left. lia.
Qed.

(** The average glyph width, when it is a number, is at least one. *)
Lemma max_1_at_least_1 x m e :
  Prim2SF (Py.max_1 x) = S754_finite false m e -> 1 <= F2R (Zpos m) e.
Proof.
  unfold Py.max_1. destruct (x <? 1)%float eqn:L.
  - change (Prim2SF 1) with (S754_finite false 4503599627370496 (-52)).
    intros [= <- <-]. rewrite one_value. lra.
  - intros P. rewrite ltb_spec, P in L.
    pose proof (Prim2SF_valid x) as V. rewrite P in V.
    apply valid_exponent in V. rewrite fexp64_eq in V.
    change (Prim2SF 1) with (S754_finite false 4503599627370496 (-52)) in L.
    apply SFltb_false_finite in L.
    pose proof (digits2_pos_bounds m) as [B1 B2].
    set (d := Zpos (digits2_pos m)) in *.
    assert (Hd : (1 <= d)%Z) by (unfold d; lia).
    assert (M : (4503599627370496 <= Zpos m)%Z).
    { destruct L as [L | [_ L]]; [|exact L].
      assert (D : d = 53%Z) by lia. rewrite D in B1. exact B1. }
    assert (He : (-52 <= e)%Z) by lia.
    apply IZR_le in M.
    pose proof (bpow_le (-52) e He) as Le.
    pose proof (bpow_pos (-52)) as Pb.
    pose proof one_value as O. unfold F2R in *. nra.
Qed.

(** On widths below [2^53] the column budget is at most the width, or
    20. *)
Lemma cols_at_most_width f w c :
  (w < 2 ^ 53)%Z -> Layout.cols f w = Ok c -> (c <= Z.max w 20)%Z.
Proof.
  intros Hw H.
  destruct (Z_le_gt_dec w 0) as [L | G].
  { pose proof (cols_cases f w) as C. rewrite H in C. lia. }
  pose proof (max_1_signed (getlength f Layout.alphabet / 52)%float) as Sa.
  pose proof (max_1_nonzero (getlength f Layout.alphabet / 52)%float) as Za.
  pose proof (max_1_at_least_1 (getlength f Layout.alphabet / 52)%float) as A1.
  change (Py.max_1 (getlength f Layout.alphabet / 52)) with (Layout.avg f)
    in Sa, Za, A1.
  revert H. unfold Layout.cols, Py.truediv.
  destruct (Py.float_of_int w) as [x|] eqn:F; [|discriminate].
  cbn [bind]. rewrite Za. cbn [bind].
  destruct (Py.int_of_float (x / Layout.avg f)) as [n|] eqn:I;
    [|cbn [bind]; intros; discriminate].
  cbn [bind]. intros [= <-].
  destruct (float_of_int_exact w x ltac:(lia) F) as (m & e & P & Ex).
  cut (n <= w)%Z; [lia|].
  inversion Sa as [E | E | E | ma ea E].
  - exfalso. revert I. unfold Py.int_of_float.
    rewrite div_spec, P, <- E. unfold SF64div. cbn [SFdiv]. discriminate.
  - exfalso. rewrite eqb_spec, <- E in Za. vm_compute in Za. discriminate Za.
  - revert I. unfold Py.int_of_float.
    rewrite div_spec, P, <- E. unfold SF64div. cbn [SFdiv xorb].
    intros [= <-]. lia.
  - symmetry in E. specialize (A1 ma ea E).
    destruct (div_pos x (Layout.avg f) m e ma ea P E) as (u & Ru & Hu).
    pose proof (int_of_rounded _ _ _ I Hu) as B.
    pose proof (Prim2SF_valid x) as V. rewrite P in V.
    pose proof (Rnd_exact m e V) as Rx.
    assert (Hu' : u <= F2R (Zpos m) e).
    { refine (Rnd_monotone _ _ _ _ _ Ru Rx).
      pose proof (F2R_pos m e) as Px.
      apply Rmult_le_reg_r with (F2R (Zpos ma) ea); [lra|].
      unfold Rdiv. rewrite Rmult_assoc, Rinv_l by lra. nra. }
    assert (K : IZR n <= IZR w) by lra.
    apply le_IZR in K. exact K.
Qed.

End ExactFacts.

(** ** Line heights that are not negative *)

Section CursorFacts.

Lemma add_1_signed ls :
  (0 <=? ls)%float = true -> signed false (Prim2SF (1 + ls)).
Proof.
  rewrite leb_spec, add_spec.
  change (Prim2SF 0) with (S754_zero false).
  change (Prim2SF 1) with (S754_finite false 4503599627370496 (-52)).
  unfold SFleb, SFcompare, SF64add.
  destruct (Prim2SF ls) as [s|[|]| |[|] m e]; cbn [SFadd]; intros H;
    try discriminate H; try constructor.
  cbn [cond_Zopp]. 
  change (Z.pos (fst (shl_align 4503599627370496 (-52) (Z.min (-52) e)))
          + Z.pos (fst (shl_align m e (Z.min (-52) e))))
    with (Z.pos (fst (shl_align 4503599627370496 (-52) (Z.min (-52) e))
                 + fst (shl_align m e (Z.min (-52) e)))).
  cbn [binary_normalize]. apply binary_round_signed.
Qed.

Lemma line_height_nonneg f ls h :
  0 <= size f -> (0 <=? ls)%float = true ->
  Layout.line_height f ls = Ok h -> 0 <= h.
Proof.
  intros Hf Hl. unfold Layout.line_height.
  destruct (Py.mul_int_float (size f) (1 + ls)) as [p|] eqn:Hp; cbn [bind];
    [|discriminate].
  apply int_of_signed_false.
  pose proof (mul_int_float_signed (size f) (1 + ls) p false
                (add_1_signed ls Hl) Hp) as S.
  replace (size f <? 0) with false in S by (symmetry; apply Z.ltb_ge; lia).
  exact S.
Qed.

Lemma visible_length s : (length (Glyphs.visible s) <= length s)%nat.
Proof. apply filter_length_le. Qed.

Lemma concat_length_bound width (l : list str) :
  Forall (fun s => PyStr.len s <= width) l ->
  Z.of_nat (length (concat l)) <= width * Z.of_nat (length l).
Proof.
  induction 1 as [|s l Hs _ IH]; [cbn; lia|].
  cbn [concat length]. rewrite length_app, Nat2Z.inj_add, Nat2Z.inj_succ.
  unfold PyStr.len in Hs. lia.
Qed.

End CursorFacts.

(** X2: on width budgets below [2^53] the column budget is never above
    the width budget, or 20 where that is more: no more columns than
    pixels. *)
Theorem X2_cols_at_most_width f w c :
  w < 2 ^ 53 -> Layout.cols f w = Ok c -> c <= Z.max w 20.
Proof. apply cols_at_most_width. Qed.

Lemma X2_cols_at_most_width_witness : 41 <= Z.max 41 20.
Proof.
  apply (X2_cols_at_most_width Specimen.flat_font 41 41);
    [reflexivity | vm_compute; reflexivity].
Defined.

(** X8: with a font size that is not negative and a line spacing of zero
    or more, [draw_wrapped] never moves up the page: the line height is
    not negative and the returned [y] is not above the start. *)
Theorem X8_cursor_never_moves_up d x y text f c max_width_px line_spacing d' y' :
  0 <= size f -> (0 <=? line_spacing)%float = true ->
  Draw.draw_wrapped d (x, y) text f c max_width_px line_spacing = Ok (d', y') ->
  exists h, Layout.line_height f line_spacing = Ok h /\ 0 <= h /\ y <= y'.
Proof.
  intros Hf Hl H. apply draw_wrapped_inv in H.
  destruct H as (width & h & rs & _ & Hh & _ & _ & _ & ->).
  pose proof (line_height_nonneg f line_spacing h Hf Hl Hh) as H0.
  exists h. split; [exact Hh|]. split; [exact H0 | nia].
Qed.

Lemma X8_cursor_never_moves_up_witness :
  exists h, Layout.line_height Specimen.flat_font 0.25 = Ok h
            /\ 0 <= h /\ 5 <= 29.
Proof.
  apply (X8_cursor_never_moves_up [] 3 5 Specimen.two_paragraphs
           Specimen.flat_font Sample.ink 20 0.25%float
           [TextCall 3 5 (lit "ab  cd") Specimen.flat_font Sample.ink;
            TextCall 3 17 (lit " e") Specimen.flat_font Sample.ink] 29).
  - vm_compute. discriminate.
  - vm_compute. reflexivity.
  - vm_compute. reflexivity.
Defined.

(** X10: [draw_wrapped] makes at least as many calls as the visible
    characters of the text need at the column budget: the visible
    characters are at most the column budget times the number of
    calls. *)
Theorem X10_lines_needed d x y text f c max_width_px line_spacing d' y' width :
  Layout.cols f max_width_px = Ok width ->
  Draw.draw_wrapped d (x, y) text f c max_width_px line_spacing = Ok (d', y') ->
  exists calls,
    d' = d ++ calls
    /\ Z.of_nat (length (Glyphs.visible text))
       <= width * Z.of_nat (length calls).
Proof.
  intros Hc H.
  destruct (draws_visible _ _ _ _ _ _ _ _ _ _ H) as (calls & E & V).
  exists calls. split; [exact E|].
  apply draw_wrapped_inv in H.
  destruct H as (width' & h & rs & Hc' & _ & Hr & _ & E' & _).
  rewrite Hc in Hc'. injection Hc' as <-.
  rewrite E in E'. apply app_inv_head in E'. subst calls.
  rewrite <- V.
  pose proof (visible_length
                (concat (map content (Rows.place x f c h rs y)))) as L.
  pose proof (concat_length_bound width
                (map content (Rows.place x f c h rs y))) as B.
  rewrite length_map in B.
  assert (F : Forall (fun s => PyStr.len s <= width)
                     (map content (Rows.place x f c h rs y))).
  { rewrite Forall_map. apply place_width. apply (of_paras_width _ _ _ Hr). }
  specialize (B F). lia.
Qed.

Lemma X10_lines_needed_witness :
  exists calls,
    [TextCall 3 5 (lit "ab  cd") Specimen.flat_font Sample.ink;
     TextCall 3 17 (lit " e") Specimen.flat_font Sample.ink]
    = [] ++ calls
    /\ Z.of_nat (length (Glyphs.visible Specimen.two_paragraphs))
       <= 20 * Z.of_nat (length calls).
Proof.
  apply (X10_lines_needed [] 3 5 Specimen.two_paragraphs Specimen.flat_font
           Sample.ink 20 0.25%float _ 29 20); vm_compute; reflexivity.
Defined.

(** X13: a newline at the end of the text costs one line height: the text
    with a newline after it is drawn as the text is, and the returned [y]
    is one line height further down. *)
Theorem X13_trailing_newline d x y text f c max_width_px line_spacing :
  Draw.draw_wrapped d (x, y) (text ++ [PyStr.newline]) f c max_width_px
    line_spacing
  = (st <- Draw.draw_wrapped d (x, y) text f c max_width_px line_spacing ;;
     h <- Layout.line_height f line_spacing ;;
     Ok (fst st, snd st + h)).
Proof.
  unfold Draw.draw_wrapped.
  destruct (Layout.cols f max_width_px) as [width|e]; [|reflexivity].
  cbn [bind]. rewrite split_app_sep, draw_paras_app.
  destruct (Draw.draw_paras x f c line_spacing width
              (PyStr.split PyStr.newline text) d y) as [[d1 y1]|e];
    [|reflexivity].
  cbn [bind fst snd PyStr.split Draw.draw_paras].
  change (PyStr.blank []) with true. cbn [bind]. unfold Draw.advance.
  destruct (Layout.line_height f line_spacing) as [h|e]; reflexivity.
Qed.

(** X18: [draw_text_block] returns exactly when the column budget and the
    step [int(font.size * 1.2) + line_spacing] can be computed. *)
Theorem X18_text_block_returns d x y text f c max_width_px line_spacing :
  (exists d' y',
     Block.draw_text_block d (x, y) text f c max_width_px line_spacing
     = Ok (d', y'))
  <-> (exists width, Layout.cols f max_width_px = Ok width)
      /\ (exists s, Block.step f line_spacing = Ok s).
Proof.
  split.
  - intros (d' & y' & H). apply draw_text_block_inv in H.
    destruct H as (width & s & rs & Hc & Hs & _).
    split; [exists width | exists s]; assumption.
  - intros [(width & Hc) (s & Hs)].
    unfold Block.draw_text_block. rewrite Hc. cbn [bind].
    rewrite collect_rows.
    pose proof (cols_at_least_20 _ _ _ Hc) as H20.
    destruct (of_paras_total width (PyStr.split PyStr.newline text) ltac:(lia))
      as [rs Hr].
    rewrite Hr. cbn [bind].
    rewrite (block_draw_lines_place x f c line_spacing s _ Hs). eauto.
Qed.

(** X19: for the empty text [draw_text_block] draws one empty string and
    returns [y] one step further down. *)
Theorem X19_text_block_empty_text d x y f c max_width_px line_spacing :
  Block.draw_text_block d (x, y) [] f c max_width_px line_spacing =
  (width <- Layout.cols f max_width_px ;;
   s <- Block.step f line_spacing ;;
   Ok (d ++ [TextCall x y [] f c], y + s)).
Proof.
  unfold Block.draw_text_block.
  destruct (Layout.cols f max_width_px) as [width|e]; [|reflexivity].
  cbn [bind PyStr.split Block.collect]. change (PyStr.blank []) with true.
  cbn [app bind Block.draw_each].
  destruct (Block.step f line_spacing) as [s|e]; reflexivity.
Qed.
